(** * Session guard, admission control and encrypted capture store

    A shallow embedding of the server-side core of the secure demo
    server: [auth.js] (credential validator, [requireAuth] guard,
    [checkConcurrentSessions]), [sessiondata.js] (the [SessionData]
    model over SQLite), the login, logout and status routes of
    [route.js] and the capture routes of [capture.js].

    External collaborators are modelled by their documented contract:
    - Node's [crypto] AES-256-GCM cipher is an interface ([Aead]); its
      laws are stated where they are used ([gcm_correct],
      [gcm_authentic], [gcm_truncation]);
    - [bcrypt.compare] is an interface ([Bcrypt]);
    - the session store ([connect-sqlite3] under express-session, as
      [app.js] configures them) is a table of rows, each a session
      with the instant up to which the store returns it; the store
      never fails (I/O errors are left out); fresh ids are drawn from
      a supply ([SessionIds]);
    - the SQLite engine is a pair of row lists with the statement
      semantics of the SQL text in the source; its only errors are
      constraint violations.
    Requests are handled one at a time, and every [Date.now()] of one
    request reads the same clock value.  Plaintexts are well-formed
    text, held as their UTF-8 bytes. *)

From Stdlib Require Import ZArith Lia.
From Stdlib.Strings Require Import Ascii String Byte.
From stdpp Require Import base tactics option list strings gmap pretty.

Local Open Scope string_scope.
Local Open Scope Z_scope.

(** ** Buffers and their hexadecimal text form *)

Module Hex.

(** [Buffer.prototype.toString('hex')]: two lower-case digits per byte. *)
Definition hexdigit (n : N) : ascii :=
  match n with
  | 0%N => "0" | 1%N => "1" | 2%N => "2" | 3%N => "3"
  | 4%N => "4" | 5%N => "5" | 6%N => "6" | 7%N => "7"
  | 8%N => "8" | 9%N => "9" | 10%N => "a" | 11%N => "b"
  | 12%N => "c" | 13%N => "d" | 14%N => "e" | _ => "f"
  end%char.

Fixpoint toString_hex (buf : list byte) : string :=
  match buf with
  | [] => EmptyString
  | b :: rest =>
      String (hexdigit (Byte.to_N b / 16))
        (String (hexdigit (Byte.to_N b mod 16)) (toString_hex rest))
  end.

(** Value of one hexadecimal digit; both letter cases are digits. *)
Definition hexval (c : ascii) : option N :=
  let n := N_of_ascii c in
  if ((48 <=? n) && (n <=? 57))%N then Some (n - 48)%N
  else if ((97 <=? n) && (n <=? 102))%N then Some (n - 87)%N
  else if ((65 <=? n) && (n <=? 70))%N then Some (n - 55)%N
  else None.

(** [Buffer.from(text, 'hex')]: decodes digit pairs and stops, keeping
    what was decoded so far, at the first pair that is not two digits. *)
Fixpoint from_hex (s : string) : list byte :=
  match s with
  | String hi (String lo rest) =>
      match hexval hi, hexval lo with
      | Some h, Some l =>
          match Byte.of_N (16 * h + l) with
          | Some b => b :: from_hex rest
          | None => []
          end
      | _, _ => []
      end
  | _ => []
  end.

(** [String.prototype.split(sep)] for a one-character separator. *)
Fixpoint split (sep : ascii) (s : string) : list string :=
  match s with
  | EmptyString => [EmptyString]
  | String c rest =>
      if Ascii.eqb c sep then EmptyString :: split sep rest
      else match split sep rest with
           | piece :: pieces => String c piece :: pieces
           | [] => [String c EmptyString]
           end
  end.

(** The same text with the digits a to f written in upper case.  In
    ASCII the two cases of a letter differ in one bit. *)
Definition upcase (c : ascii) : ascii :=
  let n := N_of_ascii c in
  if ((97 <=? n) && (n <=? 102))%N then ascii_of_N (n - 32) else c.

Fixpoint upper (s : string) : string :=
  match s with
  | EmptyString => EmptyString
  | String c rest => String (upcase c) (upper rest)
  end.

(** No occurrence of [sep] in [s]. *)
Fixpoint free_of (sep : ascii) (s : string) : bool :=
  match s with
  | EmptyString => true
  | String c rest => negb (Ascii.eqb c sep) && free_of sep rest
  end.

End Hex.

(** ** The cipher and the password hash, as interfaces *)

(** [crypto.createCipheriv('aes-256-gcm', key, iv)] followed by
    [update], [final] and [getAuthTag] is [gcm_seal key iv plaintext],
    giving the ciphertext and the tag.  [createDecipheriv], [setAuthTag],
    [update] and [final] together are [gcm_open key iv tag ciphertext];
    [None] stands for every exception the decipher raises. *)
Class Aead := {
  gcm_seal : list byte -> list byte -> list byte -> list byte * list byte;
  gcm_open : list byte -> list byte -> list byte -> list byte -> option (list byte)
}.

(** The contract of an authenticated cipher that the store relies on:
    what was sealed under a key and a nonce opens to itself. *)
Definition gcm_correct {aead : Aead} : Prop :=
  forall key iv plain,
    gcm_open key iv (snd (gcm_seal key iv plain)) (fst (gcm_seal key iv plain))
    = Some plain.

(** The tag lengths [setAuthTag] accepts for GCM when the decipher was
    created without [authTagLength], as the code creates it: 4, 8 and
    12 to 16 bytes. *)
Definition gcm_tag_length_ok (n : nat) : bool :=
  (n =? 4)%nat || (n =? 8)%nat || ((12 <=? n)%nat && (n <=? 16)%nat).

(** What the decipher verifies.  It recomputes the tag of the ciphertext
    and compares as many bytes of it as the tag set by [setAuthTag]
    has: a sealed ciphertext is opened only by a tag of an accepted
    length that is a prefix of the sealed tag. *)
Definition gcm_authentic {aead : Aead} : Prop :=
  forall key iv tag plain,
    is_Some (gcm_open key iv tag (fst (gcm_seal key iv plain))) ->
    gcm_tag_length_ok (length tag) = true /\
    tag = take (length tag) (snd (gcm_seal key iv plain)).

(** Conversely every prefix of an accepted length of the sealed tag
    opens the ciphertext: a truncated tag is not told from the whole
    one. *)
Definition gcm_truncation {aead : Aead} : Prop :=
  forall key iv plain n,
    gcm_tag_length_ok n = true ->
    gcm_open key iv (take n (snd (gcm_seal key iv plain))) (fst (gcm_seal key iv plain))
    = Some plain.

(** [bcrypt.compare(password, hash)]. *)
Class Bcrypt := { bcrypt_compare : string -> string -> bool }.

(** Errors raised while decrypting one stored envelope. *)
Inductive DecryptError :=
| MalformedEnvelope   (* a part of iv:tag:data is missing: TypeError *)
| IntegrityFailure.   (* the decipher rejects iv, tag or data *)

(** [s.length % 2 !== 0] *)
Definition odd_length (s : string) : bool := Nat.odd (String.length s).

(** ** [SessionData.encrypt] and [SessionData.decrypt] *)

Section Envelope.
Context {aead : Aead}.
Variable ENCRYPTION_KEY : list byte.

(** [iv] is the value of [crypto.randomBytes(16)] of this call. *)
Definition encrypt (iv : list byte) (text : string) : string :=
  let sealed := gcm_seal ENCRYPTION_KEY iv (list_byte_of_string text) in
  let encrypted := Hex.toString_hex (fst sealed) in
  let authTag := snd sealed in
  Hex.toString_hex iv +:+ ":" +:+ Hex.toString_hex authTag +:+ ":" +:+ encrypted.

(** [Buffer.from(text, 'hex')] reads the nonce and the tag leniently;
    [decipher.update(encrypted, 'hex', 'utf8')] raises on a text with
    an odd number of characters and reads the digit pairs of any other
    text as [Buffer.from] does. *)
Definition decrypt (encryptedData : string) : DecryptError + string :=
  match Hex.split ":"%char encryptedData with
  | ivHex :: authTagHex :: encrypted :: _ =>
      let iv := Hex.from_hex ivHex in
      let authTag := Hex.from_hex authTagHex in
      if odd_length encrypted then inl IntegrityFailure
      else
        match gcm_open ENCRYPTION_KEY iv authTag (Hex.from_hex encrypted) with
        | Some decrypted => inr (string_of_list_byte decrypted)
        | None => inl IntegrityFailure
        end
  | _ => inl MalformedEnvelope
  end.

End Envelope.

(** ** The SQLite database behind [SessionData] *)

(** [captured_data.status]: TEXT DEFAULT 'new', later 'sent'. *)
Inductive RowStatus := StatusNew | StatusSent.

Definition RowStatus_eqb (a b : RowStatus) : bool :=
  match a, b with
  | StatusNew, StatusNew | StatusSent, StatusSent => true
  | _, _ => false
  end.

(** A row of [capture_sessions].  [expires_at] is kept as the instant, in
    milliseconds, whose [toISOString()] text the column holds. *)
Record CaptureSessionRow := {
  cs_id : Z;
  cs_session_id : string;
  cs_mo_username : string;
  cs_created_at : Z;
  cs_expires_at : Z;
  cs_status : string
}.

(** A row of [captured_data]. *)
Record CapturedDataRow := {
  cd_id : Z;
  cd_session_id : string;
  cd_encrypted_phone : string;
  cd_encrypted_safety_code : string;
  cd_created_at : Z;
  cd_status : RowStatus
}.

(** The database file: the two tables, their AUTOINCREMENT counters and
    the connection's [PRAGMA foreign_keys] flag. *)
Record Db := {
  foreign_keys : bool;
  capture_sessions : list CaptureSessionRow;
  capture_sessions_seq : Z;
  captured_data : list CapturedDataRow;
  captured_data_seq : Z
}.

(** What [new sqlite3.Database(DB_PATH)] and [init()] give on a fresh
    file.  SQLite leaves foreign-key enforcement off unless the
    connection runs [PRAGMA foreign_keys = ON]; [init()] does not. *)
Definition init : Db :=
  {| foreign_keys := false;
     capture_sessions := []; capture_sessions_seq := 0;
     captured_data := []; captured_data_seq := 0 |}.

Inductive SqlError :=
| SQLITE_CONSTRAINT_UNIQUE
| SQLITE_CONSTRAINT_FOREIGNKEY.

Inductive Failure :=
| SqlFailure (e : SqlError)
| DecryptFailure (e : DecryptError).

(** How a promise returned by [SessionData] ends: resolved, rejected, or
    left pending because the driver's callback threw, in which case the
    exception is not caught by the promise and reaches the process. *)
Inductive Settled (A : Type) :=
| Resolved (a : A)
| Rejected (e : Failure)
| Uncaught (e : Failure).
Arguments Resolved {A} a.
Arguments Rejected {A} e.
Arguments Uncaught {A} e.

(** *** Comparison of [expires_at] with [datetime('now')]

    [expires_at] holds the text of [toISOString()],
    "YYYY-MM-DDTHH:MM:SS.sssZ"; [datetime('now')] is the text
    "YYYY-MM-DD HH:MM:SS".  SQLite compares the two as text.  The first
    ten characters are the UTC calendar date; when the dates agree the
    eleventh character decides, and "T" sorts after the space.  So the
    stored instant is above [datetime('now')] exactly when its UTC day
    is not before today's, and below it exactly when its day is. *)
Definition MS_PER_DAY : Z := 24 * 60 * 60 * 1000.
Definition utc_day (ms : Z) : Z := ms / MS_PER_DAY.

(** [expires_at > datetime('now')] *)
Definition expires_gt_now (expires_at now : Z) : bool :=
  utc_day now <=? utc_day expires_at.

(** [expires_at < datetime('now')] *)
Definition expires_lt_now (expires_at now : Z) : bool :=
  utc_day expires_at <? utc_day now.

(** Results handed to the caller by the model's methods. *)
Record CreatedSession := { created_id : Z; created_sessionId : string; created_expiresAt : Z }.
Record Captured := { captured_id : Z }.             (* { id, status: 'captured' } *)
Record Updated := { updated : nat }.                (* { updated: this.changes } *)
Record Purged := { purged : bool }.                 (* { purged: true } *)

(** One element of the array resolved by [getSessionData]. *)
Record Capture := {
  id : Z;
  phoneNumber : string;
  safetyCode : string;
  createdAt : Z
}.

Definition CAPTURE_TTL : Z := 30 * 60 * 1000.

Section SessionData.
Context {aead : Aead}.
Variable ENCRYPTION_KEY : list byte.

(** INSERT INTO capture_sessions (session_id, mo_username, expires_at):
    [session_id] is UNIQUE. *)
Definition insert_capture_session (db : Db) (sessionId moUsername : string)
    (expiresAt now : Z) : SqlError + (Db * Z) :=
  if existsb (fun cs => String.eqb (cs_session_id cs) sessionId) (capture_sessions db)
  then inl SQLITE_CONSTRAINT_UNIQUE
  else
    let lastID := capture_sessions_seq db + 1 in
    inr ({| foreign_keys := foreign_keys db;
            capture_sessions :=
              capture_sessions db ++
              [{| cs_id := lastID; cs_session_id := sessionId;
                  cs_mo_username := moUsername; cs_created_at := now;
                  cs_expires_at := expiresAt; cs_status := "active" |}];
            capture_sessions_seq := lastID;
            captured_data := captured_data db;
            captured_data_seq := captured_data_seq db |}, lastID).

Definition createSession (db : Db) (sessionId moUsername : string) (now : Z)
    : Db * Settled CreatedSession :=
  let expiresAt := now + CAPTURE_TTL in
  match insert_capture_session db sessionId moUsername expiresAt now with
  | inl err => (db, Rejected (SqlFailure err))
  | inr (db', lastID) =>
      (db', Resolved {| created_id := lastID; created_sessionId := sessionId;
                        created_expiresAt := expiresAt |})
  end.

(** INSERT INTO captured_data (session_id, encrypted_phone,
    encrypted_safety_code).  The FOREIGN KEY clause on [session_id] is
    checked only when the connection has foreign keys switched on. *)
Definition insert_captured_data (db : Db) (sessionId encryptedPhone encryptedCode : string)
    (now : Z) : SqlError + (Db * Z) :=
  if foreign_keys db &&
     negb (existsb (fun cs => String.eqb (cs_session_id cs) sessionId) (capture_sessions db))
  then inl SQLITE_CONSTRAINT_FOREIGNKEY
  else
    let lastID := captured_data_seq db + 1 in
    inr ({| foreign_keys := foreign_keys db;
            capture_sessions := capture_sessions db;
            capture_sessions_seq := capture_sessions_seq db;
            captured_data :=
              captured_data db ++
              [{| cd_id := lastID; cd_session_id := sessionId;
                  cd_encrypted_phone := encryptedPhone;
                  cd_encrypted_safety_code := encryptedCode;
                  cd_created_at := now; cd_status := StatusNew |}];
            captured_data_seq := lastID |}, lastID).

(** [iv_phone] and [iv_code] are the two [crypto.randomBytes(16)]
    values drawn by the two [encrypt] calls. *)
Definition captureData (db : Db) (sessionId phoneNumber safetyCode : string)
    (iv_phone iv_code : list byte) (now : Z) : Db * Settled Captured :=
  let encryptedPhone := encrypt ENCRYPTION_KEY iv_phone phoneNumber in
  let encryptedCode := encrypt ENCRYPTION_KEY iv_code safetyCode in
  match insert_captured_data db sessionId encryptedPhone encryptedCode now with
  | inl err => (db, Rejected (SqlFailure err))
  | inr (db', lastID) => (db', Resolved {| captured_id := lastID |})
  end.

(** SELECT cd.* FROM captured_data cd JOIN capture_sessions cs
    ON cd.session_id = cs.session_id
    WHERE cd.session_id = ? AND cs.mo_username = ? AND cd.status = 'new'
    AND cs.expires_at > datetime('now') *)
Definition select_session_data (db : Db) (sessionId moUsername : string) (now : Z)
    : SqlError + list CapturedDataRow :=
  inr (flat_map
         (fun cd =>
            flat_map
              (fun cs =>
                 if String.eqb (cd_session_id cd) (cs_session_id cs)
                    && String.eqb (cd_session_id cd) sessionId
                    && String.eqb (cs_mo_username cs) moUsername
                    && RowStatus_eqb (cd_status cd) StatusNew
                    && expires_gt_now (cs_expires_at cs) now
                 then [cd] else [])
              (capture_sessions db))
         (captured_data db)).

(** [rows.map(row => ({ ..., phoneNumber: this.decrypt(...), safetyCode:
    this.decrypt(...) }))]: rows in order, the phone before the code;
    the first exception ends the whole [map]. *)
Fixpoint decrypt_rows (rows : list CapturedDataRow) : DecryptError + list Capture :=
  match rows with
  | [] => inr []
  | row :: rest =>
      match decrypt ENCRYPTION_KEY (cd_encrypted_phone row) with
      | inl e => inl e
      | inr phone =>
          match decrypt ENCRYPTION_KEY (cd_encrypted_safety_code row) with
          | inl e => inl e
          | inr code =>
              match decrypt_rows rest with
              | inl e => inl e
              | inr decrypted =>
                  inr ({| id := cd_id row; phoneNumber := phone;
                          safetyCode := code; createdAt := cd_created_at row |}
                       :: decrypted)
              end
          end
      end
  end.

(** A stored row one of whose envelopes [decrypt] rejects. *)
Definition unreadable (row : CapturedDataRow) : Prop :=
  (exists e, decrypt ENCRYPTION_KEY (cd_encrypted_phone row) = inl e) \/
  (exists e, decrypt ENCRYPTION_KEY (cd_encrypted_safety_code row) = inl e).

Definition getSessionData (db : Db) (sessionId moUsername : string) (now : Z)
    : Settled (list Capture) :=
  match select_session_data db sessionId moUsername now with
  | inl err => Rejected (SqlFailure err)
  | inr rows =>
      match decrypt_rows rows with
      | inl e => Uncaught (DecryptFailure e)
      | inr decrypted => Resolved decrypted
      end
  end.

(** UPDATE captured_data SET status = 'sent'
    WHERE session_id = ? AND encrypted_phone = ? *)
Definition update_mark_sent (db : Db) (sessionId encryptedPhone : string)
    : SqlError + (Db * nat) :=
  let hit cd := String.eqb (cd_session_id cd) sessionId
                && String.eqb (cd_encrypted_phone cd) encryptedPhone in
  inr ({| foreign_keys := foreign_keys db;
          capture_sessions := capture_sessions db;
          capture_sessions_seq := capture_sessions_seq db;
          captured_data :=
            map (fun cd =>
                   if hit cd then
                     {| cd_id := cd_id cd; cd_session_id := cd_session_id cd;
                        cd_encrypted_phone := cd_encrypted_phone cd;
                        cd_encrypted_safety_code := cd_encrypted_safety_code cd;
                        cd_created_at := cd_created_at cd; cd_status := StatusSent |}
                   else cd)
                (captured_data db);
          captured_data_seq := captured_data_seq db |},
       length (filter (fun cd => hit cd = true) (captured_data db))).

(** [iv] is the [crypto.randomBytes(16)] value drawn by [encrypt]. *)
Definition markAsSent (db : Db) (sessionId phoneNumber : string) (iv : list byte)
    : Db * Settled Updated :=
  let encryptedPhone := encrypt ENCRYPTION_KEY iv phoneNumber in
  match update_mark_sent db sessionId encryptedPhone with
  | inl err => (db, Rejected (SqlFailure err))
  | inr (db', changes) => (db', Resolved {| updated := changes |})
  end.

(** DELETE FROM captured_data WHERE session_id = ? *)
Definition delete_captured_data (db : Db) (sessionId : string) : SqlError + Db :=
  inr {| foreign_keys := foreign_keys db;
         capture_sessions := capture_sessions db;
         capture_sessions_seq := capture_sessions_seq db;
         captured_data :=
           filter (fun cd => String.eqb (cd_session_id cd) sessionId = false)
                  (captured_data db);
         captured_data_seq := captured_data_seq db |}.

(** DELETE FROM capture_sessions WHERE session_id = ? *)
Definition delete_capture_session (db : Db) (sessionId : string) : SqlError + Db :=
  inr {| foreign_keys := foreign_keys db;
         capture_sessions :=
           filter (fun cs => String.eqb (cs_session_id cs) sessionId = false)
                  (capture_sessions db);
         capture_sessions_seq := capture_sessions_seq db;
         captured_data := captured_data db;
         captured_data_seq := captured_data_seq db |}.

Definition endSession (db : Db) (sessionId : string) : Db * Settled Purged :=
  match delete_captured_data db sessionId with
  | inl err => (db, Rejected (SqlFailure err))
  | inr db1 =>
      match delete_capture_session db1 sessionId with
      | inl err => (db1, Rejected (SqlFailure err))
      | inr db2 => (db2, Resolved {| purged := true |})
      end
  end.

(** The two DELETE statements of the five-minute sweep. *)
Definition cleanupExpired (db : Db) (now : Z) : Db :=
  let expired cs := expires_lt_now (cs_expires_at cs) now in
  let stale cd :=
    existsb (fun cs => String.eqb (cs_session_id cs) (cd_session_id cd) && expired cs)
            (capture_sessions db) in
  {| foreign_keys := foreign_keys db;
     capture_sessions := filter (fun cs => expired cs = false) (capture_sessions db);
     capture_sessions_seq := capture_sessions_seq db;
     captured_data := filter (fun cd => stale cd = false) (captured_data db);
     captured_data_seq := captured_data_seq db |}.

End SessionData.

(** ** Sessions, as express-session keeps them *)

Module Credential.
(** An entry of [MO_USERS]. *)
Record t := {
  username : string;
  passwordHash : string;
  role : string;
  allowedSessions : nat
}.
End Credential.

Module MoUser.
(** [req.session.moUser]. *)
Record t := { username : string; role : string; sessionStart : Z }.
End MoUser.

Module ActiveSession.
(** A value of the [activeSessions] map. *)
Record t := {
  username : string;
  sessionId : string;
  startedAt : Z;
  ip : string;
  userAgent : string
}.
End ActiveSession.

(** The properties the application puts on [req.session]; [None] is a
    property that was never set. *)
Record Session := {
  moUser : option MoUser.t;
  demoSessionId : option string;
  lastActivity : option Z;
  lastRegenerated : option Z
}.

(** The session [store.generate] creates: no application property yet. *)
Definition empty_session : Session :=
  {| moUser := None; demoSessionId := None;
     lastActivity := None; lastRegenerated := None |}.

Definition uninitialized (s : Session) : bool :=
  match moUser s, demoSessionId s, lastActivity s, lastRegenerated s with
  | None, None, None, None => true
  | _, _, _, _ => false
  end.

(** [Object.assign(target, source)] on sessions: every property present
    on [source] overwrites the one on [target]. *)
Definition Object_assign (target source : Session) : Session :=
  let pick {A} (t s : option A) := match s with Some v => Some v | None => t end in
  {| moUser := pick (moUser target) (moUser source);
     demoSessionId := pick (demoSessionId target) (demoSessionId source);
     lastActivity := pick (lastActivity target) (lastActivity source);
     lastRegenerated := pick (lastRegenerated target) (lastRegenerated source) |}.

(** Truthiness of a numeric property: unset and [0] are falsy. *)
Definition truthy_number (v : option Z) : bool :=
  match v with Some n => negb (n =? 0) | None => false end.

(** Truthiness of a string property: unset and the empty string are falsy. *)
Definition truthy_string (v : option string) : bool :=
  match v with Some s => negb (String.eqb s "") | None => false end.

(** The request as the middlewares see it: [req.sessionID] and
    [req.session], the latter gone once the session is destroyed. *)
Record Req := { sessionID : string; session : option Session }.

(** Where fresh session identifiers come from: the [n]-th identifier
    express-session generates.  Identifiers are unguessable and never
    repeat, which is stated as injectivity where it is needed. *)
Class SessionIds := { uid : nat -> string }.

(** A row of the session store's table: the session, and the instant
    after which the store does not return it any more ([expired]). *)
Record StoreRow := { row_expired : Z; row_sess : Session }.

(** The state of the server process. *)
Record World := {
  clock : Z;
  storeRows : gmap string StoreRow;
  uid_next : nat;
  activeSessions : gmap string ActiveSession.t;
  database : Db
}.

(** [cookie.maxAge] of the session middleware ([app.js]): thirty
    minutes, renewed at every response ([rolling: true]). *)
Definition MAX_AGE : Z := 30 * 60 * 1000.

(** [store.get(sid)] reads SELECT sess FROM sessions WHERE sid = ? AND
    ? <= expired, with the current time for the second parameter. *)
Definition returned (now : Z) (row : StoreRow) : option Session :=
  if now <=? row_expired row then Some (row_sess row) else None.

(** The sessions the store returns at the current time, by identifier:
    [sessionStore w !! sid] is the result of [store.get(sid)]. *)
Definition sessionStore (w : World) : gmap string Session :=
  omap (returned (clock w)) (storeRows w).
Arguments sessionStore : simpl never.

Definition with_rows (w : World) (rows : gmap string StoreRow) : World :=
  {| clock := clock w; storeRows := rows; uid_next := uid_next w;
     activeSessions := activeSessions w; database := database w |}.

Definition with_active (w : World) (m : gmap string ActiveSession.t) : World :=
  {| clock := clock w; storeRows := storeRows w; uid_next := uid_next w;
     activeSessions := m; database := database w |}.

Definition with_database (w : World) (d : Db) : World :=
  {| clock := clock w; storeRows := storeRows w; uid_next := uid_next w;
     activeSessions := activeSessions w; database := d |}.

Definition with_clock (w : World) (t : Z) : World :=
  {| clock := t; storeRows := storeRows w; uid_next := uid_next w;
     activeSessions := activeSessions w; database := database w |}.

Inductive StoreError := STORE_ERROR.

(** What a handler writes to the client. *)
Inductive Response :=
| AUTH_REQUIRED                              (* 401 *)
| SESSION_EXPIRED                            (* 401 *)
| MAX_SESSIONS                               (* 403 *)
| AUTH_FAILED                                (* 401 *)
| SessionCreationFailed                      (* 500 *)
| LoginSuccess (username role : string)     (* 200 *)
| LoggedOut                                  (* 200, 'Logged out and session data purged' *)
| LogoutFailed                               (* 500 *)
| LogoutError                                (* 500 *)
| StatusOk (username role : string)         (* 200 *)
| ValidationFailed                           (* 400 *)
| CaptureStored                              (* 200 *)
| CaptureFailed                              (* 500 *)
| Captures (captures : list Capture)         (* 200 *)
| RetrieveFailed                             (* 500 *)
| InternalServerError                        (* 500, the application's error handler *)
| Healthy                                    (* 200, GET /health *)
| Pending (e : Failure).                     (* nothing is ever written *)

(** How a middleware ends. *)
Inductive Middleware :=
| Next
| NextErr (e : StoreError)
| Respond (r : Response).

Definition MAX_IDLE : Z := 30 * 60 * 1000.
Definition ROTATE_AFTER : Z := 15 * 60 * 1000.

Definition MO_USERS : list Credential.t :=
  [ {| Credential.username := "demo.admin";
       Credential.passwordHash := "$2b$10$YourHashedPasswordHere";
       Credential.role := "admin";
       Credential.allowedSessions := 5 |};
    {| Credential.username := "demo.operator";
       Credential.passwordHash := "$2b$10$YourHashedPasswordHere";
       Credential.role := "operator";
       Credential.allowedSessions := 3 |} ].

Section Server.
Context {aead : Aead} {hasher : Bcrypt} {supply : SessionIds}.
Variable ENCRYPTION_KEY : list byte.

(** *** express-session *)

(** [store.generate(req)]: a new identifier and an empty session. *)
Definition generate (w : World) : World * Req :=
  ({| clock := clock w; storeRows := storeRows w;
      uid_next := S (uid_next w);
      activeSessions := activeSessions w; database := database w |},
   {| sessionID := uid (uid_next w); session := Some empty_session |}).

(** The session middleware at the start of a request: the session named
    by the cookie when the store returns it, which it does up to the
    row's expiry, and a generated one otherwise. *)
Definition load (w : World) (cookie : option string) : World * Req :=
  match cookie with
  | Some sid =>
      match sessionStore w !! sid with
      | Some s => (w, {| sessionID := sid; session := Some s |})
      | None => generate w
      end
  | None => generate w
  end.

(** The session middleware at the end of the response: the session, if
    it still exists and has been given any property, is written to the
    store under [req.sessionID] ([store.set], or [store.touch] when it
    was not modified), its expiry set to the current time plus the
    cookie's [maxAge]. *)
Definition save (w : World) (req : Req) : World :=
  match session req with
  | Some s =>
      if uninitialized s then w
      else with_rows w (<[sessionID req :=
                            {| row_expired := clock w + MAX_AGE; row_sess := s |}]>
                          (storeRows w))
  | None => w
  end.

(** The end of a request: the hook of [save] runs when the response is
    written, and not at all when none ever is. *)
Definition finish (w : World) (req : Req) (r : Response) : World :=
  match r with
  | Pending _ => w
  | _ => save w req
  end.

(** [req.session.destroy(cb)]. *)
Definition session_destroy (w : World) (req : Req) : World * Req * option StoreError :=
  (with_rows w (delete (sessionID req) (storeRows w)),
   {| sessionID := sessionID req; session := None |},
   None).

(** [req.session.regenerate(cb)]: the store destroys the current
    identifier, then generates a new session on [req], then calls [cb]
    with the error of the destroy. *)
Definition session_regenerate (w : World) (req : Req) : World * Req * option StoreError :=
  let '(w1, _, err) := session_destroy w req in
  let '(w2, req2) := generate w1 in
  (w2, req2, err).

(** *** auth.js *)

(** [validateMOCredentials], together with the list of
    [bcrypt.compare(password, hash)] calls it made. *)
Definition validateMOCredentials (username password : string)
    : list (string * string) * option Credential.t :=
  match find (fun u => String.eqb (Credential.username u) username) MO_USERS with
  | None => ([], None)
  | Some user =>
      let valid := bcrypt_compare password (Credential.passwordHash user) in
      ([(password, Credential.passwordHash user)],
       if valid then Some user else None)
  end.

Definition idle_expired (s : Session) (now : Z) : bool :=
  match lastActivity s with
  | Some t => truthy_number (Some t) && (now - t >? MAX_IDLE)
  | None => false
  end.

Definition rotation_due (s : Session) (now : Z) : bool :=
  match lastRegenerated s with
  | Some t => negb (truthy_number (Some t)) || (now - t >? ROTATE_AFTER)
  | None => true
  end.

Definition requireAuth (w : World) (req : Req) : World * Req * Middleware :=
  match session req with
  | None => (w, req, Respond AUTH_REQUIRED)
  | Some s =>
      match moUser s with
      | None => (w, req, Respond AUTH_REQUIRED)
      | Some _ =>
          if idle_expired s (clock w) then
            let '(w', req', _) := session_destroy w req in
            (w', req', Respond SESSION_EXPIRED)
          else
            let touched :=
              {| moUser := moUser s; demoSessionId := demoSessionId s;
                 lastActivity := Some (clock w);
                 lastRegenerated := lastRegenerated s |} in
            if rotation_due touched (clock w) then
              let oldSession := touched in
              let '(w', req', err) :=
                session_regenerate w {| sessionID := sessionID req;
                                        session := Some touched |} in
              match err with
              | Some e => (w', req', NextErr e)
              | None =>
                  let target := default empty_session (session req') in
                  let copied := Object_assign target oldSession in
                  (w',
                   {| sessionID := sessionID req';
                      session :=
                        Some {| moUser := moUser copied;
                                demoSessionId := demoSessionId copied;
                                lastActivity := lastActivity copied;
                                lastRegenerated := Some (clock w) |} |},
                   Next)
              end
            else (w, {| sessionID := sessionID req; session := Some touched |}, Next)
      end
  end.

(** [Array.from(activeSessions.values()).filter(s => s.username ===
    username && s.sessionId !== req.sessionID)]. *)
Definition userSessions (m : gmap string ActiveSession.t) (username sid : string)
    : list ActiveSession.t :=
  List.filter
    (fun s => String.eqb (ActiveSession.username s) username
              && negb (String.eqb (ActiveSession.sessionId s) sid))
    (map snd (map_to_list m)).

Definition checkConcurrentSessions (w : World) (req : Req) (ip userAgent : string)
    : World * Middleware :=
  match MoUser.username <$> (session req ≫= moUser) with
  | None => (w, Next)
  | Some "" => (w, Next)
  | Some username =>
      let others := userSessions (activeSessions w) username (sessionID req) in
      let user := find (fun u => String.eqb (Credential.username u) username) MO_USERS in
      let full :=
        match user with
        | Some u => (Credential.allowedSessions u <=? length others)%nat
        | None => false
        end in
      if full then (w, Respond MAX_SESSIONS)
      else
        (with_active w
           (<[sessionID req :=
                {| ActiveSession.username := username;
                   ActiveSession.sessionId := sessionID req;
                   ActiveSession.startedAt := clock w;
                   ActiveSession.ip := ip;
                   ActiveSession.userAgent := userAgent |}]> (activeSessions w)),
         Next)
  end.

(** *** route.js *)

(** The handler of POST /login, after the rate limiter and the body
    validation.  [createSession] is awaited inside the callback of
    [regenerate]; a rejection there is outside the handler's [try]. *)
Definition login_handler (w : World) (req : Req) (username password : string)
    : World * Req * Response :=
  match snd (validateMOCredentials username password) with
  | None => (w, req, AUTH_FAILED)
  | Some user =>
      let '(w1, req1, err) := session_regenerate w req in
      match err with
      | Some _ => (w1, req1, SessionCreationFailed)
      | None =>
          match createSession (database w1) (sessionID req1) username (clock w1) with
          | (db', Resolved demoSession) =>
              (with_database w1 db',
               {| sessionID := sessionID req1;
                  session :=
                    Some {| moUser :=
                              Some {| MoUser.username := Credential.username user;
                                      MoUser.role := Credential.role user;
                                      MoUser.sessionStart := clock w1 |};
                            demoSessionId := Some (created_sessionId demoSession);
                            lastActivity := Some (clock w1);
                            lastRegenerated := Some (clock w1) |} |},
               LoginSuccess (Credential.username user) (Credential.role user))
          | (db', Rejected e) | (db', Uncaught e) =>
              (with_database w1 db', req1, Pending e)
          end
      end
  end.

(** The handler of POST /logout, reached when [requireAuth] calls
    [next()]. *)
Definition logout_handler (w : World) (req : Req) : World * Req * Response :=
  let sessionId := session req ≫= demoSessionId in
  let '(db', ended) :=
    match sessionId with
    | Some sid =>
        if truthy_string sessionId then endSession (database w) sid
        else (database w, Resolved {| purged := true |})
    | None => (database w, Resolved {| purged := true |})
    end in
  match ended with
  | Rejected _ => (with_database w db', req, LogoutError)
  | Uncaught e => (with_database w db', req, Pending e)
  | Resolved _ =>
      let w1 := with_database w db' in
      let w2 := with_active w1 (delete (sessionID req) (activeSessions w1)) in
      let '(w3, req3, err) := session_destroy w2 req in
      match err with
      | Some _ => (w3, req3, LogoutFailed)
      | None => (w3, req3, LoggedOut)
      end
  end.

(** The handler of GET /status. *)
Definition status_handler (w : World) (req : Req) : World * Req * Response :=
  match session req ≫= moUser with
  | Some mo => (w, req, StatusOk (MoUser.username mo) (MoUser.role mo))
  | None => (w, req, InternalServerError)
  end.

(** *** capture.js *)

(** The handler of POST /api/capture, reached after [requireAuth] and
    the double-entry validators; [valid] is the validators' verdict. *)
Definition capture_handler (valid : bool) (phoneNumber safetyCode : string)
    (iv_phone iv_code : list byte) (w : World) (req : Req) : World * Req * Response :=
  if negb valid then (w, req, ValidationFailed)
  else
    match session req ≫= demoSessionId, session req ≫= moUser with
    | Some sessionId, Some _ =>
        match captureData ENCRYPTION_KEY (database w) sessionId phoneNumber safetyCode
                iv_phone iv_code (clock w) with
        | (db', Resolved _) => (with_database w db', req, CaptureStored)
        | (db', Rejected _) => (with_database w db', req, CaptureFailed)
        | (db', Uncaught e) => (with_database w db', req, Pending e)
        end
    | _, _ => (w, req, CaptureFailed)
    end.

(** The handler of GET /api/capture/current. *)
Definition current_handler (w : World) (req : Req) : World * Req * Response :=
  match session req ≫= demoSessionId, session req ≫= moUser with
  | Some sessionId, Some mo =>
      match getSessionData ENCRYPTION_KEY (database w) sessionId (MoUser.username mo)
              (clock w) with
      | Resolved data => (w, req, Captures data)
      | Rejected _ => (w, req, RetrieveFailed)
      | Uncaught e => (w, req, Pending e)
      end
  | _, _ => (w, req, RetrieveFailed)
  end.

(** *** One request through the application *)

(** A route mounted behind [requireAuth]. *)
Definition guarded (handler : World -> Req -> World * Req * Response)
    (w : World) (cookie : option string) : World * Req * Response :=
  let '(w0, req0) := load w cookie in
  match requireAuth w0 req0 with
  | (w1, req1, Respond r) => (save w1 req1, req1, r)
  | (w1, req1, NextErr _) => (save w1 req1, req1, InternalServerError)
  | (w1, req1, Next) =>
      let '(w2, req2, r) := handler w1 req1 in
      (finish w2 req2 r, req2, r)
  end.

(** POST /api/auth/login. *)
Definition login (w : World) (cookie : option string) (username password : string)
    : World * Req * Response :=
  let '(w0, req0) := load w cookie in
  let '(w1, req1, r) := login_handler w0 req0 username password in
  (finish w1 req1 r, req1, r).

Definition logout := guarded logout_handler.
Definition status := guarded status_handler.

(** GET /health ([app.js]), a route that is not behind [requireAuth]
    and does not look at the session: the session middleware loads the
    session of the cookie and renews its expiry when the response is
    written. *)
Definition health (w : World) (cookie : option string) : World * Req * Response :=
  let '(w0, req0) := load w cookie in
  (save w0 req0, req0, Healthy).

(** What can happen to the server. *)
Inductive Event :=
| Login (cookie : option string) (username password : string)
| Logout (cookie : option string)
| GetStatus (cookie : option string)
| PostCapture (cookie : option string) (valid : bool) (phoneNumber safetyCode : string)
    (iv_phone iv_code : list byte)
| GetCurrent (cookie : option string)
| GetHealth (cookie : option string)
| Sweep                       (* the five-minute timer fires *)
| Tick (elapsed : Z).         (* time passes *)

(** One event: the world after it and, for a request, the response. *)
Definition serve (w : World) (ev : Event) : World * option Response :=
  match ev with
  | Login cookie username password =>
      let '(w', _, r) := login w cookie username password in (w', Some r)
  | Logout cookie =>
      let '(w', _, r) := logout w cookie in (w', Some r)
  | GetStatus cookie =>
      let '(w', _, r) := status w cookie in (w', Some r)
  | PostCapture cookie valid phone code iv1 iv2 =>
      let '(w', _, r) := guarded (capture_handler valid phone code iv1 iv2) w cookie in
      (w', Some r)
  | GetCurrent cookie =>
      let '(w', _, r) := guarded current_handler w cookie in (w', Some r)
  | GetHealth cookie =>
      let '(w', _, r) := health w cookie in (w', Some r)
  | Sweep => (with_database w (cleanupExpired (database w) (clock w)), None)
  | Tick elapsed => (with_clock w (clock w + Z.max 0 elapsed), None)
  end.

Definition handle (w : World) (ev : Event) : World := (serve w ev).1.

Definition run (w : World) (evs : list Event) : World := foldl handle w evs.

(** [ev] is a request to a route behind [requireAuth] that presents
    the session cookie [cookie]. *)
Definition guarded_with (cookie : option string) (ev : Event) : Prop :=
  match ev with
  | Logout c | GetStatus c | GetCurrent c => c = cookie
  | PostCapture c _ _ _ _ _ => c = cookie
  | Login _ _ _ | GetHealth _ | Sweep | Tick _ => False
  end.

(** The cookie and the handler of a request to a route behind
    [requireAuth]. *)
Definition route (ev : Event)
    : option (option string * (World -> Req -> World * Req * Response)) :=
  match ev with
  | Logout c => Some (c, logout_handler)
  | GetStatus c => Some (c, status_handler)
  | PostCapture c valid phone code iv1 iv2 =>
      Some (c, capture_handler valid phone code iv1 iv2)
  | GetCurrent c => Some (c, current_handler)
  | Login _ _ _ | GetHealth _ | Sweep | Tick _ => None
  end.

(** *** Invariants of the running server *)

(** [sid] was handed out by the identifier supply of [w]. *)
Definition issued (w : World) (sid : string) : Prop :=
  exists k, (k < uid_next w)%nat /\ sid = uid k.

(** Every identifier the server holds, in the rows of the session
    store or in [capture_sessions], was handed out by the supply. *)
Definition supplied (w : World) : Prop :=
  (forall sid, is_Some (storeRows w !! sid) -> issued w sid) /\
  (forall cs, In cs (capture_sessions (database w)) -> issued w (cs_session_id cs)).

(** The server is well supplied and so is the request being handled. *)
Definition handling (w : World) (req : Req) : Prop :=
  supplied w /\ (is_Some (session req) -> issued w (sessionID req)).

(** [sid] was handed out and names no session any more. *)
Definition retired (w : World) (sid : string) : Prop :=
  issued w sid /\ sessionStore w !! sid = None.

(** [sid] names no session in [w], and the request being handled is not
    running under it either. *)
Definition clear_of (sid : string) (w : World) (req : Req) : Prop :=
  retired w sid /\ (is_Some (session req) -> sessionID req <> sid).

(** Number of sessions in the store that belong to [username]. *)
Definition live_sessions (w : World) (username : string) : nat :=
  size (filter
          (fun kv : string * Session =>
             (MoUser.username <$> moUser kv.2) = Some username)
          (sessionStore w)).

End Server.

(** *** The registry of active sessions *)

(** Every entry of [activeSessions] is stored under its own
    [sessionId], as [activeSessions.set(req.sessionID, { sessionId:
    req.sessionID, ... })] writes it. *)
Definition registry_sound (m : gmap string ActiveSession.t) : Prop :=
  forall k e, m !! k = Some e -> ActiveSession.sessionId e = k.

(** Number of registry entries that satisfy [f]. *)
Definition tally (f : ActiveSession.t -> bool) (m : gmap string ActiveSession.t) : nat :=
  length (List.filter f (map snd (map_to_list m))).

(** Number of registry entries of [username]. *)
Definition entries_of (m : gmap string ActiveSession.t) (username : string) : nat :=
  length (List.filter (fun s => String.eqb (ActiveSession.username s) username)
            (map snd (map_to_list m))).

(** No identity of [MO_USERS] holds more entries than it is allowed. *)
Definition within_limits (m : gmap string ActiveSession.t) : Prop :=
  forall u, In u MO_USERS ->
            (entries_of m (Credential.username u) <= Credential.allowedSessions u)%nat.

(** [session_id] is UNIQUE in [capture_sessions]. *)
Definition unique_sessions (db : Db) : Prop :=
  NoDup (map cs_session_id (capture_sessions db)).

(** The rows [getSessionData] selects, as a list. *)
Definition matched_rows (db : Db) (sessionId moUsername : string) (now : Z)
    : list CapturedDataRow :=
  match select_session_data db sessionId moUsername now with
  | inr rows => rows
  | inl _ => []
  end.

(** ** A small instance for running the model

    A cipher with the shape of an authenticated one (the tag is a
    function of key, nonce and ciphertext, and is checked before
    anything is returned), a password check and an identifier supply,
    all small enough to evaluate. *)

Module Demo.

Fixpoint bytes_eqb (a b : list byte) : bool :=
  match a, b with
  | [], [] => true
  | x :: a', y :: b' => Byte.eqb x y && bytes_eqb a' b'
  | _, _ => false
  end.

(** Sixteen bytes computed from key, nonce and ciphertext. *)
Definition tag_of (key iv data : list byte) : list byte :=
  take 16 (key ++ iv ++ data ++ repeat x00 16).

#[export] Instance aead : Aead :=
  {| gcm_seal key iv plain := (rev plain, tag_of key iv (rev plain));
     gcm_open key iv tag data :=
       if gcm_tag_length_ok (length tag)
          && bytes_eqb tag (take (length tag) (tag_of key iv data))
       then Some (rev data) else None |}.

#[export] Instance bcrypt : Bcrypt :=
  {| bcrypt_compare password hash := String.eqb password "correct horse" |}.

#[export] Instance ids : SessionIds := {| uid n := "sid-" +:+ pretty n |}.

Definition KEY : list byte := [x2a; x07].
Definition IV1 : list byte := [x01; x01].
Definition IV2 : list byte := [x02; x02].
Definition IV3 : list byte := [x03; x03].

(** An operator session opened at instant 1000 whose capture session
    holds one captured pair. *)
Definition operator_session : Session :=
  {| moUser := Some {| MoUser.username := "demo.operator"; MoUser.role := "operator";
                       MoUser.sessionStart := 1000 |};
     demoSessionId := Some "sid-0";
     lastActivity := Some 1000;
     lastRegenerated := Some 1000 |}.

Definition db_one_capture : Db :=
  (captureData KEY
     (createSession init "sid-0" "demo.operator" 1000).1
     "sid-0" "+15551234567" "ABC123" IV1 IV2 1000).1.

(** The same database after one bit of the stored phone tag was
    flipped: its first byte reads 2b instead of 2a. *)
Definition db_tampered_tag : Db :=
  {| foreign_keys := false;
     capture_sessions := capture_sessions db_one_capture;
     capture_sessions_seq := 1;
     captured_data :=
       [{| cd_id := 1; cd_session_id := "sid-0";
           cd_encrypted_phone :=
             "0101:2b07010137363534333231353535312b:37363534333231353535312b";
           cd_encrypted_safety_code :=
             "0202:2a070202333231434241000000000000:333231434241";
           cd_created_at := 1000; cd_status := StatusNew |}];
     captured_data_seq := 1 |}.

(** The server just started. *)
Definition world_started : World :=
  {| clock := 1000; storeRows := ∅; uid_next := 0;
     activeSessions := ∅; database := init |}.

(** The server at [now] with the operator session in the store, its
    expiry as the login set it or, if [now] is later than that, renewed
    since by requests to routes that are not behind the guard, so that
    the store returns the session at [now]. *)
Definition world_at (now : Z) : World :=
  {| clock := now;
     storeRows :=
       {[ "sid-0" := {| row_expired := Z.max now (1000 + MAX_AGE);
                        row_sess := operator_session |} ]};
     uid_next := 1;
     activeSessions := ∅;
     database := db_one_capture |}.

End Demo.

(** ** The texts compared by [expires_at < datetime('now')] *)

Module Calendar.

Record Date := { year : Z; month : Z; day : Z }.

Definition is_leap (y : Z) : bool :=
  ((y mod 4 =? 0) && negb (y mod 100 =? 0)) || (y mod 400 =? 0).

Definition days_in_month (y m : Z) : Z :=
  if m =? 2 then (if is_leap y then 29 else 28)
  else if (m =? 4) || (m =? 6) || (m =? 9) || (m =? 11) then 30
  else 31.

Definition next_day (d : Date) : Date :=
  if day d <? days_in_month (year d) (month d)
  then {| year := year d; month := month d; day := day d + 1 |}
  else if month d <? 12
       then {| year := year d; month := month d + 1; day := 1 |}
       else {| year := year d + 1; month := 1; day := 1 |}.

(** The UTC calendar date [n] days after 1970-01-01. *)
Definition date_of_day (n : nat) : Date :=
  Nat.iter n next_day {| year := 1970; month := 1; day := 1 |}.

(** A date of the calendar, from 1970 on. *)
Definition valid (d : Date) : Prop :=
  1970 <= year d /\ 1 <= month d <= 12 /\
  1 <= day d <= days_in_month (year d) (month d).

(** Earlier in the calendar. *)
Definition before (a b : Date) : Prop :=
  year a < year b \/
  (year a = year b /\
   (month a < month b \/ (month a = month b /\ day a < day b))).

End Calendar.

(** The character of the last decimal digit of [n]. *)
Definition decimal (n : Z) : ascii := ascii_of_N (48 + Z.to_N (n mod 10)).

Definition pad2 (n : Z) : string :=
  String (decimal (n / 10)) (String (decimal n) "").

Definition pad3 (n : Z) : string :=
  String (decimal (n / 100)) (pad2 n).

Definition pad4 (n : Z) : string :=
  String (decimal (n / 1000)) (pad3 n).

(** "YYYY-MM-DD" *)
Definition date_text (d : Calendar.Date) : string :=
  pad4 (Calendar.year d) +:+ "-" +:+ pad2 (Calendar.month d) +:+ "-" +:+
  pad2 (Calendar.day d).

(** "HH:MM:SS" *)
Definition time_text (ms : Z) : string :=
  pad2 (ms / 3600000 mod 24) +:+ ":" +:+ pad2 (ms / 60000 mod 60) +:+ ":" +:+
  pad2 (ms / 1000 mod 60).

Definition date_of_instant (ms : Z) : Calendar.Date :=
  Calendar.date_of_day (Z.to_nat (utc_day ms)).

(** [new Date(ms).toISOString()], the text [createSession] stores in
    [expires_at], for an instant of the years 1970 to 9999. *)
Definition toISOString (ms : Z) : string :=
  date_text (date_of_instant ms) +:+ "T" +:+ time_text ms +:+ "." +:+
  pad3 (ms mod 1000) +:+ "Z".

(** SQLite's [datetime('now')] at the instant [ms]. *)
Definition sqlite_datetime (ms : Z) : string :=
  date_text (date_of_instant ms) +:+ " " +:+ time_text ms.

(** [a < b] on TEXT values: bytewise, as SQLite's BINARY collation. *)
Definition text_lt (a b : string) : bool := String.ltb a b.

(** ** The SMS service of [smsservice.js] *)

Module Sms.

Inductive Status := queued | delivered | failed.

(** A record of the delivery queue. *)
Record Delivery := {
  id : string;
  to : string;
  timestamp : Z;
  status : Status;
  sessionId : string;
  username : string;
  deliveredAt : option Z
}.

(** What [send] returns: [{ id, status: 'queued' }]. *)
Record Receipt := { receipt_id : string; receipt_status : Status }.

(** What [getStatus] returns. *)
Record Report := {
  report_id : string;
  report_status : Status;
  report_timestamp : Z;
  report_deliveredAt : option Z
}.

Inductive Error :=
| InvalidPhoneNumberFormat
| DeliveryNotFound.

End Sms.

(** The state of the [SMSService] singleton. *)
Record SMSService := {
  deliveryQueue : gmap string Sms.Delivery;
  deliveryCounter : nat
}.

(** [new SMSService()]. *)
Definition SMSService_new : SMSService :=
  {| deliveryQueue := ∅; deliveryCounter := 0 |}.

(** [\d] *)
Definition is_digit (c : ascii) : bool :=
  ((48 <=? N_of_ascii c) && (N_of_ascii c <=? 57))%N.

(** [[1-9]] *)
Definition is_nonzero_digit (c : ascii) : bool :=
  ((49 <=? N_of_ascii c) && (N_of_ascii c <=? 57))%N.

Fixpoint all_digits (s : string) : bool :=
  match s with
  | EmptyString => true
  | String c rest => is_digit c && all_digits rest
  end.

(** [/^\+?[1-9]\d{1,14}$/.test(to)] *)
Definition phoneRegex_test (to : string) : bool :=
  let body :=
    match to with
    | String c rest => if Ascii.eqb c "+" then rest else to
    | EmptyString => to
    end in
  match body with
  | String d rest =>
      is_nonzero_digit d && all_digits rest
      && (1 <=? String.length rest)%nat && (String.length rest <=? 14)%nat
  | EmptyString => false
  end.

(** The next [n] characters of [s] exist and are digits: [\d{n}] at the
    head of [s]. *)
Fixpoint digits_ahead (n : nat) (s : string) : bool :=
  match n with
  | O => true
  | S n' =>
      match s with
      | String c rest => is_digit c && digits_ahead n' rest
      | EmptyString => false
      end
  end.

(** [to.replace(/\d(?=\d{4})/g, '*')]: every digit that has four digits
    right after it becomes a star. *)
Fixpoint mask_to (s : string) : string :=
  match s with
  | EmptyString => EmptyString
  | String c rest =>
      String (if is_digit c && digits_ahead 4 rest then "*"%char else c) (mask_to rest)
  end.

Fixpoint stars (n : nat) : string :=
  match n with
  | O => EmptyString
  | S n' => String "*"%char (stars n')
  end.

(** [`MO-${Date.now()}-${++this.deliveryCounter}`], for the counter
    value after the increment. *)
Definition deliveryId (now : Z) (counter : nat) : string :=
  "MO-" +:+ pretty now +:+ "-" +:+ pretty counter.

(** [send({ to, message, sessionId, username })]; the message text is
    received and not looked at. *)
Definition send {Message : Type} (svc : SMSService) (now : Z)
    (to : string) (message : Message) (sessionId username : string)
    : SMSService * (Sms.Error + Sms.Receipt) :=
  if negb (phoneRegex_test to) then (svc, inl Sms.InvalidPhoneNumberFormat)
  else
    let counter := S (deliveryCounter svc) in
    let id := deliveryId now counter in
    let delivery :=
      {| Sms.id := id; Sms.to := mask_to to; Sms.timestamp := now;
         Sms.status := Sms.queued; Sms.sessionId := sessionId;
         Sms.username := username; Sms.deliveredAt := None |} in
    ({| deliveryQueue := <[id := delivery]> (deliveryQueue svc);
        deliveryCounter := counter |},
     inr {| Sms.receipt_id := id; Sms.receipt_status := Sms.queued |}).

Definition getStatus (svc : SMSService) (id : string) : Sms.Error + Sms.Report :=
  match deliveryQueue svc !! id with
  | None => inl Sms.DeliveryNotFound
  | Some delivery =>
      inr {| Sms.report_id := Sms.id delivery;
             Sms.report_status := Sms.status delivery;
             Sms.report_timestamp := Sms.timestamp delivery;
             Sms.report_deliveredAt := Sms.deliveredAt delivery |}
  end.

(** Every delivery is queued under its own id, and that id was built
    from a counter value the service has already passed. *)
Definition queue_sound (svc : SMSService) : Prop :=
  forall id d, deliveryQueue svc !! id = Some d ->
    Sms.id d = id /\
    exists t c, id = deliveryId t c /\ (c <= deliveryCounter svc)%nat.

(** [s] holds a "-". *)
Fixpoint has_dash (s : string) : bool :=
  match s with
  | EmptyString => false
  | String c rest => Ascii.eqb c "-" || has_dash rest
  end.

(** What follows the last "-" of [s]; [s] itself when it has none. *)
Fixpoint after_last_dash (s : string) : string :=
  match s with
  | EmptyString => EmptyString
  | String c rest =>
      if has_dash rest then after_last_dash rest
      else if Ascii.eqb c "-" then rest else s
  end.

(** ** Message logging and the send route *)

(** A row of [message_logs]; the preview is kept as UTF-16 code
    units, the unit [substring] counts in. *)
Record MessageLogRow := {
  ml_id : Z;
  ml_session_id : string;
  ml_mo_username : string;
  ml_encrypted_phone : string;
  ml_message_preview : list N;
  ml_sent_at : Z;
  ml_status : string
}.

(** The [message_logs] table with its AUTOINCREMENT counter. *)
Record MessageLogs := {
  message_logs : list MessageLogRow;
  message_logs_seq : Z
}.

Record Logged := { logged_id : Z }.      (* { id: this.lastID } *)

(** [message.substring(0, 50) + (message.length > 50 ? '...' : '')] *)
Definition message_preview (message : list N) : list N :=
  (take 50 message ++ (if (50 <? length message)%nat then [46; 46; 46]%N else []))%list.

(** [message.replace(/[<>]/g, '').substring(0, 1600)] *)
Definition sanitizeMessage (message : list N) : list N :=
  take 1600 (List.filter (fun c => negb ((c =? 60) || (c =? 62))%N) message).

(** [phoneNumber.replace(/(\d{3})\d{4}(\d{3})/, '$1****$2')]: the
    leftmost run of ten digits keeps its first and last three. *)
Fixpoint mask_middle (s : string) : string :=
  match s with
  | EmptyString => EmptyString
  | String c rest =>
      if digits_ahead 10 s then
        String.substring 0 3 s +:+ "****" +:+ String.substring 7 (String.length s - 7) s
      else String c (mask_middle rest)
  end.

(** One element of [results]. *)
Record SendResult := {
  result_phone : string;
  result_sent : bool;                   (* status: 'sent' or 'failed' *)
  result_deliveryId : option string
}.

(** What the handler of POST /send answers. *)
Inductive SendResponse :=
| NO_RECIPIENTS                          (* 400 *)
| SendFailed                             (* 500, 'Message sending failed' *)
| SendPending (e : Failure)              (* nothing is ever written *)
| Sent (results : list SendResult) (total sent failed : nat).

(** The capture store together with the log table and the SMS service. *)
Record Messaging := {
  store : Db;
  logs : MessageLogs;
  sms : SMSService
}.

Section MessagingRoutes.
Context {aead : Aead}.
Variable ENCRYPTION_KEY : list byte.

(** The UTF-16 code units of a decrypted text. *)
Variable code_units : string -> list N.

(** INSERT INTO message_logs (...): [session_id] refers to
    [capture_sessions], checked only with foreign keys switched on. *)
Definition insert_message_log (db : Db) (l : MessageLogs)
    (sessionId moUsername encryptedPhone : string) (preview : list N)
    (sentAt : Z) (status : string) : SqlError + (MessageLogs * Z) :=
  if foreign_keys db &&
     negb (existsb (fun cs => String.eqb (cs_session_id cs) sessionId) (capture_sessions db))
  then inl SQLITE_CONSTRAINT_FOREIGNKEY
  else
    let lastID := message_logs_seq l + 1 in
    inr ({| message_logs :=
              message_logs l ++
              [{| ml_id := lastID; ml_session_id := sessionId;
                  ml_mo_username := moUsername;
                  ml_encrypted_phone := encryptedPhone;
                  ml_message_preview := preview;
                  ml_sent_at := sentAt; ml_status := status |}];
            message_logs_seq := lastID |}, lastID).

(** [iv] is the [crypto.randomBytes(16)] value drawn by [encrypt]. *)
Definition logMessage (db : Db) (l : MessageLogs)
    (sessionId moUsername phoneNumber : string) (message : list N) (status : string)
    (iv : list byte) (now : Z) : MessageLogs * Settled Logged :=
  let encryptedPhone := encrypt ENCRYPTION_KEY iv phoneNumber in
  let preview := message_preview message in
  match insert_message_log db l sessionId moUsername encryptedPhone preview now status with
  | inl err => (l, Rejected (SqlFailure err))
  | inr (l', lastID) => (l', Resolved {| logged_id := lastID |})
  end.

(** The [catch (sendError)] block of the loop body: the recipient is
    reported failed and the failure is logged. *)
Definition report_failed (m : Messaging) (sessionId username : string)
    (recipient : Capture) (sanitizedMessage : list N) (iv : list byte) (now : Z)
    : Messaging * Settled SendResult :=
  let result := {| result_phone := mask_middle (phoneNumber recipient);
                   result_sent := false; result_deliveryId := None |} in
  match logMessage (store m) (logs m) sessionId username (phoneNumber recipient)
          sanitizedMessage "failed" iv now with
  | (l', Resolved _) =>
      ({| store := store m; logs := l'; sms := sms m |}, Resolved result)
  | (l', Rejected e) =>
      ({| store := store m; logs := l'; sms := sms m |}, Rejected e)
  | (l', Uncaught e) =>
      ({| store := store m; logs := l'; sms := sms m |}, Uncaught e)
  end.

(** One turn of [for (const recipient of recipients)].  [ivs] holds the
    nonces drawn by the [encrypt] calls of [markAsSent], of the
    [logMessage] of the [try] block and of the one of the [catch] block. *)
Definition send_to (m : Messaging) (sessionId username : string)
    (recipient : Capture) (sanitizedMessage : list N)
    (ivs : list byte * list byte * list byte) (now : Z)
    : Messaging * Settled SendResult :=
  let '(iv_mark, iv_log, iv_catch) := ivs in
  let personalizedMessage :=
    (sanitizedMessage ++ code_units "

Safety Code: " ++ code_units (safetyCode recipient))%list in
  match send (sms m) now (phoneNumber recipient) personalizedMessage sessionId username with
  | (_, inl _) =>
      report_failed m sessionId username recipient sanitizedMessage iv_catch now
  | (sms', inr delivery) =>
      match markAsSent ENCRYPTION_KEY (store m) sessionId (phoneNumber recipient) iv_mark with
      | (db', Resolved _) =>
          match logMessage db' (logs m) sessionId username (phoneNumber recipient)
                  sanitizedMessage "sent" iv_log now with
          | (l', Resolved _) =>
              ({| store := db'; logs := l'; sms := sms' |},
               Resolved {| result_phone := mask_middle (phoneNumber recipient);
                           result_sent := true;
                           result_deliveryId := Some (Sms.receipt_id delivery) |})
          | (l', Rejected _) =>
              report_failed {| store := db'; logs := l'; sms := sms' |}
                sessionId username recipient sanitizedMessage iv_catch now
          | (l', Uncaught e) =>
              ({| store := db'; logs := l'; sms := sms' |}, Uncaught e)
          end
      | (db', Rejected _) =>
          report_failed {| store := db'; logs := logs m; sms := sms' |}
            sessionId username recipient sanitizedMessage iv_catch now
      | (db', Uncaught e) =>
          ({| store := db'; logs := logs m; sms := sms' |}, Uncaught e)
      end
  end.

(** The whole loop; [ivs k] are the nonces of the [k]-th turn. *)
Fixpoint send_to_all (m : Messaging) (sessionId username : string)
    (recipients : list Capture) (sanitizedMessage : list N)
    (ivs : nat -> list byte * list byte * list byte) (k : nat) (now : Z)
    : Messaging * Settled (list SendResult) :=
  match recipients with
  | [] => (m, Resolved [])
  | recipient :: rest =>
      match send_to m sessionId username recipient sanitizedMessage (ivs k) now with
      | (m1, Resolved result) =>
          match send_to_all m1 sessionId username rest sanitizedMessage ivs (S k) now with
          | (m2, Resolved results) => (m2, Resolved (result :: results))
          | (m2, Rejected e) => (m2, Rejected e)
          | (m2, Uncaught e) => (m2, Uncaught e)
          end
      | (m1, Rejected e) => (m1, Rejected e)
      | (m1, Uncaught e) => (m1, Uncaught e)
      end
  end.

(** The handler of POST /send, reached after [requireAuth] and the
    message validator. *)
Definition send_handler (message : list N)
    (ivs : nat -> list byte * list byte * list byte)
    (m : Messaging) (now : Z) (sessionId username : string)
    : Messaging * SendResponse :=
  match getSessionData ENCRYPTION_KEY (store m) sessionId username now with
  | Rejected _ => (m, SendFailed)
  | Uncaught e => (m, SendPending e)
  | Resolved [] => (m, NO_RECIPIENTS)
  | Resolved recipients =>
      let sanitizedMessage := sanitizeMessage message in
      match send_to_all m sessionId username recipients sanitizedMessage ivs 0 now with
      | (m', Resolved results) =>
          (m', Sent results (length results)
                 (length (List.filter result_sent results))
                 (length (List.filter (fun r => negb (result_sent r)) results)))
      | (m', Rejected _) => (m', SendFailed)
      | (m', Uncaught e) => (m', SendPending e)
      end
  end.

End MessagingRoutes.

(** ** More of the small instance *)

Module DemoSms.

(** Code units of a text of ASCII characters. *)
Definition code_units (s : string) : list N :=
  map N_of_ascii (list_ascii_of_string s).

Definition nonces (k : nat) : list byte * list byte * list byte :=
  ([x10; Byte.x00], [x11; Byte.x00], [x12; Byte.x00]).

End DemoSms.

Module DemoSend.

(** The capture store of the demo with an empty log table and a new SMS
    service. *)
Definition messaging : Messaging :=
  {| store := Demo.db_one_capture;
     logs := {| message_logs := []; message_logs_seq := 0 |};
     sms := SMSService_new |}.

(** "Hi <b>" as code units. *)
Definition message : list N := [72; 105; 32; 60; 98; 62]%N.

Definition captured : Capture :=
  {| id := 1; phoneNumber := "+15551234567"; safetyCode := "ABC123"; createdAt := 1000 |}.

End DemoSend.

(** ** Facts about the hexadecimal form *)

Lemma hex_byte_roundtrip (b : byte) :
  Hex.hexval (Hex.hexdigit (Byte.to_N b / 16)) = Some (Byte.to_N b / 16)%N /\
  Hex.hexval (Hex.hexdigit (Byte.to_N b mod 16)) = Some (Byte.to_N b mod 16)%N /\
  Byte.of_N (16 * (Byte.to_N b / 16) + Byte.to_N b mod 16) = Some b.
Proof. destruct b; repeat split; reflexivity. Qed.

Lemma from_hex_toString_hex (buf : list byte) :
  Hex.from_hex (Hex.toString_hex buf) = buf.
Proof.
  induction buf as [|b buf IH]; [reflexivity|].
  destruct (hex_byte_roundtrip b) as (Hhi & Hlo & Hb).
  cbn [Hex.toString_hex Hex.from_hex].
  rewrite Hhi, Hlo, Hb, IH. reflexivity.
Qed.

Lemma hexdigit_not_colon (n : N) : Ascii.eqb (Hex.hexdigit n) ":"%char = false.
Proof.
  unfold Hex.hexdigit.
  repeat match goal with
         | |- context [match ?p with _ => _ end] => destruct p
         end; reflexivity.
Qed.

Lemma free_of_toString_hex (buf : list byte) :
  Hex.free_of ":"%char (Hex.toString_hex buf) = true.
Proof.
  induction buf as [|b buf IH]; [reflexivity|].
  cbn [Hex.toString_hex Hex.free_of].
  rewrite !hexdigit_not_colon, IH. reflexivity.
Qed.

Lemma split_free_of (sep : ascii) (s : string) :
  Hex.free_of sep s = true -> Hex.split sep s = [s].
Proof.
  induction s as [|c s IH]; [reflexivity|].
  cbn [Hex.free_of Hex.split]. intros Hfree.
  apply andb_prop in Hfree as [Hc Hs].
  destruct (Ascii.eqb c sep); [discriminate|].
  rewrite (IH Hs). reflexivity.
Qed.

Lemma split_app_sep (sep : ascii) (a b : string) :
  Hex.free_of sep a = true ->
  Hex.split sep (a +:+ String sep b) = a :: Hex.split sep b.
Proof.
  induction a as [|c a IH]; cbn [Hex.free_of]; intros Hfree.
  - change (Hex.split sep (String sep b) = EmptyString :: Hex.split sep b).
    cbn [Hex.split]. rewrite Ascii.eqb_refl. reflexivity.
  - apply andb_prop in Hfree as [Hc Ha].
    change (String c a +:+ String sep b) with (String c (a +:+ String sep b)).
    cbn [Hex.split].
    destruct (Ascii.eqb c sep); [discriminate|].
    rewrite (IH Ha). reflexivity.
Qed.

Lemma odd_length_toString_hex (buf : list byte) :
  odd_length (Hex.toString_hex buf) = false.
Proof.
  unfold odd_length. induction buf as [|b buf IH]; [reflexivity|].
  cbn [Hex.toString_hex String.length]. rewrite Nat.odd_succ, Nat.even_succ. exact IH.
Qed.

Lemma hexval_upcase (c : ascii) : Hex.hexval (Hex.upcase c) = Hex.hexval c.
Proof. destruct c as [[] [] [] [] [] [] [] []]; reflexivity. Qed.

Lemma upcase_not_colon (c : ascii) :
  Ascii.eqb (Hex.upcase c) ":"%char = Ascii.eqb c ":"%char.
Proof. destruct c as [[] [] [] [] [] [] [] []]; reflexivity. Qed.

(** Upper-case digits decode to the same bytes. *)
Lemma from_hex_upper (s : string) : Hex.from_hex (Hex.upper s) = Hex.from_hex s.
Proof.
  assert (Hlen : forall n s', (String.length s' <= n)%nat ->
                              Hex.from_hex (Hex.upper s') = Hex.from_hex s').
  { induction n as [|n IH]; intros [|hi [|lo rest]] Hle; try reflexivity.
    - cbn in Hle. lia.
    - cbn [Hex.upper Hex.from_hex]. rewrite !hexval_upcase.
      rewrite (IH rest) by (cbn in Hle; lia). reflexivity. }
  exact (Hlen (String.length s) s (le_n _)).
Qed.

Lemma free_of_upper (s : string) :
  Hex.free_of ":"%char (Hex.upper s) = Hex.free_of ":"%char s.
Proof.
  induction s as [|c s IH]; [reflexivity|].
  cbn [Hex.upper Hex.free_of]. rewrite upcase_not_colon, IH. reflexivity.
Qed.

Lemma odd_length_upper (s : string) : odd_length (Hex.upper s) = odd_length s.
Proof.
  unfold odd_length. f_equal.
  induction s as [|c s IH]; [reflexivity|]. cbn. rewrite IH. reflexivity.
Qed.

(** The three parts of an envelope built by [encrypt] are recovered by
    [split]. *)
Lemma split_three (a b c : string) :
  Hex.free_of ":"%char a = true ->
  Hex.free_of ":"%char b = true ->
  Hex.free_of ":"%char c = true ->
  Hex.split ":"%char (a +:+ ":" +:+ b +:+ ":" +:+ c) = [a; b; c].
Proof.
  intros Ha Hb Hc.
  change (":" +:+ ?x) with (String ":"%char x).
  rewrite split_app_sep by exact Ha.
  change (":" +:+ ?x) with (String ":"%char x).
  rewrite split_app_sep by exact Hb.
  rewrite split_free_of by exact Hc.
  reflexivity.
Qed.

Lemma split_envelope (iv tag data : list byte) :
  Hex.split ":"%char
    (Hex.toString_hex iv +:+ ":" +:+ Hex.toString_hex tag +:+ ":" +:+
     Hex.toString_hex data)
  = [Hex.toString_hex iv; Hex.toString_hex tag; Hex.toString_hex data].
Proof. apply split_three; apply free_of_toString_hex. Qed.

Section EnvelopeFacts.
Context {aead : Aead}.
Variable KEY : list byte.

Lemma split_encrypt iv text :
  Hex.split ":"%char (encrypt KEY iv text)
  = [Hex.toString_hex iv;
     Hex.toString_hex (snd (gcm_seal KEY iv (list_byte_of_string text)));
     Hex.toString_hex (fst (gcm_seal KEY iv (list_byte_of_string text)))].
Proof. unfold encrypt. cbv zeta. apply split_envelope. Qed.

(** [decrypt] undoes [encrypt], whatever nonce was drawn. *)
Lemma decrypt_encrypt iv text :
  gcm_correct -> decrypt KEY (encrypt KEY iv text) = inr text.
Proof.
  intros Hok. unfold decrypt. rewrite split_encrypt.
  rewrite odd_length_toString_hex, !from_hex_toString_hex, Hok.
  rewrite string_of_list_byte_of_string. reflexivity.
Qed.

(** An envelope of [encrypt] whose tag was replaced by bytes that are
    not a prefix of accepted length of the sealed tag is rejected; this
    covers every other tag of the same length. *)
Lemma altered_tag_is_rejected iv text (tag' : list byte) :
  gcm_authentic ->
  tag' <> take (length tag') (snd (gcm_seal KEY iv (list_byte_of_string text))) ->
  decrypt KEY
    (Hex.toString_hex iv +:+ ":" +:+ Hex.toString_hex tag' +:+ ":" +:+
     Hex.toString_hex (fst (gcm_seal KEY iv (list_byte_of_string text))))
  = inl IntegrityFailure.
Proof.
  intros Hauth Hne. unfold decrypt.
  rewrite split_envelope, odd_length_toString_hex, !from_hex_toString_hex.
  destruct (gcm_open KEY iv tag' _) as [plain|] eqn:Hopen; [|reflexivity].
  destruct (Hauth KEY iv tag' (list_byte_of_string text)) as [_ Hprefix].
  { rewrite Hopen. eauto. }
  contradiction.
Qed.

(** An envelope of [encrypt] whose tag was cut to an accepted length
    decrypts as the whole envelope does. *)
Lemma truncated_tag_is_accepted iv text (n : nat) :
  gcm_truncation -> gcm_tag_length_ok n = true ->
  decrypt KEY
    (Hex.toString_hex iv +:+ ":" +:+
     Hex.toString_hex (take n (snd (gcm_seal KEY iv (list_byte_of_string text))))
     +:+ ":" +:+
     Hex.toString_hex (fst (gcm_seal KEY iv (list_byte_of_string text))))
  = inr text.
Proof.
  intros Htrunc Hn. unfold decrypt.
  rewrite split_envelope, odd_length_toString_hex, !from_hex_toString_hex.
  rewrite (Htrunc KEY iv _ n Hn), string_of_list_byte_of_string. reflexivity.
Qed.

(** An envelope of [encrypt] with the letters of its tag and of its
    data turned to upper case, one bit changed in each letter, decrypts
    as the envelope itself does. *)
Lemma recased_envelope_is_accepted iv text :
  gcm_correct ->
  decrypt KEY
    (Hex.toString_hex iv +:+ ":" +:+
     Hex.upper (Hex.toString_hex (snd (gcm_seal KEY iv (list_byte_of_string text))))
     +:+ ":" +:+
     Hex.upper (Hex.toString_hex (fst (gcm_seal KEY iv (list_byte_of_string text)))))
  = inr text.
Proof.
  intros Hok. unfold decrypt.
  rewrite split_three
    by (rewrite ?free_of_upper; apply free_of_toString_hex).
  rewrite odd_length_upper, odd_length_toString_hex.
  rewrite !from_hex_upper, !from_hex_toString_hex, Hok.
  rewrite string_of_list_byte_of_string. reflexivity.
Qed.

(** Two envelopes built from different nonces are different texts. *)
Lemma encrypt_iv_inj iv1 iv2 text1 text2 :
  encrypt KEY iv1 text1 = encrypt KEY iv2 text2 -> iv1 = iv2.
Proof.
  intros Heq. apply (f_equal (Hex.split ":"%char)) in Heq.
  rewrite !split_encrypt in Heq.
  injection Heq as Hiv _ _.
  apply (f_equal Hex.from_hex) in Hiv.
  rewrite !from_hex_toString_hex in Hiv. exact Hiv.
Qed.

End EnvelopeFacts.

(** ** The credential validator *)

Section Validator.
Context {hasher : Bcrypt}.

Lemma find_user_none (username : string) :
  (forall u, In u MO_USERS -> Credential.username u <> username) ->
  find (fun u => String.eqb (Credential.username u) username) MO_USERS = None.
Proof.
  intros Hunknown.
  destruct (find _ MO_USERS) as [u|] eqn:Hfind; [|reflexivity].
  apply find_some in Hfind as [Hin Heq].
  apply String.eqb_eq in Heq. destruct (Hunknown u Hin Heq).
Qed.

Lemma find_user_some (u : Credential.t) :
  In u MO_USERS ->
  find (fun v => String.eqb (Credential.username v) (Credential.username u)) MO_USERS
  = Some u.
Proof.
  unfold MO_USERS. intros [<-|[<-|[]]]; reflexivity.
Qed.

(** C9 (as the code behaves).  For a username with no stored credential
    [validateMOCredentials] returns [null] without a single
    [bcrypt.compare] call, whereas for a stored username with a wrong
    password it returns [null] after exactly one: the two paths do not do
    the same hashing work, and no decoy hash is computed. *)
Theorem validate_unknown_user_skips_hashing (username password : string) (u : Credential.t) :
  (forall v, In v MO_USERS -> Credential.username v <> username) ->
  In u MO_USERS ->
  bcrypt_compare password (Credential.passwordHash u) = false ->
  validateMOCredentials username password = ([], None) /\
  validateMOCredentials (Credential.username u) password
  = ([(password, Credential.passwordHash u)], None).
Proof.
  intros Hunknown Hin Hwrong. unfold validateMOCredentials. split.
  - rewrite (find_user_none _ Hunknown). reflexivity.
  - rewrite (find_user_some _ Hin), Hwrong. reflexivity.
Qed.

End Validator.

Lemma validate_unknown_user_skips_hashing_witness :
  validateMOCredentials (hasher := Demo.bcrypt) "nobody" "password123" = ([], None) /\
  validateMOCredentials (hasher := Demo.bcrypt) "demo.admin" "password123"
  = ([("password123", "$2b$10$YourHashedPasswordHere")], None).
Proof.
  apply (validate_unknown_user_skips_hashing (hasher := Demo.bcrypt) "nobody" "password123"
           {| Credential.username := "demo.admin";
              Credential.passwordHash := "$2b$10$YourHashedPasswordHere";
              Credential.role := "admin";
              Credential.allowedSessions := 5 |}).
  - intros v [<-|[<-|[]]]; discriminate.
  - left. reflexivity.
  - reflexivity.
Defined.

(** ** The capture store *)

Section Store.
Context {aead : Aead}.
Variable KEY : list byte.

Lemma existsb_session_absent (rows : list CaptureSessionRow) (sid : string) :
  (forall cs, In cs rows -> cs_session_id cs <> sid) ->
  existsb (fun cs => String.eqb (cs_session_id cs) sid) rows = false.
Proof.
  intros Habsent. apply not_true_is_false. intros Hex.
  apply existsb_exists in Hex as (cs & Hin & Heq).
  apply String.eqb_eq in Heq. exact (Habsent cs Hin Heq).
Qed.

(** C8 (as the code behaves).  With foreign keys off, as [init()] leaves
    them, [captureData] for a session id that has no row in
    [capture_sessions] resolves and appends a record. *)
Theorem captureData_without_session_appends
    (db : Db) (sessionId phone code : string) (iv_phone iv_code : list byte) (now : Z) :
  foreign_keys db = false ->
  (forall cs, In cs (capture_sessions db) -> cs_session_id cs <> sessionId) ->
  exists db',
    captureData KEY db sessionId phone code iv_phone iv_code now
    = (db', Resolved {| captured_id := captured_data_seq db + 1 |}) /\
    captured_data db' =
      (captured_data db ++
       [{| cd_id := captured_data_seq db + 1; cd_session_id := sessionId;
           cd_encrypted_phone := encrypt KEY iv_phone phone;
           cd_encrypted_safety_code := encrypt KEY iv_code code;
           cd_created_at := now; cd_status := StatusNew |}])%list.
Proof.
  intros Hfk _. unfold captureData, insert_captured_data.
  rewrite Hfk. cbn [andb]. eexists. split; reflexivity.
Qed.


Lemma eqb_encrypt_other_nonce (iv iv' : list byte) (text text' : string) :
  iv <> iv' -> String.eqb (encrypt KEY iv text) (encrypt KEY iv' text') = false.
Proof.
  intros Hne. apply String.eqb_neq. intros Heq.
  apply Hne. exact (encrypt_iv_inj KEY _ _ _ _ Heq).
Qed.

(** C1 (as the code behaves).  [markAsSent] compares the stored envelope
    with a fresh encryption of the phone number.  A record captured under
    one nonce is therefore left with status new when [markAsSent] is
    called for the very same phone number and draws another nonce,
    although the stored envelope decrypts to that phone number. *)
Theorem markAsSent_fresh_nonce_leaves_record_new
    (db : Db) (sessionId phone code : string) (iv_phone iv_code iv : list byte) (now : Z) :
  gcm_correct ->
  foreign_keys db = false ->
  iv <> iv_phone ->
  let captured :=
    {| cd_id := captured_data_seq db + 1; cd_session_id := sessionId;
       cd_encrypted_phone := encrypt KEY iv_phone phone;
       cd_encrypted_safety_code := encrypt KEY iv_code code;
       cd_created_at := now; cd_status := StatusNew |} in
  let db1 := (captureData KEY db sessionId phone code iv_phone iv_code now).1 in
  In captured (captured_data db1) /\
  decrypt KEY (cd_encrypted_phone captured) = inr phone /\
  In captured (captured_data (markAsSent KEY db1 sessionId phone iv).1).
Proof.
  intros Hok Hfk Hiv captured db1.
  assert (Hdb1 : In captured (captured_data db1)).
  { subst db1. unfold captureData, insert_captured_data. rewrite Hfk. cbn.
    apply in_or_app. right. left. reflexivity. }
  split; [exact Hdb1|]. split.
  - apply decrypt_encrypt, Hok.
  - unfold markAsSent, update_mark_sent. cbn [fst captured_data].
    apply in_map_iff. exists captured. split; [|exact Hdb1].
    cbn [cd_session_id cd_encrypted_phone captured].
    rewrite (eqb_encrypt_other_nonce iv_phone iv phone phone) by congruence.
    rewrite andb_false_r. reflexivity.
Qed.

(** When no stored envelope of the session equals the fresh one, the
    UPDATE of [markAsSent] changes no row and reports none. *)
Lemma markAsSent_no_equal_envelope (db : Db) (sessionId phone : string) (iv : list byte) :
  (forall cd, In cd (captured_data db) ->
              cd_encrypted_phone cd <> encrypt KEY iv phone) ->
  captured_data (markAsSent KEY db sessionId phone iv).1 = captured_data db /\
  (markAsSent KEY db sessionId phone iv).2 = Resolved {| updated := 0 |}.
Proof.
  intros Hfresh. unfold markAsSent, update_mark_sent. cbn [fst snd captured_data].
  induction (captured_data db) as [|cd rows IH]; [split; reflexivity|].
  assert (Hcd : String.eqb (cd_encrypted_phone cd) (encrypt KEY iv phone) = false).
  { apply String.eqb_neq, Hfresh. left. reflexivity. }
  destruct IH as [IHrows IHcount].
  { intros cd' Hin. apply Hfresh. right. exact Hin. }
  split.
  - cbn [map]. rewrite Hcd, andb_false_r. f_equal. exact IHrows.
  - rewrite filter_cons. rewrite Hcd, andb_false_r.
    destruct (decide (false = true)) as [Hfalse|_]; [discriminate|].
    exact IHcount.
Qed.

(** *** Reading *)

Lemma utc_day_mono (a b : Z) : a <= b -> utc_day a <= utc_day b.
Proof. intros Hle. apply Z.div_le_mono; [reflexivity | exact Hle]. Qed.

Lemma expires_gt_now_before_expiry (expires_at now : Z) :
  now < expires_at -> expires_gt_now expires_at now = true.
Proof.
  intros Hlt. unfold expires_gt_now. apply Z.leb_le, utc_day_mono. lia.
Qed.

Lemma decrypt_rows_app (rows rows' : list CapturedDataRow) (decrypted : list Capture) :
  decrypt_rows KEY rows = inr decrypted ->
  decrypt_rows KEY (rows ++ rows') =
    match decrypt_rows KEY rows' with
    | inl e => inl e
    | inr decrypted' => inr (decrypted ++ decrypted')%list
    end.
Proof.
  revert decrypted. induction rows as [|row rows IH]; intros decrypted Hrows.
  - injection Hrows as <-. cbn. destruct (decrypt_rows KEY rows'); reflexivity.
  - cbn [app decrypt_rows] in *.
    destruct (decrypt KEY (cd_encrypted_phone row)); [discriminate|].
    destruct (decrypt KEY (cd_encrypted_safety_code row)); [discriminate|].
    destruct (decrypt_rows KEY rows) as [|done] eqn:Hdone; [discriminate|].
    injection Hrows as <-.
    rewrite (IH done eq_refl).
    destruct (decrypt_rows KEY rows'); reflexivity.
Qed.

Lemma flat_map_all_nil {A B : Type} (f : A -> list B) (l : list A) :
  (forall x, In x l -> f x = []) -> flat_map f l = [].
Proof.
  induction l as [|x l IH]; intros Hnil; [reflexivity|].
  cbn [flat_map]. rewrite (Hnil x) by (left; reflexivity).
  apply IH. intros y Hy. apply Hnil. right. exact Hy.
Qed.

(** The join of one data row with [capture_sessions], [session_id] being
    unique there, yields the row once if its session passes the WHERE
    clause and not at all otherwise. *)
Lemma join_unique_session (cd : CapturedDataRow) (sessions : list CaptureSessionRow)
    (cs : CaptureSessionRow) (P : CaptureSessionRow -> bool) :
  NoDup (map cs_session_id sessions) ->
  In cs sessions ->
  cs_session_id cs = cd_session_id cd ->
  flat_map (fun cs' =>
              if String.eqb (cd_session_id cd) (cs_session_id cs') && P cs'
              then [cd] else []) sessions
  = if P cs then [cd] else [].
Proof.
  intros Hnodup Hin Hsid.
  induction sessions as [|cs0 sessions IH]; [destruct Hin|].
  cbn [map] in Hnodup. apply NoDup_cons in Hnodup as [Hfresh Hnodup].
  cbn [flat_map]. destruct Hin as [->|Hin].
  - rewrite <- Hsid, String.eqb_refl. cbn [andb].
    replace (flat_map _ sessions) with (@nil CapturedDataRow).
    + destruct (P cs); reflexivity.
    + symmetry. apply flat_map_all_nil.
      intros cs' Hin'.
      destruct (String.eqb_spec (cs_session_id cs) (cs_session_id cs')) as [Heq|_];
        [|reflexivity].
      exfalso. apply Hfresh. rewrite Heq. apply list_elem_of_In.
      apply in_map. exact Hin'.
  - destruct (String.eqb_spec (cd_session_id cd) (cs_session_id cs0)) as [Heq|_].
    + exfalso. apply Hfresh. rewrite <- Heq, <- Hsid.
      apply list_elem_of_In. apply in_map. exact Hin.
    + cbn [andb app]. apply IH; assumption.
Qed.


Lemma select_new_row (db : Db) (cd : CapturedDataRow) (cs : CaptureSessionRow)
    (moUsername : string) (now : Z) :
  unique_sessions db ->
  In cs (capture_sessions db) ->
  cs_session_id cs = cd_session_id cd ->
  cs_mo_username cs = moUsername ->
  cd_status cd = StatusNew ->
  now < cs_expires_at cs ->
  flat_map
    (fun cs' =>
       if String.eqb (cd_session_id cd) (cs_session_id cs')
          && String.eqb (cd_session_id cd) (cd_session_id cd)
          && String.eqb (cs_mo_username cs') moUsername
          && RowStatus_eqb (cd_status cd) StatusNew
          && expires_gt_now (cs_expires_at cs') now
       then [cd] else [])
    (capture_sessions db)
  = [cd].
Proof.
  intros Huniq Hin Hsid Huser Hnew Hlive.
  rewrite (flat_map_ext _
             (fun cs' =>
                if String.eqb (cd_session_id cd) (cs_session_id cs')
                   && (String.eqb (cs_mo_username cs') moUsername
                       && expires_gt_now (cs_expires_at cs') now)
                then [cd] else [])).
  - rewrite (join_unique_session cd _ cs _ Huniq Hin Hsid).
    rewrite Huser, String.eqb_refl, (expires_gt_now_before_expiry _ _ Hlive).
    reflexivity.
  - intros cs'. rewrite String.eqb_refl, Hnew. cbn [RowStatus_eqb].
    rewrite !andb_true_r, andb_assoc. reflexivity.
Qed.

(** The UNIQUE constraint on [session_id] is kept by every statement. *)
Lemma createSession_unique (db : Db) (sessionId moUsername : string) (now : Z) :
  unique_sessions db -> unique_sessions (createSession db sessionId moUsername now).1.
Proof.
  unfold unique_sessions, createSession, insert_capture_session. intros Huniq.
  destruct (existsb _ (capture_sessions db)) eqn:Hex; [exact Huniq|].
  cbn. rewrite map_app. cbn [map cs_session_id].
  apply NoDup_app. split; [exact Huniq|]. split; [|apply NoDup_singleton].
  intros sid Hsid Hnew. apply list_elem_of_singleton in Hnew as ->.
  apply list_elem_of_In, in_map_iff in Hsid as (cs & Heq & Hin).
  assert (existsb (fun cs' => String.eqb (cs_session_id cs') sessionId)
            (capture_sessions db) = true) as Htrue.
  { apply existsb_exists. exists cs. split; [exact Hin | apply String.eqb_eq, Heq]. }
  congruence.
Qed.

Lemma filter_sessions_unique (P : CaptureSessionRow -> Prop)
    `{forall cs, Decision (P cs)} (rows : list CaptureSessionRow) :
  NoDup (map cs_session_id rows) -> NoDup (map cs_session_id (filter P rows)).
Proof.
  induction rows as [|cs rows IH]; [intros _; constructor|].
  cbn [map]. intros Huniq. apply NoDup_cons in Huniq as [Hfresh Huniq].
  rewrite filter_cons. destruct (decide (P cs)); [|apply IH, Huniq].
  cbn [map]. apply NoDup_cons. split; [|apply IH, Huniq].
  intros Hin. apply Hfresh.
  apply list_elem_of_In, in_map_iff in Hin as (cs' & Heq & Hin).
  apply list_elem_of_In, list_elem_of_filter in Hin as [_ Hin].
  apply list_elem_of_In, in_map_iff. exists cs'.
  split; [exact Heq | apply list_elem_of_In, Hin].
Qed.

Lemma endSession_unique (db : Db) (sessionId : string) :
  unique_sessions db -> unique_sessions (endSession db sessionId).1.
Proof. apply filter_sessions_unique. Qed.

Lemma cleanupExpired_unique (db : Db) (now : Z) :
  unique_sessions db -> unique_sessions (cleanupExpired db now).
Proof. apply filter_sessions_unique. Qed.

(** C6.  In a live capture session, a read by the owning identity before
    the expiry that follows [captureData] of a phone number and a code
    resolves with what the read resolved with before, followed by one
    record that carries exactly that phone number and that code. *)
Theorem read_after_capture_returns_original
    (db : Db) (cs : CaptureSessionRow) (phone code : string)
    (iv_phone iv_code : list byte) (now now' : Z) (previous : list Capture) :
  gcm_correct ->
  unique_sessions db ->
  In cs (capture_sessions db) ->
  now' < cs_expires_at cs ->
  getSessionData KEY db (cs_session_id cs) (cs_mo_username cs) now' = Resolved previous ->
  exists db' r,
    captureData KEY db (cs_session_id cs) phone code iv_phone iv_code now
    = (db', Resolved r) /\
    getSessionData KEY db' (cs_session_id cs) (cs_mo_username cs) now'
    = Resolved (previous ++
                [{| id := captured_id r; phoneNumber := phone; safetyCode := code;
                    createdAt := now |}])%list.
Proof.
  intros Hok Huniq Hin Hlive Hprev.
  unfold captureData, insert_captured_data.
  assert (Hex : existsb (fun cs' => String.eqb (cs_session_id cs') (cs_session_id cs))
                  (capture_sessions db) = true).
  { apply existsb_exists. exists cs. split; [exact Hin | apply String.eqb_refl]. }
  rewrite Hex, andb_false_r.
  eexists _, _. split; [reflexivity|].
  unfold getSessionData, select_session_data in *.
  cbn [captured_data capture_sessions captured_id].
  set (cd := {| cd_id := captured_data_seq db + 1; cd_session_id := cs_session_id cs;
                cd_encrypted_phone := encrypt KEY iv_phone phone;
                cd_encrypted_safety_code := encrypt KEY iv_code code;
                cd_created_at := now; cd_status := StatusNew |}).
  pose proof (select_new_row db cd cs (cs_mo_username cs) now'
                Huniq Hin eq_refl eq_refl eq_refl Hlive) as Hrow.
  rewrite flat_map_app.
  match goal with
  | |- context [flat_map ?F [cd]] => replace (flat_map F [cd]) with [cd]
  end.
  2: { cbn [flat_map]. rewrite app_nil_r. symmetry. exact Hrow. }
  destruct (decrypt_rows KEY (flat_map _ (captured_data db))) as [|old] eqn:Hold;
    [discriminate|].
  injection Hprev as ->.
  rewrite (decrypt_rows_app _ _ _ Hold).
  cbn [decrypt_rows cd_encrypted_phone cd_encrypted_safety_code cd_id cd_created_at cd].
  rewrite !(decrypt_encrypt KEY _ _ Hok). reflexivity.
Qed.

(** A row that fails to decrypt, in its phone or in its code, ends the
    whole [rows.map]. *)
Lemma decrypt_rows_unreadable (rows : list CapturedDataRow) (row : CapturedDataRow) :
  In row rows -> unreadable KEY row -> exists e, decrypt_rows KEY rows = inl e.
Proof.
  intros Hin Hbad.
  induction rows as [|r rows IH]; [destruct Hin|].
  cbn [decrypt_rows].
  destruct (decrypt KEY (cd_encrypted_phone r)) as [e|p] eqn:Hp; [eauto|].
  destruct (decrypt KEY (cd_encrypted_safety_code r)) as [e|c] eqn:Hc; [eauto|].
  destruct Hin as [->|Hin].
  - destruct Hbad as [[e He]|[e He]]; congruence.
  - destruct (IH Hin) as [e He]. rewrite He. eauto.
Qed.

(** Whenever the read resolves, each delivered record holds, field by
    field, what [decrypt] returned for the envelopes of the matching
    selected row. *)
Lemma resolved_read_matches_rows
    (db : Db) (sessionId moUsername : string) (now : Z) (delivered : list Capture) :
  getSessionData KEY db sessionId moUsername now = Resolved delivered ->
  Forall2
    (fun row c =>
       decrypt KEY (cd_encrypted_phone row) = inr (phoneNumber c) /\
       decrypt KEY (cd_encrypted_safety_code row) = inr (safetyCode c) /\
       cd_id row = id c)
    (matched_rows db sessionId moUsername now) delivered.
Proof.
  unfold getSessionData, matched_rows.
  destruct (select_session_data db sessionId moUsername now) as [err|rows];
    [discriminate|].
  revert delivered.
  induction rows as [|r rows IH]; intros delivered Hres; cbn [decrypt_rows] in Hres.
  - injection Hres as <-. constructor.
  - destruct (decrypt KEY (cd_encrypted_phone r)) as [e|p] eqn:Hp; [discriminate|].
    destruct (decrypt KEY (cd_encrypted_safety_code r)) as [e|c] eqn:Hc; [discriminate|].
    destruct (decrypt_rows KEY rows) as [e|rest]; [discriminate|].
    injection Hres as <-. constructor; [auto|].
    apply IH. reflexivity.
Qed.

(** C7 (as the code behaves).  A selected row whose stored tag is not a
    prefix of accepted length of the tag sealed with its data, which
    every other tag of the same length is, makes [decrypt] raise.
    [decrypt] runs inside the callback of [db.all], so the exception is
    not turned into a rejection: the promise of [getSessionData] is
    left pending and the caller is never handed an integrity failure.
    GET /current on such a session writes no response at all: its
    [catch] block, which would report the failure, is not run. *)
Theorem tampered_record_leaves_read_pending
    (db : Db) (sessionId moUsername : string) (now : Z)
    (row : CapturedDataRow) (iv tag' : list byte) (text : string) :
  gcm_authentic ->
  In row (matched_rows db sessionId moUsername now) ->
  cd_encrypted_phone row
  = Hex.toString_hex iv +:+ ":" +:+ Hex.toString_hex tag' +:+ ":" +:+
    Hex.toString_hex (fst (gcm_seal KEY iv (list_byte_of_string text))) ->
  tag' <> take (length tag') (snd (gcm_seal KEY iv (list_byte_of_string text))) ->
  decrypt KEY (cd_encrypted_phone row) = inl IntegrityFailure /\
  exists e,
    getSessionData KEY db sessionId moUsername now = Uncaught (DecryptFailure e) /\
    forall (w : World) (req : Req) (s : Session) (mo : MoUser.t),
      database w = db -> clock w = now ->
      session req = Some s ->
      demoSessionId s = Some sessionId ->
      moUser s = Some mo -> MoUser.username mo = moUsername ->
      current_handler KEY w req = (w, req, Pending (DecryptFailure e)).
Proof.
  intros Hauth Hin Henv Htag.
  assert (Hbad : decrypt KEY (cd_encrypted_phone row) = inl IntegrityFailure).
  { rewrite Henv. apply altered_tag_is_rejected; assumption. }
  split; [exact Hbad|].
  assert (Hrows : exists e, decrypt_rows KEY (matched_rows db sessionId moUsername now)
                            = inl e).
  { apply (decrypt_rows_unreadable _ row Hin). left. eauto. }
  destruct Hrows as [e He]. exists e.
  assert (Hread : getSessionData KEY db sessionId moUsername now
                  = Uncaught (DecryptFailure e)).
  { unfold getSessionData, matched_rows in *.
    destruct (select_session_data db sessionId moUsername now) as [err|rows];
      [discriminate|].
    rewrite He. reflexivity. }
  split; [exact Hread|].
  intros w req s mo Hdb Hclock Hs Hcap Hmo Huser.
  unfold current_handler. rewrite Hs. cbn [mbind option_bind].
  rewrite Hcap, Hmo, Hdb, Hclock, Huser, Hread. reflexivity.
Qed.

End Store.

Lemma captureData_without_session_appends_witness :
  exists db',
    captureData (aead := Demo.aead) Demo.KEY init "ghost" "+15551234567" "ABC123"
      Demo.IV1 Demo.IV2 1000
    = (db', Resolved {| captured_id := 1 |}) /\
    captured_data db' =
      [{| cd_id := 1; cd_session_id := "ghost";
          cd_encrypted_phone := encrypt (aead := Demo.aead) Demo.KEY Demo.IV1 "+15551234567";
          cd_encrypted_safety_code := encrypt (aead := Demo.aead) Demo.KEY Demo.IV2 "ABC123";
          cd_created_at := 1000; cd_status := StatusNew |}].
Proof.
  apply (captureData_without_session_appends (aead := Demo.aead) Demo.KEY init "ghost"
           "+15551234567" "ABC123" Demo.IV1 Demo.IV2 1000).
  - reflexivity.
  - intros cs [].
Defined.

(** *** The small cipher is a correct one *)

Lemma demo_bytes_eqb_refl (l : list byte) : Demo.bytes_eqb l l = true.
Proof.
  induction l as [|b l IH]; [reflexivity|].
  cbn [Demo.bytes_eqb]. rewrite IH.
  destruct b; reflexivity.
Qed.

Lemma demo_bytes_eqb_eq (a b : list byte) : Demo.bytes_eqb a b = true -> a = b.
Proof.
  revert b. induction a as [|x a IH]; intros [|y b] Hab; try discriminate; [reflexivity|].
  cbn in Hab. apply andb_prop in Hab as [Hxy Hab].
  apply Byte.byte_dec_bl in Hxy. rewrite Hxy, (IH b Hab). reflexivity.
Qed.

Lemma demo_tag_length (key iv data : list byte) :
  length (Demo.tag_of key iv data) = 16%nat.
Proof.
  unfold Demo.tag_of. rewrite length_take, !length_app, repeat_length. lia.
Qed.

Lemma demo_gcm_truncation : gcm_truncation (aead := Demo.aead).
Proof.
  intros key iv plain n Hn. cbn [gcm_seal gcm_open Demo.aead fst snd].
  assert (Hlen : length (take n (Demo.tag_of key iv (rev plain))) = n).
  { rewrite length_take, demo_tag_length.
    unfold gcm_tag_length_ok in Hn.
    apply orb_prop in Hn as [Hn|Hn]; [apply orb_prop in Hn as [Hn|Hn]|].
    - apply Nat.eqb_eq in Hn. lia.
    - apply Nat.eqb_eq in Hn. lia.
    - apply andb_prop in Hn as [_ Hn]. apply Nat.leb_le in Hn. lia. }
  rewrite Hlen, Hn, demo_bytes_eqb_refl, rev_involutive. reflexivity.
Qed.

Lemma demo_gcm_correct : gcm_correct (aead := Demo.aead).
Proof.
  intros key iv plain.
  pose proof (demo_gcm_truncation key iv plain 16%nat eq_refl) as Hopen.
  cbn [gcm_seal fst snd Demo.aead] in *.
  rewrite firstn_all2 in Hopen by (rewrite demo_tag_length; lia).
  exact Hopen.
Qed.

Lemma demo_gcm_authentic : gcm_authentic (aead := Demo.aead).
Proof.
  intros key iv tag plain. cbn [gcm_seal gcm_open Demo.aead fst snd].
  destruct (gcm_tag_length_ok (length tag)) eqn:Hlen; cbn [andb].
  - destruct (Demo.bytes_eqb tag _) eqn:Htag; [|intros []; discriminate].
    intros _. split; [reflexivity|]. exact (demo_bytes_eqb_eq _ _ Htag).
  - intros []; discriminate.
Qed.

(** The hex text is read without regard to letter case: the envelope of
    the demo record with the tag digits 2a written 2A decrypts to the
    same phone number. *)
Lemma demo_hex_letter_case_ignored :
  decrypt (aead := Demo.aead) Demo.KEY
    "0101:2A07010137363534333231353535312b:37363534333231353535312b"
  = inr "+15551234567".
Proof. reflexivity. Qed.

(** A tag cut to its first four bytes is accepted. *)
Lemma demo_truncated_tag_accepted :
  decrypt (aead := Demo.aead) Demo.KEY "0101:2a070101:37363534333231353535312b"
  = inr "+15551234567".
Proof. reflexivity. Qed.

(** One changed bit in the ninth character of the stored tag, 3 turned
    into s, ends the decoding of the tag after four bytes, and the
    envelope decrypts to the same phone number. *)
Lemma demo_bit_flip_in_tag_accepted :
  ascii_of_N (N.lxor (N_of_ascii "3") 64) = "s"%char /\
  decrypt (aead := Demo.aead) Demo.KEY
    "0101:2a070101s7363534333231353535312b:37363534333231353535312b"
  = inr "+15551234567".
Proof. split; reflexivity. Qed.

(** A data part with one more digit makes [update] raise. *)
Lemma demo_odd_data_part_rejected :
  decrypt (aead := Demo.aead) Demo.KEY
    "0101:2a07010137363534333231353535312b:37363534333231353535312b0"
  = inl IntegrityFailure.
Proof. reflexivity. Qed.

Lemma markAsSent_fresh_nonce_leaves_record_new_witness :
  let captured :=
    {| cd_id := 1; cd_session_id := "sid-0";
       cd_encrypted_phone := encrypt (aead := Demo.aead) Demo.KEY Demo.IV1 "+15551234567";
       cd_encrypted_safety_code := encrypt (aead := Demo.aead) Demo.KEY Demo.IV2 "ABC123";
       cd_created_at := 1000; cd_status := StatusNew |} in
  In captured (captured_data Demo.db_one_capture) /\
  decrypt (aead := Demo.aead) Demo.KEY (cd_encrypted_phone captured) = inr "+15551234567" /\
  In captured
     (captured_data
        (markAsSent (aead := Demo.aead) Demo.KEY Demo.db_one_capture "sid-0" "+15551234567"
           Demo.IV3).1).
Proof.
  apply (markAsSent_fresh_nonce_leaves_record_new (aead := Demo.aead) Demo.KEY
           (createSession init "sid-0" "demo.operator" 1000).1
           "sid-0" "+15551234567" "ABC123" Demo.IV1 Demo.IV2 Demo.IV3 1000).
  - exact demo_gcm_correct.
  - reflexivity.
  - discriminate.
Defined.

Lemma read_after_capture_returns_original_witness :
  exists db' r,
    captureData (aead := Demo.aead) Demo.KEY
      (createSession init "sid-0" "demo.operator" 1000).1
      "sid-0" "+15551234567" "ABC123" Demo.IV1 Demo.IV2 1000
    = (db', Resolved r) /\
    getSessionData (aead := Demo.aead) Demo.KEY db' "sid-0" "demo.operator" 1800999
    = Resolved [{| id := captured_id r; phoneNumber := "+15551234567";
                   safetyCode := "ABC123"; createdAt := 1000 |}].
Proof.
  apply (read_after_capture_returns_original (aead := Demo.aead) Demo.KEY
           (createSession init "sid-0" "demo.operator" 1000).1
           {| cs_id := 1; cs_session_id := "sid-0"; cs_mo_username := "demo.operator";
              cs_created_at := 1000; cs_expires_at := 1801000; cs_status := "active" |}
           "+15551234567" "ABC123" Demo.IV1 Demo.IV2 1000 1800999 []).
  - exact demo_gcm_correct.
  - unfold unique_sessions. cbn. apply NoDup_singleton.
  - left. reflexivity.
  - cbn. lia.
  - reflexivity.
Defined.

Lemma tampered_record_leaves_read_pending_witness :
  decrypt (aead := Demo.aead) Demo.KEY
    "0101:2b07010137363534333231353535312b:37363534333231353535312b"
  = inl IntegrityFailure /\
  exists e,
    getSessionData (aead := Demo.aead) Demo.KEY Demo.db_tampered_tag
      "sid-0" "demo.operator" 2000
    = Uncaught (DecryptFailure e).
Proof.
  destruct (tampered_record_leaves_read_pending (aead := Demo.aead) Demo.KEY
              Demo.db_tampered_tag "sid-0" "demo.operator" 2000
              {| cd_id := 1; cd_session_id := "sid-0";
                 cd_encrypted_phone :=
                   "0101:2b07010137363534333231353535312b:37363534333231353535312b";
                 cd_encrypted_safety_code :=
                   "0202:2a070202333231434241000000000000:333231434241";
                 cd_created_at := 1000; cd_status := StatusNew |}
              Demo.IV1
              [x2b; x07; x01; x01; x37; x36; x35; x34; x33; x32; x31; x35; x35; x35;
               x31; x2b]
              "+15551234567" demo_gcm_authentic)
    as (Hbad & e & Hread & _).
  - left. reflexivity.
  - reflexivity.
  - discriminate.
  - split; [exact Hbad|]. exists e. exact Hread.
Defined.

(** ** The guard *)

Section Guard.
Context {aead : Aead} {hasher : Bcrypt} {supply : SessionIds}.
Variable KEY : list byte.

(** *** The store's view of its rows *)

Lemma sessionStore_lookup (w : World) (sid : string) :
  sessionStore w !! sid = storeRows w !! sid ≫= returned (clock w).
Proof. apply lookup_omap. Qed.

Lemma sessionStore_is_row (w : World) (sid : string) :
  is_Some (sessionStore w !! sid) -> is_Some (storeRows w !! sid).
Proof.
  rewrite sessionStore_lookup.
  destruct (storeRows w !! sid); [eauto | intros [? [=]]].
Qed.

Lemma sessionStore_same (w w' : World) :
  storeRows w' = storeRows w -> clock w' = clock w -> sessionStore w' = sessionStore w.
Proof. unfold sessionStore. intros -> ->. reflexivity. Qed.

Lemma sessionStore_delete (w : World) (sid : string) :
  sessionStore (with_rows w (delete sid (storeRows w))) = delete sid (sessionStore w).
Proof. unfold sessionStore. cbn. apply omap_delete. Qed.

Lemma returned_fresh (now : Z) (s : Session) :
  returned now {| row_expired := now + MAX_AGE; row_sess := s |} = Some s.
Proof.
  unfold returned, MAX_AGE. cbn [row_expired row_sess].
  destruct (Z.leb_spec now (now + 30 * 60 * 1000)); [reflexivity | lia].
Qed.

Lemma sessionStore_insert (w : World) (sid : string) (s : Session) :
  sessionStore
    (with_rows w (<[sid := {| row_expired := clock w + MAX_AGE; row_sess := s |}]>
                    (storeRows w)))
  = <[sid := s]> (sessionStore w).
Proof.
  unfold sessionStore. cbn [clock storeRows with_rows].
  apply omap_insert_Some, returned_fresh.
Qed.


Lemma sessionStore_rows_insert (w w1 : World) (sid : string) (s : Session) :
  storeRows w1 = <[sid := {| row_expired := clock w + MAX_AGE; row_sess := s |}]>
                   (storeRows w) ->
  clock w1 = clock w ->
  sessionStore w1 = <[sid := s]> (sessionStore w).
Proof.
  unfold sessionStore. intros -> ->. apply omap_insert_Some, returned_fresh.
Qed.

Lemma sessionStore_fresh_row (w : World) (k : string) (s : Session)
    (rows : gmap string StoreRow) :
  storeRows w = <[k := {| row_expired := clock w + MAX_AGE; row_sess := s |}]> rows ->
  sessionStore w !! k = Some s.
Proof.
  intros Hrows. rewrite sessionStore_lookup, Hrows, lookup_insert_eq. cbn.
  apply returned_fresh.
Qed.

(** As time passes the store returns no session it did not return
    before. *)
Lemma sessionStore_later (w : World) (t : Z) (sid : string) :
  clock w <= t ->
  sessionStore w !! sid = None -> sessionStore (with_clock w t) !! sid = None.
Proof.
  intros Hle. rewrite !sessionStore_lookup. cbn [storeRows clock with_clock].
  destruct (storeRows w !! sid) as [row|]; [|reflexivity]. cbn.
  unfold returned.
  destruct (Z.leb_spec (clock w) (row_expired row)); [discriminate|].
  destruct (Z.leb_spec t (row_expired row)); [lia | reflexivity].
Qed.

Lemma sessionStore_earlier (w : World) (t : Z) (sid : string) (s : Session) :
  clock w <= t ->
  sessionStore (with_clock w t) !! sid = Some s -> sessionStore w !! sid = Some s.
Proof.
  intros Hle. rewrite !sessionStore_lookup. cbn [storeRows clock with_clock].
  destruct (storeRows w !! sid) as [row|]; [|discriminate]. cbn.
  unfold returned.
  destruct (Z.leb_spec t (row_expired row)); [|discriminate].
  destruct (Z.leb_spec (clock w) (row_expired row)); [auto | lia].
Qed.

Lemma idle_expired_unset (s : Session) (now : Z) :
  truthy_number (lastActivity s) = false -> idle_expired s now = false.
Proof.
  unfold idle_expired. destruct (lastActivity s) as [t|]; [|reflexivity].
  intros ->. reflexivity.
Qed.

Lemma idle_expired_iff (s : Session) (now : Z) :
  idle_expired s now = true <->
  exists t, lastActivity s = Some t /\ t <> 0 /\ now - t > MAX_IDLE.
Proof.
  unfold idle_expired, truthy_number. split.
  - destruct (lastActivity s) as [t|]; [|discriminate].
    intros Hexp. apply andb_prop in Hexp as [Hset Hidle].
    exists t. split; [reflexivity|]. split.
    + apply negb_true_iff, Z.eqb_neq in Hset. exact Hset.
    + apply Z.gtb_lt in Hidle. lia.
  - intros (t & -> & Hset & Hidle).
    apply andb_true_intro. split.
    + apply negb_true_iff, Z.eqb_neq. exact Hset.
    + apply Z.gtb_lt. lia.
Qed.

(** What the guard does to a session that is not idle-expired. *)
Lemma requireAuth_live (w : World) (sid : string) (s : Session) (mo : MoUser.t) :
  moUser s = Some mo ->
  idle_expired s (clock w) = false ->
  requireAuth w {| sessionID := sid; session := Some s |} =
    if rotation_due s (clock w) then
      ({| clock := clock w; storeRows := delete sid (storeRows w);
          uid_next := S (uid_next w);
          activeSessions := activeSessions w; database := database w |},
       {| sessionID := uid (uid_next w);
          session := Some {| moUser := Some mo; demoSessionId := demoSessionId s;
                             lastActivity := Some (clock w);
                             lastRegenerated := Some (clock w) |} |},
       Next)
    else
      (w,
       {| sessionID := sid;
          session := Some {| moUser := Some mo; demoSessionId := demoSessionId s;
                             lastActivity := Some (clock w);
                             lastRegenerated := lastRegenerated s |} |},
       Next).
Proof.
  intros Hmo Hidle. unfold requireAuth. cbn [session sessionID].
  rewrite Hmo, Hidle.
  unfold rotation_due at 1. cbn [lastRegenerated].
  fold (rotation_due s (clock w)).
  destruct (rotation_due s (clock w)); [|reflexivity].
  cbn. destruct (demoSessionId s); reflexivity.
Qed.

(** What the guard does to an idle-expired session. *)
Lemma requireAuth_expired (w : World) (sid : string) (s : Session) :
  is_Some (moUser s) ->
  idle_expired s (clock w) = true ->
  requireAuth w {| sessionID := sid; session := Some s |} =
    (with_rows w (delete sid (storeRows w)),
     {| sessionID := sid; session := None |},
     Respond SESSION_EXPIRED).
Proof.
  intros [mo Hmo] Hidle. unfold requireAuth. cbn [session sessionID].
  rewrite Hmo, Hidle. reflexivity.
Qed.

(** C10.  On a request whose session carries [moUser] but whose
    [lastActivity] is unset, the guard calls [next()] whatever the clock
    reads, with [lastActivity] set to the current time.  It answers
    SESSION_EXPIRED exactly when [moUser] is present, [lastActivity] is
    set and the current time exceeds it by more than thirty minutes. *)
Theorem guard_skips_idle_check_when_unset (w : World) (req : Req) :
  (forall s mo,
     session req = Some s -> moUser s = Some mo ->
     truthy_number (lastActivity s) = false ->
     exists w' req' s',
       requireAuth w req = (w', req', Next) /\
       session req' = Some s' /\
       moUser s' = Some mo /\
       lastActivity s' = Some (clock w)) /\
  ((requireAuth w req).2 = Respond SESSION_EXPIRED <->
   exists s mo t,
     session req = Some s /\ moUser s = Some mo /\
     lastActivity s = Some t /\ t <> 0 /\ clock w - t > MAX_IDLE).
Proof.
  destruct req as [sid [s|]]; cbn [session].
  2: { split; [intros s mo [=] | split; [discriminate | intros (s & _ & _ & [=] & _)]]. }
  split.
  - intros s0 mo [= <-] Hmo Hunset.
    rewrite (requireAuth_live w sid s mo Hmo (idle_expired_unset _ _ Hunset)).
    destruct (rotation_due s (clock w)); eexists _, _, _; repeat split.
  - destruct (moUser s) as [mo|] eqn:Hmo.
    + destruct (idle_expired s (clock w)) eqn:Hidle.
      * rewrite (requireAuth_expired w sid s (mk_is_Some _ _ Hmo) Hidle).
        split; [intros _ | reflexivity].
        apply idle_expired_iff in Hidle as (t & Ht & Hset & Hlate).
        exists s, mo, t. repeat split; assumption.
      * rewrite (requireAuth_live w sid s mo Hmo Hidle).
        split.
        -- destruct (rotation_due s (clock w)); discriminate.
        -- intros (s0 & mo0 & t & [= <-] & _ & Ht & Hset & Hlate).
           assert (idle_expired s (clock w) = true) as Hexp
             by (apply idle_expired_iff; eauto).
           congruence.
    + unfold requireAuth. cbn [session]. rewrite Hmo.
      split; [discriminate | intros (s0 & mo0 & _ & [= <-] & Hmo0 & _); congruence].
Qed.


(** *** Identifiers that were given up stay unused *)

Hypothesis uid_inj : Inj (=) (=) uid.

Lemma issued_mono (w w' : World) (sid : string) :
  (uid_next w <= uid_next w')%nat -> issued w sid -> issued w' sid.
Proof. intros Hle (k & Hk & ->). exists k. split; [lia | reflexivity]. Qed.

Lemma issued_fresh (w : World) (sid : string) :
  issued w sid -> uid (uid_next w) <> sid.
Proof.
  intros (k & Hk & ->) Heq. apply uid_inj in Heq. lia.
Qed.

Lemma clear_generate (w : World) (sid : string) :
  retired w sid -> clear_of sid (generate w).1 (generate w).2.
Proof.
  intros [Hissued Hgone]. unfold generate, clear_of, retired. cbn.
  split; [split|].
  - apply (issued_mono w); [cbn; lia | exact Hissued].
  - exact Hgone.
  - intros _. apply issued_fresh, Hissued.
Qed.

Lemma clear_load (w : World) (sid : string) (cookie : option string) :
  retired w sid -> clear_of sid (load w cookie).1 (load w cookie).2.
Proof.
  intros Hret. unfold load.
  destruct cookie as [sid'|]; [|apply clear_generate, Hret].
  destruct (sessionStore w !! sid') as [s|] eqn:Hs; [|apply clear_generate, Hret].
  split; [exact Hret|]. cbn. intros _ ->.
  destruct Hret as [_ Hgone]. congruence.
Qed.

Lemma clear_destroy (w : World) (req : Req) (sid : string) :
  retired w sid ->
  clear_of sid (session_destroy w req).1.1 (session_destroy w req).1.2.
Proof.
  intros [Hissued Hgone]. unfold session_destroy, clear_of, retired. cbn.
  split; [split|].
  - exact Hissued.
  - rewrite sessionStore_delete.
    destruct (decide (sessionID req = sid)) as [->|Hne].
    + apply lookup_delete_eq.
    + rewrite lookup_delete_ne by exact Hne. exact Hgone.
  - intros [? [=]].
Qed.

Lemma clear_regenerate (w : World) (req : Req) (sid : string) :
  retired w sid ->
  clear_of sid (session_regenerate w req).1.1 (session_regenerate w req).1.2.
Proof.
  intros Hret. unfold session_regenerate.
  pose proof (clear_destroy w req sid Hret) as [Hret1 _].
  apply (clear_generate _ sid) in Hret1.
  exact Hret1.
Qed.

Lemma clear_requireAuth (w : World) (req : Req) (sid : string) :
  clear_of sid w req ->
  clear_of sid (requireAuth w req).1.1 (requireAuth w req).1.2.
Proof.
  destruct req as [rid [s|]]; intros [Hret Hreq]; unfold requireAuth; cbn [session sessionID].
  2: { split; [exact Hret | intros [? [=]]]. }
  destruct (moUser s) as [mo|]; [|split; [exact Hret | exact Hreq]].
  destruct (idle_expired s (clock w)).
  - apply (clear_destroy w _ sid Hret).
  - destruct (rotation_due _ (clock w)).
    + pose proof (clear_regenerate w {| sessionID := rid; session := Some s |} sid Hret)
        as [Hret' Hreq'].
      split; [exact Hret' | intros _; apply Hreq'; cbn; eauto].
    + split; [exact Hret|]. cbn. intros _. apply Hreq. eauto.
Qed.


Lemma clear_save (w : World) (req : Req) (sid : string) :
  clear_of sid w req -> retired (save w req) sid.
Proof.
  intros [[Hissued Hgone] Hreq]. unfold save.
  destruct (session req) as [s|]; [|split; assumption].
  destruct (uninitialized s); [split; assumption|].
  split; [exact Hissued|]. rewrite sessionStore_insert.
  rewrite lookup_insert_ne by (apply Hreq; eauto). exact Hgone.
Qed.

Lemma clear_finish (w : World) (req : Req) (r : Response) (sid : string) :
  clear_of sid w req -> retired (finish w req r) sid.
Proof.
  intros Hclear. destruct r; try (apply clear_save, Hclear). exact (proj1 Hclear).
Qed.

(** The world's session store and identifier supply are all that
    [retired] looks at. *)
Lemma retired_same_sessions (w w' : World) (sid : string) :
  sessionStore w' = sessionStore w -> uid_next w' = uid_next w ->
  retired w sid -> retired w' sid.
Proof.
  intros Hstore Hnext [(k & Hk & ->) Hgone].
  split; [exists k; split; [lia | reflexivity] | congruence].
Qed.

Lemma session_regenerate_eq (w : World) (req : Req) :
  session_regenerate w req =
    ({| clock := clock w; storeRows := delete (sessionID req) (storeRows w);
        uid_next := S (uid_next w);
        activeSessions := activeSessions w; database := database w |},
     {| sessionID := uid (uid_next w); session := Some empty_session |},
     None).
Proof. reflexivity. Qed.

Lemma clear_login_handler (w : World) (req : Req) (sid username password : string) :
  clear_of sid w req ->
  clear_of sid (login_handler w req username password).1.1
               (login_handler w req username password).1.2.
Proof.
  intros [Hret Hreq]. unfold login_handler.
  destruct (validateMOCredentials username password).2 as [user|];
    [|split; assumption].
  pose proof (clear_regenerate w req sid Hret) as [Hret1 Hreq1].
  rewrite session_regenerate_eq in *. cbn [fst snd sessionID session] in *.
  match goal with
  | |- context [createSession ?d ?i ?u ?t] =>
      destruct (createSession d i u t) as [db' [created|e|e]]
  end; cbn [fst snd].
  - split.
    + eapply retired_same_sessions; [| |exact Hret1]; reflexivity.
    + cbn. intros _. apply Hreq1. eauto.
  - split.
    + eapply retired_same_sessions; [| |exact Hret1]; reflexivity.
    + cbn. intros _. apply Hreq1. eauto.
  - split.
    + eapply retired_same_sessions; [| |exact Hret1]; reflexivity.
    + cbn. intros _. apply Hreq1. eauto.
Qed.

Lemma clear_logout_handler (w : World) (req : Req) (sid : string) :
  clear_of sid w req ->
  clear_of sid (logout_handler w req).1.1 (logout_handler w req).1.2.
Proof.
  intros [Hret Hreq]. unfold logout_handler.
  match goal with
  | |- context [let '(db', ended) := ?x in _] => destruct x as [db' [done|e|e]]
  end.
  - match goal with
    | |- context [session_destroy ?w2 req] =>
        apply (clear_destroy w2 req sid);
        eapply retired_same_sessions; [| |exact Hret]; reflexivity
    end.
  - split; [|exact Hreq].
    eapply retired_same_sessions; [| |exact Hret]; reflexivity.
  - split; [|exact Hreq].
    eapply retired_same_sessions; [| |exact Hret]; reflexivity.
Qed.

Lemma clear_status_handler (w : World) (req : Req) (sid : string) :
  clear_of sid w req ->
  clear_of sid (status_handler w req).1.1 (status_handler w req).1.2.
Proof.
  intros Hclear. unfold status_handler.
  destruct (session req ≫= moUser); exact Hclear.
Qed.

Lemma clear_capture_handler (valid : bool) (phone code : string) (iv1 iv2 : list byte)
    (w : World) (req : Req) (sid : string) :
  clear_of sid w req ->
  clear_of sid (capture_handler KEY valid phone code iv1 iv2 w req).1.1
               (capture_handler KEY valid phone code iv1 iv2 w req).1.2.
Proof.
  intros [Hret Hreq]. unfold capture_handler.
  destruct valid; cbn [negb]; [|split; assumption].
  destruct (session req ≫= demoSessionId) as [sessionId|]; [|split; assumption].
  destruct (session req ≫= moUser) as [mo|]; [|split; assumption].
  destruct (captureData KEY (database w) sessionId phone code iv1 iv2 (clock w))
    as [db' [r|e|e]];
    (split; [eapply retired_same_sessions; [| |exact Hret]; reflexivity | exact Hreq]).
Qed.

Lemma clear_current_handler (w : World) (req : Req) (sid : string) :
  clear_of sid w req ->
  clear_of sid (current_handler KEY w req).1.1 (current_handler KEY w req).1.2.
Proof.
  intros Hclear. unfold current_handler.
  destruct (session req ≫= demoSessionId) as [sessionId|]; [|exact Hclear].
  destruct (session req ≫= moUser) as [mo|]; [|exact Hclear].
  destruct (getSessionData KEY (database w) sessionId (MoUser.username mo) (clock w));
    exact Hclear.
Qed.

Lemma retired_guarded (handler : World -> Req -> World * Req * Response)
    (w : World) (cookie : option string) (sid : string) :
  (forall w0 req0, clear_of sid w0 req0 ->
                   clear_of sid (handler w0 req0).1.1 (handler w0 req0).1.2) ->
  retired w sid ->
  retired (guarded handler w cookie).1.1 sid.
Proof.
  intros Hhandler Hret. unfold guarded.
  pose proof (clear_load w sid cookie Hret) as Hload.
  destruct (load w cookie) as [w0 req0]. cbn [fst snd] in Hload.
  pose proof (clear_requireAuth w0 req0 sid Hload) as Hguard.
  destruct (requireAuth w0 req0) as [[w1 req1] [|e|r]]; cbn [fst snd] in *.
  - pose proof (Hhandler w1 req1 Hguard) as Hdone.
    destruct (handler w1 req1) as [[w2 req2] r]. cbn [fst snd] in *.
    apply clear_finish, Hdone.
  - apply clear_save, Hguard.
  - apply clear_save, Hguard.
Qed.

Lemma retired_handle (w : World) (ev : Event) (sid : string) :
  retired w sid -> retired (handle KEY w ev) sid.
Proof.
  intros Hret. unfold handle, serve.
  destruct ev as [cookie username password|cookie|cookie|cookie valid phone code iv1 iv2
                 |cookie|cookie| |elapsed].
  - unfold login.
    pose proof (clear_load w sid cookie Hret) as Hload.
    destruct (load w cookie) as [w0 req0]. cbn [fst snd] in Hload.
    pose proof (clear_login_handler w0 req0 sid username password Hload) as Hdone.
    destruct (login_handler w0 req0 username password) as [[w1 req1] r].
    cbn [fst snd] in *. apply clear_finish, Hdone.
  - pose proof (retired_guarded logout_handler w cookie sid
                  (fun w0 req0 => clear_logout_handler w0 req0 sid) Hret) as Hdone.
    unfold logout. destruct (guarded logout_handler w cookie) as [[w' req'] r].
    exact Hdone.
  - pose proof (retired_guarded status_handler w cookie sid
                  (fun w0 req0 => clear_status_handler w0 req0 sid) Hret) as Hdone.
    unfold status. destruct (guarded status_handler w cookie) as [[w' req'] r].
    exact Hdone.
  - pose proof (retired_guarded (capture_handler KEY valid phone code iv1 iv2) w cookie sid
                  (fun w0 req0 => clear_capture_handler valid phone code iv1 iv2 w0 req0 sid)
                  Hret) as Hdone.
    destruct (guarded _ w cookie) as [[w' req'] r]. exact Hdone.
  - pose proof (retired_guarded (current_handler KEY) w cookie sid
                  (fun w0 req0 => clear_current_handler w0 req0 sid) Hret) as Hdone.
    destruct (guarded _ w cookie) as [[w' req'] r]. exact Hdone.
  - unfold health.
    pose proof (clear_load w sid cookie Hret) as Hload.
    destruct (load w cookie) as [w0 req0]. cbn [fst snd] in *.
    apply clear_save, Hload.
  - eapply retired_same_sessions; [| |exact Hret]; reflexivity.
  - destruct Hret as [Hissued Hgone]. split; [exact Hissued|].
    cbn [fst]. apply sessionStore_later; [lia | exact Hgone].
Qed.

Lemma retired_run (w : World) (evs : list Event) (sid : string) :
  retired w sid -> retired (run KEY w evs) sid.
Proof.
  revert w. induction evs as [|ev evs IH]; intros w Hret; [exact Hret|].
  cbn [run foldl]. apply IH, retired_handle, Hret.
Qed.

(** A guarded request that presents an identifier of no session is
    refused with AUTH_REQUIRED, and leaves the world's sessions alone. *)
Lemma guarded_unknown_cookie (handler : World -> Req -> World * Req * Response)
    (w : World) (sid : string) :
  sessionStore w !! sid = None ->
  (guarded handler w (Some sid)).2 = AUTH_REQUIRED.
Proof.
  intros Hgone. unfold guarded, load. rewrite Hgone. reflexivity.
Qed.

Lemma serve_unknown_cookie (w : World) (ev : Event) (sid : string) :
  sessionStore w !! sid = None ->
  guarded_with (Some sid) ev ->
  (serve KEY w ev).2 = Some AUTH_REQUIRED.
Proof.
  intros Hgone Hev. unfold serve.
  destruct ev as [cookie username password|cookie|cookie|cookie valid phone code iv1 iv2
                 |cookie|cookie| |elapsed]; cbn in Hev; try contradiction; subst cookie.
  - pose proof (guarded_unknown_cookie logout_handler w sid Hgone) as Hresp.
    unfold logout. destruct (guarded logout_handler w (Some sid)) as [[w' req'] r].
    cbn in *. congruence.
  - pose proof (guarded_unknown_cookie status_handler w sid Hgone) as Hresp.
    unfold status. destruct (guarded status_handler w (Some sid)) as [[w' req'] r].
    cbn in *. congruence.
  - pose proof (guarded_unknown_cookie (capture_handler KEY valid phone code iv1 iv2)
                  w sid Hgone) as Hresp.
    destruct (guarded _ w (Some sid)) as [[w' req'] r]. cbn in *. congruence.
  - pose proof (guarded_unknown_cookie (current_handler KEY) w sid Hgone) as Hresp.
    destruct (guarded _ w (Some sid)) as [[w' req'] r]. cbn in *. congruence.
Qed.


(** *** Guarded requests, route by route *)

Lemma serve_route (w : World) (ev : Event) (cookie : option string)
    (handler : World -> Req -> World * Req * Response) :
  route KEY ev = Some (cookie, handler) ->
  serve KEY w ev = ((guarded handler w cookie).1.1, Some (guarded handler w cookie).2).
Proof.
  destruct ev; intros [= <- <-]; unfold serve, logout, status;
    match goal with
    | |- context [guarded ?h w ?c] => destruct (guarded h w c) as [[w' req'] r]
    end; reflexivity.
Qed.

Lemma guarded_with_route (ev : Event) (cookie : option string) :
  guarded_with cookie ev -> exists handler, route KEY ev = Some (cookie, handler).
Proof.
  destruct ev; cbn; intros Hev; try contradiction; subst; eauto.
Qed.



(** A guarded request on an idle-expired session: the session is
    destroyed, the handler is not run, nothing else changes. *)
Lemma guarded_expired (handler : World -> Req -> World * Req * Response)
    (w : World) (sid : string) (s : Session) :
  sessionStore w !! sid = Some s ->
  is_Some (moUser s) ->
  idle_expired s (clock w) = true ->
  guarded handler w (Some sid) =
    (with_rows w (delete sid (storeRows w)),
     {| sessionID := sid; session := None |},
     SESSION_EXPIRED).
Proof.
  intros Hs Hmo Hidle. unfold guarded, load. rewrite Hs.
  rewrite (requireAuth_expired w sid s Hmo Hidle). reflexivity.
Qed.

Lemma serve_expired (w : World) (sid : string) (s : Session) (ev : Event) :
  sessionStore w !! sid = Some s ->
  is_Some (moUser s) ->
  idle_expired s (clock w) = true ->
  guarded_with (Some sid) ev ->
  serve KEY w ev = (with_rows w (delete sid (storeRows w)), Some SESSION_EXPIRED).
Proof.
  intros Hs Hmo Hidle Hev.
  destruct (guarded_with_route ev _ Hev) as [handler Hroute].
  rewrite (serve_route w ev _ _ Hroute).
  rewrite (guarded_expired handler w sid s Hs Hmo Hidle). reflexivity.
Qed.

(** C2 (as the code behaves).  A guarded request on a session that has
    been idle for more than thirty minutes is answered SESSION_EXPIRED
    with the database exactly as it was: the captured records and the
    capture session of the expired session are all still stored. *)
Theorem idle_expiry_leaves_capture_store
    (w : World) (sid : string) (s : Session) (t : Z) (ev : Event) :
  sessionStore w !! sid = Some s ->
  is_Some (moUser s) ->
  lastActivity s = Some t -> t <> 0 -> clock w - t > MAX_IDLE ->
  guarded_with (Some sid) ev ->
  (serve KEY w ev).2 = Some SESSION_EXPIRED /\
  database (serve KEY w ev).1 = database w.
Proof.
  intros Hs Hmo Ht Hset Hlate Hev.
  assert (Hidle : idle_expired s (clock w) = true)
    by (apply idle_expired_iff; eauto).
  rewrite (serve_expired w sid s ev Hs Hmo Hidle Hev). split; reflexivity.
Qed.

(** C4 (amended).  A session whose [lastActivity] is more than thirty
    minutes old is refused on the next guarded request, and from then
    on, whatever else happens to the server, every guarded request that
    presents the same identifier is refused.  The first refusal is
    SESSION_EXPIRED only when the store still returns the session, its
    expiry having been renewed after [lastActivity] was set; when the
    expiry dates from that request or an earlier one, as it does when
    no request to an unguarded route came in between, the store does
    not return the session any more and the answer is AUTH_REQUIRED. *)
Theorem idle_session_expires_for_good
    (w : World) (sid : string) (row : StoreRow) (t : Z) (ev : Event) :
  supplied w ->
  storeRows w !! sid = Some row ->
  is_Some (moUser (row_sess row)) ->
  lastActivity (row_sess row) = Some t -> t <> 0 -> clock w - t > MAX_IDLE ->
  guarded_with (Some sid) ev ->
  (serve KEY w ev).2
  = Some (if clock w <=? row_expired row then SESSION_EXPIRED else AUTH_REQUIRED) /\
  (row_expired row <= t + MAX_AGE -> (serve KEY w ev).2 = Some AUTH_REQUIRED) /\
  forall evs ev',
    guarded_with (Some sid) ev' ->
    (serve KEY (run KEY (handle KEY w ev) evs) ev').2 = Some AUTH_REQUIRED.
Proof.
  intros [Hstore _] Hrow Hmo Ht Hset Hlate Hev.
  assert (Hissued : issued w sid) by (apply Hstore; rewrite Hrow; eauto).
  assert (Hget : sessionStore w !! sid
                 = if clock w <=? row_expired row then Some (row_sess row) else None).
  { rewrite sessionStore_lookup, Hrow. reflexivity. }
  assert (Hboth :
            (serve KEY w ev).2
            = Some (if clock w <=? row_expired row then SESSION_EXPIRED
                    else AUTH_REQUIRED) /\
            retired (handle KEY w ev) sid).
  { destruct (clock w <=? row_expired row).
    - assert (Hidle : idle_expired (row_sess row) (clock w) = true)
        by (apply idle_expired_iff; eauto).
      unfold handle.
      rewrite (serve_expired w sid (row_sess row) ev Hget Hmo Hidle Hev).
      split; [reflexivity|]. split; [exact Hissued|]. cbn [fst].
      rewrite sessionStore_delete. apply lookup_delete_eq.
    - split; [exact (serve_unknown_cookie w ev sid Hget Hev)|].
      apply retired_handle. split; assumption. }
  destruct Hboth as [Hresp Hret]. split; [exact Hresp|]. split.
  - intros Hold. rewrite Hresp.
    destruct (Z.leb_spec (clock w) (row_expired row)) as [Hlive|_]; [|reflexivity].
    unfold MAX_IDLE, MAX_AGE in *. lia.
  - intros evs ev' Hev'.
    apply (serve_unknown_cookie _ _ sid); [|exact Hev'].
    exact (proj2 (retired_run _ evs sid Hret)).
Qed.





(** *** Every identifier in use was handed out by the supply *)

Lemma supplied_update (w w' : World) :
  (uid_next w <= uid_next w')%nat ->
  (forall sid, is_Some (storeRows w' !! sid) ->
               is_Some (storeRows w !! sid) \/ issued w' sid) ->
  (forall cs, In cs (capture_sessions (database w')) ->
              In cs (capture_sessions (database w)) \/ issued w' (cs_session_id cs)) ->
  supplied w -> supplied w'.
Proof.
  intros Hle Hstore Hdb [Hs Hc]. split.
  - intros sid Hsid. destruct (Hstore sid Hsid) as [Hold|Hnew]; [|exact Hnew].
    apply (issued_mono w); [exact Hle | apply Hs, Hold].
  - intros cs Hcs. destruct (Hdb cs Hcs) as [Hold|Hnew]; [|exact Hnew].
    apply (issued_mono w); [exact Hle | apply Hc, Hold].
Qed.

Lemma handling_generate (w : World) :
  supplied w -> handling (generate w).1 (generate w).2.
Proof.
  intros Hsup. unfold generate. cbn [fst snd]. split.
  - apply (supplied_update w); cbn; [lia | auto | auto | exact Hsup].
  - intros _. exists (uid_next w). cbn. split; [lia | reflexivity].
Qed.

Lemma handling_load (w : World) (cookie : option string) :
  supplied w -> handling (load w cookie).1 (load w cookie).2.
Proof.
  intros Hsup. unfold load.
  destruct cookie as [sid|]; [|apply handling_generate, Hsup].
  destruct (sessionStore w !! sid) as [s|] eqn:Hs; [|apply handling_generate, Hsup].
  split; [exact Hsup|]. cbn. intros _. apply Hsup.
  apply sessionStore_is_row. rewrite Hs. eauto.
Qed.

Lemma supplied_destroy (w : World) (req : Req) :
  supplied w -> supplied (session_destroy w req).1.1.
Proof.
  intros Hsup. unfold session_destroy. cbn [fst].
  apply (supplied_update w); cbn; [lia | | auto | exact Hsup].
  intros sid Hsid. left.
  destruct (decide (sessionID req = sid)) as [Heq|Hne].
  - rewrite Heq, lookup_delete_eq in Hsid. destruct Hsid as [? [=]].
  - rewrite lookup_delete_ne in Hsid by exact Hne. exact Hsid.
Qed.

Lemma handling_regenerate (w : World) (req : Req) :
  supplied w ->
  handling (session_regenerate w req).1.1 (session_regenerate w req).1.2.
Proof.
  intros Hsup.
  pose proof (handling_generate _ (supplied_destroy w req Hsup)) as Hgen.
  exact Hgen.
Qed.

Lemma handling_requireAuth (w : World) (req : Req) :
  handling w req -> handling (requireAuth w req).1.1 (requireAuth w req).1.2.
Proof.
  destruct req as [rid [s|]]; intros [Hsup Hreq]; unfold requireAuth;
    cbn [session sessionID].
  2: { split; [exact Hsup | intros [? [=]]]. }
  destruct (moUser s) as [mo|]; [|split; [exact Hsup | exact Hreq]].
  destruct (idle_expired s (clock w)).
  - split; [apply (supplied_destroy w {| sessionID := rid; session := Some s |} Hsup)|].
    intros [? [=]].
  - destruct (rotation_due _ (clock w)).
    + pose proof (handling_regenerate w {| sessionID := rid; session := Some s |} Hsup)
        as [Hsup' Hreq'].
      split; [exact Hsup' | intros _; apply Hreq'; cbn; eauto].
    + split; [exact Hsup | intros _; apply Hreq; cbn; eauto].
Qed.

Lemma supplied_save (w : World) (req : Req) :
  handling w req -> supplied (save w req).
Proof.
  intros [Hsup Hreq]. unfold save.
  destruct (session req) as [s|]; [|exact Hsup].
  destruct (uninitialized s); [exact Hsup|].
  apply (supplied_update w); cbn; [lia | | auto | exact Hsup].
  intros sid Hsid.
  destruct (decide (sessionID req = sid)) as [<-|Hne].
  - right. apply Hreq. eauto.
  - left. rewrite lookup_insert_ne in Hsid by exact Hne. exact Hsid.
Qed.

Lemma supplied_finish (w : World) (req : Req) (r : Response) :
  handling w req -> supplied (finish w req r).
Proof.
  intros Hh. destruct r; try (apply supplied_save, Hh). exact (proj1 Hh).
Qed.

(** A change of the database that adds no capture session keeps the
    server well supplied. *)
Lemma handling_with_database (w : World) (req : Req) (db' : Db) :
  (forall cs, In cs (capture_sessions db') -> In cs (capture_sessions (database w))) ->
  handling w req -> handling (with_database w db') req.
Proof.
  intros Hsub [Hsup Hreq]. split; [|exact Hreq].
  apply (supplied_update w); cbn; [lia | auto | auto | exact Hsup].
Qed.

Lemma createSession_sessions (db : Db) (sessionId moUsername : string) (now : Z)
    (cs : CaptureSessionRow) :
  In cs (capture_sessions (createSession db sessionId moUsername now).1) ->
  In cs (capture_sessions db) \/ cs_session_id cs = sessionId.
Proof.
  unfold createSession, insert_capture_session.
  destruct (existsb _ (capture_sessions db)); cbn; [auto|].
  intros Hin. apply in_app_or in Hin as [Hold|[<-|[]]]; auto.
Qed.

Lemma captureData_sessions (db : Db) (sessionId phone code : string)
    (iv1 iv2 : list byte) (now : Z) :
  capture_sessions (captureData KEY db sessionId phone code iv1 iv2 now).1
  = capture_sessions db.
Proof.
  unfold captureData, insert_captured_data.
  destruct (foreign_keys db && _); reflexivity.
Qed.

Lemma endSession_sessions (db : Db) (sessionId : string) (cs : CaptureSessionRow) :
  In cs (capture_sessions (endSession db sessionId).1) ->
  In cs (capture_sessions db) /\ cs_session_id cs <> sessionId.
Proof.
  unfold endSession, delete_captured_data, delete_capture_session. cbn.
  intros Hin. apply list_elem_of_In, list_elem_of_filter in Hin as [Hne Hin].
  split; [apply list_elem_of_In, Hin | apply String.eqb_neq, Hne].
Qed.

Lemma endSession_data (db : Db) (sessionId : string) (cd : CapturedDataRow) :
  In cd (captured_data (endSession db sessionId).1) ->
  In cd (captured_data db) /\ cd_session_id cd <> sessionId.
Proof.
  unfold endSession, delete_captured_data, delete_capture_session. cbn.
  intros Hin. apply list_elem_of_In, list_elem_of_filter in Hin as [Hne Hin].
  split; [apply list_elem_of_In, Hin | apply String.eqb_neq, Hne].
Qed.

Lemma handling_login_handler (w : World) (req : Req) (username password : string) :
  handling w req ->
  handling (login_handler w req username password).1.1
           (login_handler w req username password).1.2.
Proof.
  intros [Hsup Hreq]. unfold login_handler.
  destruct (validateMOCredentials username password).2 as [user|];
    [|split; assumption].
  pose proof (handling_regenerate w req Hsup) as [Hsup1 Hreq1].
  rewrite session_regenerate_eq in *. cbn [fst snd sessionID session] in *.
  match goal with
  | |- context [createSession ?d ?i ?u ?t] =>
      pose proof (createSession_sessions d i u t) as Hrows;
      destruct (createSession d i u t) as [db' [created|e|e]]
  end; cbn [fst snd] in *.
  all: split; [|intros _; apply Hreq1; eauto].
  all: refine (supplied_update _ _ _ _ _ Hsup1); cbn; [lia | auto |].
  all: intros cs Hcs; destruct (Hrows cs Hcs) as [Hold| ->]; [left; exact Hold|].
  all: right; apply Hreq1; eauto.
Qed.

Lemma handling_logout_handler (w : World) (req : Req) :
  handling w req ->
  handling (logout_handler w req).1.1 (logout_handler w req).1.2.
Proof.
  intros [Hsup Hreq]. unfold logout_handler.
  assert (Hsub : forall db' ended,
            (match session req ≫= demoSessionId with
             | Some sid =>
                 if truthy_string (session req ≫= demoSessionId)
                 then endSession (database w) sid
                 else (database w, Resolved {| purged := true |})
             | None => (database w, Resolved {| purged := true |})
             end) = (db', ended) ->
            forall cs, In cs (capture_sessions db') ->
                       In cs (capture_sessions (database w))).
  { intros db' ended Hend cs Hcs.
    destruct (session req ≫= demoSessionId) as [sid|]; [|congruence].
    destruct (truthy_string _); [|congruence].
    apply (f_equal fst) in Hend. cbn in Hend. subst db'.
    apply endSession_sessions in Hcs. tauto. }
  match goal with
  | |- context [let '(db', ended) := ?x in _] =>
      destruct x as [db' [done|e|e]] eqn:Hend
  end; specialize (Hsub _ _ eq_refl).
  - pose proof (handling_with_database w req db' Hsub (conj Hsup Hreq)) as [Hsup1 _].
    match goal with
    | |- context [session_destroy ?w2 req] =>
        split; [apply (supplied_destroy w2 req);
                refine (supplied_update _ _ _ _ _ Hsup1); cbn; [lia | auto | auto]
               | intros [? [=]]]
    end.
  - apply handling_with_database; [exact Hsub | split; assumption].
  - apply handling_with_database; [exact Hsub | split; assumption].
Qed.

Lemma handling_route (ev : Event) (cookie : option string)
    (handler : World -> Req -> World * Req * Response) (w : World) (req : Req) :
  route KEY ev = Some (cookie, handler) ->
  handling w req ->
  handling (handler w req).1.1 (handler w req).1.2.
Proof.
  destruct ev as [? ? ?|?|?|? valid phone code iv1 iv2|?|?| |?]; intros [= <- <-] Hh.
  - apply handling_logout_handler, Hh.
  - unfold status_handler. destruct (session req ≫= moUser); exact Hh.
  - unfold capture_handler.
    destruct valid; cbn [negb]; [|exact Hh].
    destruct (session req ≫= demoSessionId) as [sessionId|]; [|exact Hh].
    destruct (session req ≫= moUser); [|exact Hh].
    pose proof (captureData_sessions (database w) sessionId phone code
                  iv1 iv2 (clock w)) as Hrows.
    destruct (captureData _ _ _ _ _ _ _ _) as [db' [r|e|e]]; cbn [fst snd] in *;
      (apply handling_with_database; [rewrite Hrows; auto | exact Hh]).
  - unfold current_handler.
    destruct (session req ≫= demoSessionId); [|exact Hh].
    destruct (session req ≫= moUser); [|exact Hh].
    destruct (getSessionData _ _ _ _ _); exact Hh.
Qed.

Lemma supplied_guarded (ev : Event) (cookie : option string)
    (handler : World -> Req -> World * Req * Response) (w : World) :
  route KEY ev = Some (cookie, handler) ->
  supplied w -> supplied (guarded handler w cookie).1.1.
Proof.
  intros Hroute Hsup. unfold guarded.
  pose proof (handling_load w cookie Hsup) as Hload.
  destruct (load w cookie) as [w0 req0]. cbn [fst snd] in Hload.
  pose proof (handling_requireAuth w0 req0 Hload) as Hguard.
  destruct (requireAuth w0 req0) as [[w1 req1] [|e|r]]; cbn [fst snd] in *.
  - pose proof (handling_route ev _ handler w1 req1 Hroute Hguard) as Hdone.
    destruct (handler w1 req1) as [[w2 req2] r]. apply supplied_finish, Hdone.
  - apply supplied_save, Hguard.
  - apply supplied_save, Hguard.
Qed.

Lemma supplied_handle (w : World) (ev : Event) :
  supplied w -> supplied (handle KEY w ev).
Proof.
  intros Hsup. unfold handle.
  destruct (route KEY ev) as [[cookie handler]|] eqn:Hroute.
  - rewrite (serve_route w ev _ _ Hroute). apply (supplied_guarded ev), Hsup. exact Hroute.
  - destruct ev; try discriminate; unfold serve.
    + unfold login.
      pose proof (handling_load w cookie Hsup) as Hload.
      destruct (load w cookie) as [w0 req0]. cbn [fst snd] in Hload.
      pose proof (handling_login_handler w0 req0 username password Hload) as Hdone.
      destruct (login_handler w0 req0 username password) as [[w1 req1] r].
      apply supplied_finish, Hdone.
    + unfold health.
      pose proof (handling_load w cookie Hsup) as Hload.
      destruct (load w cookie) as [w0 req0]. cbn [fst snd] in *.
      apply supplied_save, Hload.
    + cbn [fst]. apply (supplied_update w); cbn; [lia | auto | | exact Hsup].
      intros cs Hcs. left.
      apply list_elem_of_In, list_elem_of_filter in Hcs as [_ Hcs].
      apply list_elem_of_In, Hcs.
    + cbn [fst]. apply (supplied_update w); cbn; [lia | auto | auto | exact Hsup].
Qed.

Lemma supplied_run (w : World) (evs : list Event) :
  supplied w -> supplied (run KEY w evs).
Proof.
  revert w. induction evs as [|ev evs IH]; intros w Hsup; [exact Hsup|].
  cbn [run foldl]. apply IH, supplied_handle, Hsup.
Qed.


(** *** Login and the admission control *)

(** An identifier the supply has not handed out yet names nothing. *)
Lemma supplied_unused (w : World) (k : nat) :
  supplied w -> (uid_next w <= k)%nat ->
  storeRows w !! uid k = None /\
  existsb (fun cs => String.eqb (cs_session_id cs) (uid k))
          (capture_sessions (database w)) = false.
Proof.
  intros [Hs Hc] Hk. split.
  - destruct (storeRows w !! uid k) as [s|] eqn:Hlook; [|reflexivity].
    destruct (Hs (uid k)) as (j & Hj & Heq); [rewrite Hlook; eauto|].
    apply uid_inj in Heq. lia.
  - apply existsb_session_absent. intros cs Hcs Heq.
    destruct (Hc cs Hcs) as (j & Hj & Hid).
    rewrite Heq in Hid. apply uid_inj in Hid. lia.
Qed.

Lemma validate_known_user (user : Credential.t) (password : string) :
  In user MO_USERS ->
  bcrypt_compare password (Credential.passwordHash user) = true ->
  (validateMOCredentials (Credential.username user) password).2 = Some user.
Proof.
  intros Hin Hvalid. unfold validateMOCredentials.
  rewrite (find_user_some _ Hin). cbn [snd]. rewrite Hvalid. reflexivity.
Qed.

(** What a login with valid credentials from a fresh browser does. *)
Lemma login_valid (w : World) (user : Credential.t) (password : string) :
  supplied w ->
  In user MO_USERS ->
  bcrypt_compare password (Credential.passwordHash user) = true ->
  let new := uid (S (uid_next w)) in
  let opened :=
    {| moUser := Some {| MoUser.username := Credential.username user;
                         MoUser.role := Credential.role user;
                         MoUser.sessionStart := clock w |};
       demoSessionId := Some new;
       lastActivity := Some (clock w);
       lastRegenerated := Some (clock w) |} in
  exists db',
    login w None (Credential.username user) password =
      ({| clock := clock w;
          storeRows := <[new := {| row_expired := clock w + MAX_AGE;
                                   row_sess := opened |}]> (storeRows w);
          uid_next := S (S (uid_next w));
          activeSessions := activeSessions w;
          database := db' |},
       {| sessionID := new; session := Some opened |},
       LoginSuccess (Credential.username user) (Credential.role user)).
Proof.
  intros Hsup Hin Hvalid new opened.
  destruct (supplied_unused w (uid_next w) Hsup (Nat.le_refl _)) as [Hfree0 _].
  destruct (supplied_unused w (S (uid_next w)) Hsup (Nat.le_succ_diag_r _))
    as [_ Hfree1].
  unfold login, load, generate, login_handler.
  rewrite (validate_known_user user password Hin Hvalid).
  rewrite session_regenerate_eq. cbn [sessionID session clock database uid_next].
  unfold createSession, insert_capture_session.
  rewrite Hfree1. cbn.
  rewrite (delete_id _ _ Hfree0).
  eexists. reflexivity.
Qed.

(** C3 (as the code behaves).  The login route never consults the
    admission control: a login with valid credentials succeeds and
    opens one more session for the identity however many sessions the
    identity already holds, and the [activeSessions] registry is left
    as it was. *)
Theorem login_never_consults_admission
    (w : World) (user : Credential.t) (password : string) :
  supplied w ->
  In user MO_USERS ->
  bcrypt_compare password (Credential.passwordHash user) = true ->
  let after := login w None (Credential.username user) password in
  after.2 = LoginSuccess (Credential.username user) (Credential.role user) /\
  activeSessions after.1.1 = activeSessions w /\
  live_sessions after.1.1 (Credential.username user)
  = S (live_sessions w (Credential.username user)).
Proof.
  intros Hsup Hin Hvalid after. subst after.
  destruct (login_valid w user password Hsup Hin Hvalid) as [db' ->].
  cbn [fst snd activeSessions]. split; [reflexivity|]. split; [reflexivity|].
  destruct (supplied_unused w (S (uid_next w)) Hsup (Nat.le_succ_diag_r _))
    as [Hfree _].
  unfold live_sessions.
  erewrite (sessionStore_rows_insert w _ (uid (S (uid_next w)))) by reflexivity.
  rewrite map_filter_insert_True by reflexivity.
  apply map_size_insert_None.
  apply map_lookup_filter_None. left.
  rewrite sessionStore_lookup, Hfree. reflexivity.
Qed.

(** *** The registry is never added to *)

Lemma load_active (w : World) (cookie : option string) :
  activeSessions (load w cookie).1 = activeSessions w.
Proof.
  unfold load, generate. destruct cookie as [sid|]; [|reflexivity].
  destruct (sessionStore w !! sid); reflexivity.
Qed.

Lemma requireAuth_active (w : World) (req : Req) :
  activeSessions (requireAuth w req).1.1 = activeSessions w.
Proof.
  unfold requireAuth. destruct (session req) as [s|]; [|reflexivity].
  destruct (moUser s); [|reflexivity].
  destruct (idle_expired s (clock w)); [reflexivity|].
  destruct (rotation_due _ (clock w)); reflexivity.
Qed.

Lemma finish_active (w : World) (req : Req) (r : Response) :
  activeSessions (finish w req r) = activeSessions w.
Proof.
  destruct r; cbn [finish]; try reflexivity;
    unfold save; destruct (session req) as [s|]; try reflexivity;
    destruct (uninitialized s); reflexivity.
Qed.

Lemma save_active (w : World) (req : Req) :
  activeSessions (save w req) = activeSessions w.
Proof.
  unfold save. destruct (session req) as [s|]; [|reflexivity].
  destruct (uninitialized s); reflexivity.
Qed.

Lemma login_handler_active (w : World) (req : Req) (username password : string) :
  activeSessions (login_handler w req username password).1.1 = activeSessions w.
Proof.
  unfold login_handler.
  destruct (validateMOCredentials username password).2; [|reflexivity].
  rewrite session_regenerate_eq.
  destruct (createSession _ _ _ _) as [db' [created|e|e]]; reflexivity.
Qed.

Lemma route_active (ev : Event) (cookie : option string)
    (handler : World -> Req -> World * Req * Response) (w : World) (req : Req)
    (k : string) (e : ActiveSession.t) :
  route KEY ev = Some (cookie, handler) ->
  activeSessions (handler w req).1.1 !! k = Some e ->
  activeSessions w !! k = Some e.
Proof.
  destruct ev as [? ? ?|?|?|? valid phone code iv1 iv2|?|?| |?]; intros [= <- <-].
  - unfold logout_handler.
    match goal with
    | |- context [let '(db', ended) := ?x in _] => destruct x as [db' [done|err|err]]
    end; cbn; [|auto|auto].
    intros Hk. apply lookup_delete_Some in Hk as [_ Hk]. exact Hk.
  - unfold status_handler. destruct (session req ≫= moUser); auto.
  - unfold capture_handler.
    destruct valid; cbn [negb]; [|auto].
    destruct (session req ≫= demoSessionId); [|auto].
    destruct (session req ≫= moUser); [|auto].
    destruct (captureData _ _ _ _ _ _ _ _) as [db' [r|err|err]]; auto.
  - unfold current_handler.
    destruct (session req ≫= demoSessionId); [|auto].
    destruct (session req ≫= moUser); [|auto].
    destruct (getSessionData _ _ _ _ _); auto.
Qed.

(** No event adds an entry to [activeSessions]: whatever is registered
    after an event was registered before it. *)
Lemma registry_only_shrinks (w : World) (ev : Event) (k : string) (e : ActiveSession.t) :
  activeSessions (handle KEY w ev) !! k = Some e -> activeSessions w !! k = Some e.
Proof.
  unfold handle.
  destruct (route KEY ev) as [[cookie handler]|] eqn:Hroute.
  - rewrite (serve_route w ev _ _ Hroute). cbn [fst]. unfold guarded.
    pose proof (load_active w cookie) as Hload.
    destruct (load w cookie) as [w0 req0]. cbn [fst] in Hload.
    pose proof (requireAuth_active w0 req0) as Hguard.
    destruct (requireAuth w0 req0) as [[w1 req1] [|err|r]]; cbn [fst snd] in *.
    + pose proof (route_active ev _ handler w1 req1 k e Hroute) as Hdone.
      destruct (handler w1 req1) as [[w2 req2] r]. cbn [fst snd] in *.
      rewrite finish_active. intros Hk. rewrite <- Hload, <- Hguard. auto.
    + rewrite save_active. congruence.
    + rewrite save_active. congruence.
  - destruct ev; try discriminate; unfold serve; [| |auto|auto].
    + unfold login.
      pose proof (load_active w cookie) as Hload.
      destruct (load w cookie) as [w0 req0]. cbn [fst] in Hload.
      pose proof (login_handler_active w0 req0 username password) as Hdone.
      destruct (login_handler w0 req0 username password) as [[w1 req1] r].
      cbn [fst snd] in *. rewrite finish_active. congruence.
    + unfold health.
      pose proof (load_active w cookie) as Hload.
      destruct (load w cookie) as [w0 req0]. cbn [fst snd] in *.
      rewrite save_active. congruence.
Qed.

(** X25.  On a server started with an empty registry every identity
    holds zero entries at all times. *)
Lemma registry_stays_empty (evs : list Event) (w : World) :
  activeSessions w = ∅ -> activeSessions (run KEY w evs) = ∅.
Proof.
  revert w. induction evs as [|ev evs IH]; intros w Hempty; [exact Hempty|].
  cbn [run foldl]. apply IH. apply map_empty. intros k.
  destruct (activeSessions (handle KEY w ev) !! k) as [e|] eqn:Hk; [|reflexivity].
  apply registry_only_shrinks in Hk. rewrite Hempty, lookup_empty in Hk. discriminate.
Qed.

(** *** Logout *)

(** X23.  The logout of a live session answers success only after both
    DELETE statements of [endSession] ran: no captured record and no
    capture session of the session's [demoSessionId] is left, and the
    cookie names no stored session any more. *)
Lemma logout_purges_capture_store
    (w : World) (sid captureId : string) (s : Session) (mo : MoUser.t) :
  sessionStore w !! sid = Some s ->
  moUser s = Some mo ->
  demoSessionId s = Some captureId -> captureId <> "" ->
  idle_expired s (clock w) = false ->
  let after := logout w (Some sid) in
  after.2 = LoggedOut /\
  (forall cd, In cd (captured_data (database after.1.1)) ->
              cd_session_id cd <> captureId) /\
  (forall cs, In cs (capture_sessions (database after.1.1)) ->
              cs_session_id cs <> captureId) /\
  sessionStore after.1.1 !! sid = None.
Proof.
  intros Hs Hmo Hcap Hne Hidle after. subst after.
  unfold logout, guarded, load. rewrite Hs.
  rewrite (requireAuth_live w sid s mo Hmo Hidle).
  assert (Htruthy : truthy_string (Some captureId) = true).
  { cbn. apply negb_true_iff, String.eqb_neq, Hne. }
  destruct (rotation_due s (clock w)); unfold logout_handler;
    cbn [session sessionID mbind option_bind demoSessionId];
    rewrite Hcap, Htruthy;
    pose proof (endSession_data (database w) captureId) as Hdata;
    pose proof (endSession_sessions (database w) captureId) as Hrows;
    destruct (endSession _ captureId) as [db' [done|e|e]] eqn:Hend;
    try (unfold endSession, delete_captured_data, delete_capture_session in Hend;
         discriminate);
    cbn [fst snd database with_database with_active session_destroy save finish
         session sessionID] in *.
  - repeat split.
    + intros cd Hcd. apply (Hdata cd Hcd).
    + intros cs Hcs. apply (Hrows cs Hcs).
    + rewrite sessionStore_lookup. cbn [storeRows with_rows with_active with_database].
      rewrite lookup_delete.
      case_decide; [reflexivity | rewrite lookup_delete_eq; reflexivity].
  - repeat split.
    + intros cd Hcd. apply (Hdata cd Hcd).
    + intros cs Hcs. apply (Hrows cs Hcs).
    + rewrite sessionStore_lookup. cbn [storeRows with_rows with_active with_database].
      rewrite lookup_delete_eq. reflexivity.
Qed.

End Guard.

(** ** The admission control, taken by itself *)

Section Admission.
Context {supply : SessionIds}.

Lemma filter_length_perm {A : Type} (f : A -> bool) (l l' : list A) :
  l ≡ₚ l' -> length (List.filter f l) = length (List.filter f l').
Proof.
  induction 1 as [|x l l' _ IH|x y l|l1 l2 l3 _ IH1 _ IH2]; cbn.
  - reflexivity.
  - destruct (f x); cbn; congruence.
  - destruct (f x), (f y); reflexivity.
  - congruence.
Qed.

Lemma filter_length_agree {A : Type} (f g : A -> bool) (l : list A) :
  (forall x, In x l -> f x = g x) ->
  length (List.filter f l) = length (List.filter g l).
Proof.
  induction l as [|x l IH]; intros Hagree; [reflexivity|].
  assert (Hx : f x = g x) by (apply Hagree; left; reflexivity).
  assert (Hl : length (List.filter f l) = length (List.filter g l))
    by (apply IH; intros y Hy; apply Hagree; right; exact Hy).
  simpl. rewrite Hx. destruct (g x); simpl; congruence.
Qed.

Lemma tally_insert_fresh f (m : gmap string ActiveSession.t) k e :
  m !! k = None ->
  tally f (<[k := e]> m) = ((if f e then 1 else 0) + tally f m)%nat.
Proof.
  intros Hfree. unfold tally.
  rewrite (filter_length_perm f _ (map snd ((k, e) :: map_to_list m))).
  - cbn. destruct (f e); reflexivity.
  - apply Permutation_map, map_to_list_insert, Hfree.
Qed.

Lemma tally_delete f (m : gmap string ActiveSession.t) k e :
  m !! k = Some e ->
  tally f m = ((if f e then 1 else 0) + tally f (delete k m))%nat.
Proof.
  intros Hk. rewrite <- (tally_insert_fresh f (delete k m) k e)
    by apply lookup_delete_eq.
  rewrite insert_delete_eq, insert_id by exact Hk. reflexivity.
Qed.

Lemma tally_delete_le f (m : gmap string ActiveSession.t) k :
  (tally f (delete k m) <= tally f m)%nat.
Proof.
  destruct (m !! k) as [e|] eqn:Hk.
  - rewrite (tally_delete f m k e Hk). lia.
  - rewrite delete_id by exact Hk. lia.
Qed.

Lemma tally_insert f (m : gmap string ActiveSession.t) k e :
  tally f (<[k := e]> m) = ((if f e then 1 else 0) + tally f (delete k m))%nat.
Proof.
  rewrite <- insert_delete_eq. apply tally_insert_fresh, lookup_delete_eq.
Qed.

Lemma entries_of_insert (m : gmap string ActiveSession.t) k e (username : string) :
  entries_of (<[k := e]> m) username
  = ((if String.eqb (ActiveSession.username e) username then 1 else 0)
     + entries_of (delete k m) username)%nat.
Proof. apply (tally_insert (fun s => String.eqb (ActiveSession.username s) username)). Qed.

Lemma entries_of_delete_le (m : gmap string ActiveSession.t) k (username : string) :
  (entries_of (delete k m) username <= entries_of m username)%nat.
Proof. apply (tally_delete_le (fun s => String.eqb (ActiveSession.username s) username)). Qed.

Lemma MO_USERS_username_inj (u v : Credential.t) :
  In u MO_USERS -> In v MO_USERS ->
  Credential.username u = Credential.username v -> u = v.
Proof.
  unfold MO_USERS.
  intros [<-|[<-|[]]] [<-|[<-|[]]]; cbn; intros Heq; try reflexivity; discriminate.
Qed.

(** In a sound registry the sessions that [checkConcurrentSessions]
    counts, those of the identity other than the candidate, are the
    identity's entries once the candidate's own entry is set aside. *)
Lemma userSessions_length (m : gmap string ActiveSession.t) (username sid : string) :
  registry_sound m ->
  length (userSessions m username sid) = entries_of (delete sid m) username.
Proof.
  intros Hsound. unfold userSessions, entries_of.
  set (others := fun s => String.eqb (ActiveSession.username s) username
                          && negb (String.eqb (ActiveSession.sessionId s) sid)).
  set (mine := fun s => String.eqb (ActiveSession.username s) username).
  change (tally others m = tally mine (delete sid m)).
  assert (Hrest : tally others (delete sid m) = tally mine (delete sid m)).
  { apply filter_length_agree. intros e He.
    apply in_map_iff in He as ([k e'] & <- & He).
    apply list_elem_of_In, elem_of_map_to_list in He. cbn.
    apply lookup_delete_Some in He as [Hne He].
    subst others mine. cbn. rewrite (Hsound k e' He).
    destruct (String.eqb_spec k sid) as [->|_]; [congruence|].
    apply andb_true_r. }
  destruct (m !! sid) as [e|] eqn:Hk.
  - rewrite (tally_delete others m sid e Hk), Hrest.
    subst others. cbn. rewrite (Hsound sid e Hk), String.eqb_refl, andb_false_r.
    reflexivity.
  - rewrite <- Hrest. rewrite delete_id by exact Hk. reflexivity.
Qed.

(** X24.  When it is run, [checkConcurrentSessions] keeps the registry
    sound and every identity of [MO_USERS] within its limit, and it
    answers MAX_SESSIONS, registering nothing, when the identity's other
    sessions already fill the allowance. *)
Lemma checkConcurrentSessions_within_limits
    (w : World) (req : Req) (s : Session) (mo : MoUser.t) (ip userAgent : string) :
  session req = Some s -> moUser s = Some mo ->
  registry_sound (activeSessions w) ->
  within_limits (activeSessions w) ->
  let after := checkConcurrentSessions w req ip userAgent in
  registry_sound (activeSessions after.1) /\
  within_limits (activeSessions after.1) /\
  (forall u, In u MO_USERS -> Credential.username u = MoUser.username mo ->
     (Credential.allowedSessions u
      <= entries_of (delete (sessionID req) (activeSessions w)) (MoUser.username mo))%nat ->
     after = (w, Respond MAX_SESSIONS)).
Proof.
  intros Hs Hmo Hsound Hlimits after. subst after.
  unfold checkConcurrentSessions. rewrite Hs. cbn [mbind option_bind]. rewrite Hmo.
  cbn [fmap option_fmap option_map].
  set (username := MoUser.username mo).
  destruct username as [|c rest] eqn:Hname0.
  { cbn [fst snd]. split; [exact Hsound|]. split; [exact Hlimits|].
    intros u Hu Hueq _. exfalso. revert Hu Hueq. unfold MO_USERS.
    intros [<-|[<-|[]]]; discriminate. }
  rewrite <- Hname0. clear Hname0.
  rewrite (userSessions_length _ _ _ Hsound).
  set (others := entries_of (delete (sessionID req) (activeSessions w)) username).
  destruct (find _ MO_USERS) as [user|] eqn:Hfind.
  - apply find_some in Hfind as [Hin Hname]. apply String.eqb_eq in Hname.
    destruct (Nat.leb_spec (Credential.allowedSessions user) others) as [Hfull|Hroom].
    + cbn [fst snd]. split; [exact Hsound|]. split; [exact Hlimits|].
      intros _ _ _ _. reflexivity.
    + cbn [fst snd activeSessions with_active]. split; [|split].
      * intros k e Hk. apply lookup_insert_Some in Hk as [[<- <-]|[_ Hk]];
          [reflexivity | exact (Hsound k e Hk)].
      * intros u Hu. rewrite entries_of_insert. cbn [ActiveSession.username].
        pose proof (entries_of_delete_le (activeSessions w) (sessionID req)
                      (Credential.username u)) as Hle.
        destruct (String.eqb_spec username (Credential.username u)) as [Heq|Hne].
        -- assert (u = user) as ->
             by (apply MO_USERS_username_inj; [exact Hu | exact Hin | congruence]).
           rewrite <- Heq. fold others. lia.
        -- specialize (Hlimits u Hu). lia.
      * intros u Hu Hueq Hfull. exfalso.
        assert (u = user) as ->
          by (apply MO_USERS_username_inj; [exact Hu | exact Hin | congruence]).
        fold username others in Hfull. lia.
  - cbn [fst snd activeSessions with_active]. split; [|split].
    + intros k e Hk. apply lookup_insert_Some in Hk as [[<- <-]|[_ Hk]];
        [reflexivity | exact (Hsound k e Hk)].
    + intros u Hu. rewrite entries_of_insert. cbn [ActiveSession.username].
      pose proof (entries_of_delete_le (activeSessions w) (sessionID req)
                    (Credential.username u)) as Hle.
      destruct (String.eqb_spec username (Credential.username u)) as [Heq|Hne].
      * exfalso. apply (find_none _ _ Hfind) in Hu.
        apply String.eqb_neq in Hu. congruence.
      * specialize (Hlimits u Hu). lia.
    + intros u Hu Hueq _. exfalso. apply (find_none _ _ Hfind) in Hu.
      apply String.eqb_neq in Hu. congruence.
Qed.

End Admission.

(** ** Running the model on the small instance *)

Section DemoRun.
Import Demo.

Lemma demo_uid_inj : Inj (=) (=) (uid (SessionIds := Demo.ids)).
Proof.
  intros a b Heq. cbn in Heq.
  apply (inj (String.app "sid-")) in Heq.
  exact (inj pretty _ _ Heq).
Qed.

Lemma demo_supplied_started : supplied Demo.world_started.
Proof.
  split.
  - intros sid [s Hs]. cbn in Hs. rewrite lookup_empty in Hs. discriminate.
  - intros cs [].
Qed.

Lemma demo_supplied_world_at (now : Z) : supplied (Demo.world_at now).
Proof.
  split.
  - intros sid [s Hs]. cbn in Hs.
    apply lookup_singleton_Some in Hs as [<- _].
    exists 0%nat. split; [cbn; lia | reflexivity].
  - intros cs [<-|[]]. exists 0%nat. split; [cbn; lia | reflexivity].
Qed.

Lemma demo_store_world_at (now : Z) :
  sessionStore (Demo.world_at now) !! "sid-0" = Some Demo.operator_session.
Proof.
  rewrite sessionStore_lookup. cbn [storeRows clock Demo.world_at].
  rewrite lookup_singleton_eq. cbn. unfold returned. cbn [row_expired row_sess].
  destruct (Z.leb_spec now (Z.max now (1000 + MAX_AGE))); [reflexivity | lia].
Qed.

Lemma idle_expiry_leaves_capture_store_witness :
  let w := Demo.world_at (1000 + 31 * 60 * 1000) in
  (serve Demo.KEY w (GetCurrent (Some "sid-0"))).2 = Some SESSION_EXPIRED /\
  database (serve Demo.KEY w (GetCurrent (Some "sid-0"))).1 = Demo.db_one_capture.
Proof.
  apply (idle_expiry_leaves_capture_store Demo.KEY
           (Demo.world_at (1000 + 31 * 60 * 1000)) "sid-0" Demo.operator_session 1000
           (GetCurrent (Some "sid-0"))).
  - apply demo_store_world_at.
  - cbn. eauto.
  - reflexivity.
  - lia.
  - vm_compute. reflexivity.
  - reflexivity.
Defined.

(** The operator logs in, twenty minutes later the browser asks for
    GET /health, and eleven minutes after that for GET /status: the
    store still returns the session, whose [lastActivity] is thirty-one
    minutes old. *)
Lemma idle_session_expires_for_good_witness :
  let w := run Demo.KEY Demo.world_started
             [Login None "demo.operator" "correct horse"; Tick (20 * 60 * 1000);
              GetHealth (Some "sid-1"); Tick (11 * 60 * 1000)] in
  (serve Demo.KEY w (GetStatus (Some "sid-1"))).2 = Some SESSION_EXPIRED /\
  forall evs ev',
    guarded_with (Some "sid-1") ev' ->
    (serve Demo.KEY (run Demo.KEY (handle Demo.KEY w (GetStatus (Some "sid-1"))) evs) ev').2
    = Some AUTH_REQUIRED.
Proof.
  intros w.
  destruct (idle_session_expires_for_good Demo.KEY demo_uid_inj w "sid-1"
              {| row_expired := 1000 + 20 * 60 * 1000 + MAX_AGE;
                 row_sess :=
                   {| moUser := Some {| MoUser.username := "demo.operator";
                                        MoUser.role := "operator";
                                        MoUser.sessionStart := 1000 |};
                      demoSessionId := Some "sid-1";
                      lastActivity := Some 1000;
                      lastRegenerated := Some 1000 |} |}
              1000 (GetStatus (Some "sid-1")))
    as (Hresp & _ & Hlater).
  - apply supplied_run, demo_supplied_started.
  - vm_compute. reflexivity.
  - cbn. eauto.
  - reflexivity.
  - lia.
  - vm_compute. reflexivity.
  - reflexivity.
  - split; [exact Hresp | exact Hlater].
Defined.

(** C4 (as stated) fails on the server as it is configured.  The
    operator logs in and no request follows for thirty-one minutes: the
    session's [lastActivity] is more than thirty minutes old, but the
    store, whose rows expire thirty minutes after the last response,
    does not return the session any more, and the guarded request is
    answered AUTH_REQUIRED, not SESSION_EXPIRED. *)
Lemma idle_session_refused_without_session_expired :
  let w := run Demo.KEY Demo.world_started
             [Login None "demo.operator" "correct horse"; Tick (31 * 60 * 1000)] in
  (exists row,
     storeRows w !! "sid-1" = Some row /\
     is_Some (moUser (row_sess row)) /\
     lastActivity (row_sess row) = Some 1000 /\
     clock w - 1000 > MAX_IDLE) /\
  (serve Demo.KEY w (GetStatus (Some "sid-1"))).2 = Some AUTH_REQUIRED /\
  (serve Demo.KEY w (GetStatus (Some "sid-1"))).2 <> Some SESSION_EXPIRED.
Proof.
  cbv zeta. split; [|split; [vm_compute; reflexivity | vm_compute; discriminate]].
  eexists. split; [vm_compute; reflexivity|].
  split; [cbn; eauto|]. split; [reflexivity | vm_compute; reflexivity].
Qed.



(** A rotation on a request that is never answered: GET /current over
    the record with the altered tag, sixteen minutes after the login.
    The old identifier is destroyed, the new one is never written, and
    the store is left without the session. *)
Lemma rotation_on_unanswered_request_loses_session :
  let w := with_database (Demo.world_at (1000 + 16 * 60 * 1000)) Demo.db_tampered_tag in
  let after := serve Demo.KEY w (GetCurrent (Some "sid-0")) in
  after.2 = Some (Pending (DecryptFailure IntegrityFailure)) /\
  sessionStore after.1 = ∅.
Proof. split; reflexivity. Qed.

Lemma guard_skips_idle_check_when_unset_witness :
  let never_touched :=
    {| moUser := moUser Demo.operator_session; demoSessionId := Some "sid-0";
       lastActivity := None; lastRegenerated := Some 1000 |} in
  exists w' req' s',
    requireAuth (Demo.world_at 1000000000000)
      {| sessionID := "sid-0"; session := Some never_touched |}
    = (w', req', Next) /\
    session req' = Some s' /\
    moUser s' = moUser Demo.operator_session /\
    lastActivity s' = Some 1000000000000.
Proof.
  exact (proj1 (guard_skips_idle_check_when_unset (Demo.world_at 1000000000000)
                  {| sessionID := "sid-0";
                     session := Some {| moUser := moUser Demo.operator_session;
                                        demoSessionId := Some "sid-0";
                                        lastActivity := None;
                                        lastRegenerated := Some 1000 |} |})
           _ _ eq_refl eq_refl eq_refl).
Defined.

Lemma login_never_consults_admission_witness :
  let operator_login := Login None "demo.operator" "correct horse" in
  let w3 := run Demo.KEY Demo.world_started [operator_login; operator_login; operator_login] in
  let after := login w3 None "demo.operator" "correct horse" in
  live_sessions w3 "demo.operator" = 3%nat /\
  after.2 = LoginSuccess "demo.operator" "operator" /\
  activeSessions after.1.1 = activeSessions w3 /\
  live_sessions after.1.1 "demo.operator" = S (live_sessions w3 "demo.operator").
Proof.
  split; [vm_compute; reflexivity|].
  apply (login_never_consults_admission demo_uid_inj
           (run Demo.KEY Demo.world_started
              [Login None "demo.operator" "correct horse";
               Login None "demo.operator" "correct horse";
               Login None "demo.operator" "correct horse"])
           {| Credential.username := "demo.operator";
              Credential.passwordHash := "$2b$10$YourHashedPasswordHere";
              Credential.role := "operator";
              Credential.allowedSessions := 3 |}
           "correct horse").
  - apply supplied_run, demo_supplied_started.
  - right. left. reflexivity.
  - reflexivity.
Defined.

End DemoRun.

(** ** More about the capture store *)

Section StoreFacts.
Context {aead : Aead}.
Variable KEY : list byte.

(** X1.  Envelopes built under different nonces are different texts,
    whatever the plaintexts: two captures of the same phone number
    never store the same envelope unless the nonce repeats. *)
Theorem fresh_nonce_gives_fresh_envelope (iv1 iv2 : list byte) (text1 text2 : string) :
  iv1 <> iv2 -> encrypt KEY iv1 text1 <> encrypt KEY iv2 text2.
Proof.
  intros Hne Heq. apply Hne.
  apply (f_equal (Hex.split ":"%char)) in Heq.
  rewrite !split_encrypt in Heq.
  injection Heq as Hiv _ _.
  rewrite <- (from_hex_toString_hex iv1), <- (from_hex_toString_hex iv2).
  f_equal. exact Hiv.
Qed.

Lemma string_app_assoc (a b c : string) : (a +:+ b) +:+ c = a +:+ (b +:+ c).
Proof.
  induction a as [|x a IH]; [reflexivity|].
  change (String x ((a +:+ b) +:+ c) = String x (a +:+ (b +:+ c))).
  f_equal. exact IH.
Qed.

Lemma split_app_free (a b : string) :
  Hex.free_of ":"%char a = true ->
  Hex.split ":"%char (a +:+ ":" +:+ b) = a :: Hex.split ":"%char b.
Proof.
  intros Hfree. change (":" +:+ b) with (String ":"%char b).
  apply split_app_sep, Hfree.
Qed.

(** X2.  A stored text with fewer than three colon-separated parts is
    never decrypted: [decrypt] raises before it delivers anything,
    whatever the cipher. *)
Theorem decrypt_needs_three_parts (a b : string) :
  Hex.free_of ":"%char a = true ->
  Hex.free_of ":"%char b = true ->
  (exists e, decrypt KEY a = inl e) /\
  (exists e, decrypt KEY (a +:+ ":" +:+ b) = inl e).
Proof.
  intros Ha Hb. unfold decrypt. split.
  - rewrite (split_free_of _ _ Ha). eauto.
  - rewrite (split_app_free a b Ha), (split_free_of _ _ Hb). eauto.
Qed.

(** X3.  Only the first three parts of a stored text are looked at:
    whatever is appended to an envelope after a further colon changes
    nothing in what [decrypt] returns. *)
Theorem decrypt_ignores_trailing_parts (iv : list byte) (text trailing : string) :
  decrypt KEY (encrypt KEY iv text +:+ ":" +:+ trailing)
  = decrypt KEY (encrypt KEY iv text).
Proof.
  unfold decrypt. rewrite split_encrypt.
  unfold encrypt. cbv zeta.
  rewrite !string_app_assoc.
  rewrite (split_app_free _ _ (free_of_toString_hex iv)).
  rewrite (split_app_free _ _ (free_of_toString_hex _)).
  rewrite (split_app_free _ _ (free_of_toString_hex _)).
  reflexivity.
Qed.


Lemma select_rows_spec (db : Db) (sessionId moUsername : string) (now : Z)
    (row : CapturedDataRow) :
  In row (matched_rows db sessionId moUsername now) <->
  In row (captured_data db) /\
  cd_session_id row = sessionId /\
  cd_status row = StatusNew /\
  exists cs, In cs (capture_sessions db) /\
             cs_session_id cs = sessionId /\
             cs_mo_username cs = moUsername /\
             expires_gt_now (cs_expires_at cs) now = true.
Proof.
  unfold matched_rows, select_session_data. rewrite in_flat_map. split.
  - intros (cd & Hcd & Hrow). apply in_flat_map in Hrow as (cs & Hcs & Hrow).
    destruct (_ && _) eqn:Hcond in Hrow; [|destruct Hrow].
    destruct Hrow as [<-|[]].
    repeat (apply andb_prop in Hcond as [Hcond ?]).
    apply String.eqb_eq in Hcond.
    repeat match goal with
           | Heq : String.eqb _ _ = true |- _ => apply String.eqb_eq in Heq
           end.
    split; [exact Hcd|]. split; [assumption|]. split.
    + destruct (cd_status cd); [reflexivity | discriminate].
    + exists cs. repeat split; try assumption. congruence.
  - intros (Hrow & Hsid & Hnew & cs & Hcs & Hcsid & Huser & Hlive).
    exists row. split; [exact Hrow|]. apply in_flat_map. exists cs.
    split; [exact Hcs|].
    rewrite Hsid, Hcsid, Huser, Hnew, Hlive, !String.eqb_refl. left. reflexivity.
Qed.

Lemma decrypt_rows_origin (rows : list CapturedDataRow) (delivered : list Capture)
    (c : Capture) :
  decrypt_rows KEY rows = inr delivered -> In c delivered ->
  exists row, In row rows /\ cd_id row = id c /\ cd_created_at row = createdAt c.
Proof.
  revert delivered. induction rows as [|r rows IH]; intros delivered Hres Hc;
    cbn [decrypt_rows] in Hres.
  - injection Hres as <-. destruct Hc.
  - destruct (decrypt KEY (cd_encrypted_phone r)); [discriminate|].
    destruct (decrypt KEY (cd_encrypted_safety_code r)); [discriminate|].
    destruct (decrypt_rows KEY rows) as [|rest]; [discriminate|].
    injection Hres as <-. destruct Hc as [<-|Hc].
    + exists r. split; [left; reflexivity | split; reflexivity].
    + destruct (IH rest eq_refl Hc) as (row & Hrow & Hid).
      exists row. split; [right; exact Hrow | exact Hid].
Qed.

(** X4.  [endSession] always resolves, removes from both tables the
    rows of the given session and no other row, and a read of that
    session afterwards resolves with no record, for every reader. *)
Theorem endSession_removes_exactly_the_session (db : Db) (sessionId : string) :
  (endSession db sessionId).2 = Resolved {| purged := true |} /\
  (forall cd, In cd (captured_data (endSession db sessionId).1) <->
              In cd (captured_data db) /\ cd_session_id cd <> sessionId) /\
  (forall cs, In cs (capture_sessions (endSession db sessionId).1) <->
              In cs (capture_sessions db) /\ cs_session_id cs <> sessionId) /\
  (forall moUsername now,
     getSessionData KEY (endSession db sessionId).1 sessionId moUsername now
     = Resolved []).
Proof.
  assert (Hdata : forall cd, In cd (captured_data (endSession db sessionId).1) <->
                             In cd (captured_data db) /\ cd_session_id cd <> sessionId).
  { intros cd. unfold endSession, delete_captured_data, delete_capture_session. cbn.
    split.
    - intros Hin. apply list_elem_of_In, list_elem_of_filter in Hin as [Hne Hin].
      split; [apply list_elem_of_In, Hin | apply String.eqb_neq, Hne].
    - intros [Hin Hne]. apply list_elem_of_In, list_elem_of_filter.
      split; [apply String.eqb_neq, Hne | apply list_elem_of_In, Hin]. }
  split; [reflexivity|]. split; [exact Hdata|]. split.
  - intros cs. unfold endSession, delete_captured_data, delete_capture_session. cbn.
    split.
    + intros Hin. apply list_elem_of_In, list_elem_of_filter in Hin as [Hne Hin].
      split; [apply list_elem_of_In, Hin | apply String.eqb_neq, Hne].
    + intros [Hin Hne]. apply list_elem_of_In, list_elem_of_filter.
      split; [apply String.eqb_neq, Hne | apply list_elem_of_In, Hin].
  - intros moUsername now.
    assert (Hnone : matched_rows (endSession db sessionId).1 sessionId moUsername now = []).
    { destruct (matched_rows _ sessionId moUsername now) as [|row rows] eqn:Hrows;
        [reflexivity|].
      assert (Hin : In row (matched_rows (endSession db sessionId).1 sessionId
                              moUsername now)) by (rewrite Hrows; left; reflexivity).
      apply select_rows_spec in Hin as (Hrow & Hsid & _).
      apply Hdata in Hrow as [_ Hne]. contradiction. }
    unfold getSessionData. unfold matched_rows, select_session_data in *.
    rewrite Hnone. reflexivity.
Qed.

(** X5.  A reader who owns no capture session of the given id gets an
    empty result: no row is selected and nothing is decrypted, even if
    the session holds records that would not decrypt. *)
Theorem read_is_confined_to_owner (db : Db) (sessionId moUsername : string) (now : Z) :
  (forall cs, In cs (capture_sessions db) -> cs_session_id cs = sessionId ->
              cs_mo_username cs <> moUsername) ->
  getSessionData KEY db sessionId moUsername now = Resolved [].
Proof.
  intros Hother.
  assert (Hnone : matched_rows db sessionId moUsername now = []).
  { destruct (matched_rows db sessionId moUsername now) as [|row rows] eqn:Hrows;
      [reflexivity|].
    assert (Hin : In row (matched_rows db sessionId moUsername now))
      by (rewrite Hrows; left; reflexivity).
    apply select_rows_spec in Hin as (_ & _ & _ & cs & Hcs & Hsid & Huser & _).
    destruct (Hother cs Hcs Hsid Huser). }
  unfold getSessionData. unfold matched_rows, select_session_data in *.
  rewrite Hnone. reflexivity.
Qed.

(** X6.  Every record a read resolves with stems from a stored row of
    the requested session whose status is new, and the capture session
    of that id belongs to the reader and passes the expiry comparison
    of the query. *)
Theorem read_delivers_only_new_rows_of_owner
    (db : Db) (sessionId moUsername : string) (now : Z)
    (delivered : list Capture) (c : Capture) :
  getSessionData KEY db sessionId moUsername now = Resolved delivered ->
  In c delivered ->
  exists row cs,
    In row (captured_data db) /\ In cs (capture_sessions db) /\
    cd_id row = id c /\ cd_created_at row = createdAt c /\
    cd_session_id row = sessionId /\ cd_status row = StatusNew /\
    cs_session_id cs = sessionId /\ cs_mo_username cs = moUsername /\
    expires_gt_now (cs_expires_at cs) now = true.
Proof.
  intros Hres Hc.
  pose proof (select_rows_spec db sessionId moUsername now) as Hspec.
  unfold getSessionData in Hres. unfold matched_rows in Hspec.
  destruct (select_session_data db sessionId moUsername now) as [err|rows];
    [discriminate|].
  destruct (decrypt_rows KEY rows) as [e|done] eqn:Hdone; [discriminate|].
  injection Hres as <-.
  destruct (decrypt_rows_origin rows done c Hdone Hc) as (row & Hrow & Hid & Hat).
  apply Hspec in Hrow as (Hin & Hsid & Hnew & cs & Hcs & Hcsid & Huser & Hlive).
  exists row, cs. repeat split; assumption.
Qed.

(** X7.  [createSession] for an id that already has a capture session
    is rejected with the database untouched, and [session_id] stays
    unique in [capture_sessions] through every operation of the model. *)
Theorem session_id_stays_unique
    (db : Db) (sessionId moUsername phone code : string)
    (iv1 iv2 : list byte) (now : Z) :
  unique_sessions db ->
  ((exists cs, In cs (capture_sessions db) /\ cs_session_id cs = sessionId) ->
   createSession db sessionId moUsername now
   = (db, Rejected (SqlFailure SQLITE_CONSTRAINT_UNIQUE))) /\
  unique_sessions (createSession db sessionId moUsername now).1 /\
  unique_sessions (captureData KEY db sessionId phone code iv1 iv2 now).1 /\
  unique_sessions (markAsSent KEY db sessionId phone iv1).1 /\
  unique_sessions (endSession db sessionId).1 /\
  unique_sessions (cleanupExpired db now).
Proof.
  intros Huniq. split; [|split; [|split; [|split; [|split]]]].
  - intros (cs & Hcs & Hsid). unfold createSession, insert_capture_session.
    replace (existsb _ (capture_sessions db)) with true; [reflexivity|].
    symmetry. apply existsb_exists. exists cs.
    split; [exact Hcs | apply String.eqb_eq, Hsid].
  - apply createSession_unique, Huniq.
  - unfold unique_sessions. rewrite captureData_sessions. exact Huniq.
  - exact Huniq.
  - apply endSession_unique, Huniq.
  - apply cleanupExpired_unique, Huniq.
Qed.

(** X8.  [markAsSent] changes nothing but the status of rows of the
    given session: the sessions table, the number and order of the
    records, their ids, envelopes and dates stay as they were, no
    record of another session is touched, and no status goes back to
    new. *)
Theorem markAsSent_changes_status_only
    (db : Db) (sessionId phone : string) (iv : list byte) :
  let after := (markAsSent KEY db sessionId phone iv).1 in
  let content cd := (cd_id cd, cd_session_id cd, cd_encrypted_phone cd,
                     cd_encrypted_safety_code cd, cd_created_at cd) in
  capture_sessions after = capture_sessions db /\
  map content (captured_data after) = map content (captured_data db) /\
  (forall cd, In cd (captured_data db) -> cd_session_id cd <> sessionId ->
              In cd (captured_data after)) /\
  (forall cd, In cd (captured_data after) -> cd_status cd = StatusNew ->
              In cd (captured_data db)).
Proof.
  unfold markAsSent, update_mark_sent. cbn [fst captured_data capture_sessions].
  split; [reflexivity|]. split; [|split].
  - rewrite map_map. apply map_ext. intros cd.
    destruct (_ && _); reflexivity.
  - intros cd Hcd Hne. apply in_map_iff. exists cd. split; [|exact Hcd].
    apply String.eqb_neq in Hne. rewrite Hne. reflexivity.
  - intros cd Hcd Hnew. apply in_map_iff in Hcd as (cd0 & Heq & Hcd0).
    destruct (_ && _) in Heq; subst cd; [discriminate | exact Hcd0].
Qed.

(** X9.  The sweep never removes a capture session whose expiry has not
    passed, nor, [session_id] being unique, any record of it. *)
Theorem cleanupExpired_keeps_unexpired
    (db : Db) (cs : CaptureSessionRow) (now : Z) :
  unique_sessions db ->
  In cs (capture_sessions db) ->
  now <= cs_expires_at cs ->
  In cs (capture_sessions (cleanupExpired db now)) /\
  (forall cd, In cd (captured_data db) -> cd_session_id cd = cs_session_id cs ->
              In cd (captured_data (cleanupExpired db now))).
Proof.
  intros Huniq Hcs Hlive.
  assert (Hkeep : expires_lt_now (cs_expires_at cs) now = false).
  { unfold expires_lt_now. apply Z.ltb_ge, utc_day_mono, Hlive. }
  unfold cleanupExpired. cbn [capture_sessions captured_data]. split.
  - apply list_elem_of_In, list_elem_of_filter. split; [exact Hkeep|].
    apply list_elem_of_In, Hcs.
  - intros cd Hcd Hsid. apply list_elem_of_In, list_elem_of_filter.
    split; [|apply list_elem_of_In, Hcd].
    apply not_true_is_false. intros Hstale.
    apply existsb_exists in Hstale as (cs' & Hcs' & Hcond).
    apply andb_prop in Hcond as [Hsame Hexpired].
    apply String.eqb_eq in Hsame.
    assert (cs' = cs) as ->; [|congruence].
    unfold unique_sessions in Huniq. clear - Huniq Hcs Hcs' Hsame Hsid.
    assert (Hid : cs_session_id cs' = cs_session_id cs) by congruence. clear Hsame Hsid.
    induction (capture_sessions db) as [|r rows IH]; [destruct Hcs|].
    cbn [map] in Huniq. apply NoDup_cons in Huniq as [Hfresh Huniq].
    destruct Hcs as [->|Hcs], Hcs' as [->|Hcs']; [reflexivity | | |auto].
    + exfalso. apply Hfresh. rewrite <- Hid. apply list_elem_of_In, in_map, Hcs'.
    + exfalso. apply Hfresh. rewrite Hid. apply list_elem_of_In, in_map, Hcs.
Qed.

(** What the sweep removes, row by row: a capture session stays exactly
    when the day of its expiry is not before today's, and a record
    stays exactly when no capture session of its id was swept. *)
Lemma cleanupExpired_sweeps_by_utc_day (db : Db) (now : Z) :
  (forall cs, In cs (capture_sessions (cleanupExpired db now)) <->
              In cs (capture_sessions db) /\
              utc_day now <= utc_day (cs_expires_at cs)) /\
  (forall cd, In cd (captured_data (cleanupExpired db now)) <->
              In cd (captured_data db) /\
              forall cs, In cs (capture_sessions db) ->
                         cs_session_id cs = cd_session_id cd ->
                         In cs (capture_sessions (cleanupExpired db now))).
Proof.
  assert (Hsessions : forall cs, In cs (capture_sessions (cleanupExpired db now)) <->
                                 In cs (capture_sessions db) /\
                                 utc_day now <= utc_day (cs_expires_at cs)).
  { intros cs. unfold cleanupExpired, expires_lt_now. cbn [capture_sessions].
    split.
    - intros Hin. apply list_elem_of_In, list_elem_of_filter in Hin as [Hday Hin].
      split; [apply list_elem_of_In, Hin | apply Z.ltb_ge, Hday].
    - intros [Hin Hday]. apply list_elem_of_In, list_elem_of_filter.
      split; [apply Z.ltb_ge, Hday | apply list_elem_of_In, Hin]. }
  split; [exact Hsessions|].
  intros cd. unfold cleanupExpired at 1. cbn [captured_data]. split.
  - intros Hin. apply list_elem_of_In, list_elem_of_filter in Hin as [Hfresh Hcd].
    apply list_elem_of_In in Hcd. split; [exact Hcd|].
    intros cs Hcs Hsid. apply Hsessions. split; [exact Hcs|].
    apply Z.ltb_ge. apply not_true_is_false. intros Hexpired.
    apply not_true_iff_false in Hfresh. apply Hfresh.
    apply existsb_exists. exists cs. split; [exact Hcs|].
    unfold expires_lt_now. rewrite Hexpired, andb_true_r. apply String.eqb_eq, Hsid.
  - intros [Hcd Hkept]. apply list_elem_of_In, list_elem_of_filter.
    split; [|apply list_elem_of_In, Hcd].
    apply not_true_is_false. intros Hstale.
    apply existsb_exists in Hstale as (cs & Hcs & Hcond).
    apply andb_prop in Hcond as [Hsame Hexpired].
    apply String.eqb_eq in Hsame.
    apply (Hkept cs Hcs) in Hsame. apply Hsessions in Hsame as [_ Hday].
    unfold expires_lt_now in Hexpired. apply Z.ltb_lt in Hexpired. lia.
Qed.

End StoreFacts.

(** ** More about the guard and the routes *)

(** ** The expiry comparison, as texts *)

Section ExpiryText.
Import Calendar.

Lemma decimal_code (n : Z) : N_of_ascii (decimal n) = (48 + Z.to_N (n mod 10))%N.
Proof.
  unfold decimal. apply N_ascii_embedding.
  pose proof (Z.mod_pos_bound n 10 ltac:(lia)). lia.
Qed.

Lemma compare_decimal (p q : Z) :
  Ascii.compare (decimal p) (decimal q) = (p mod 10 ?= q mod 10).
Proof.
  unfold Ascii.compare. rewrite !decimal_code.
  pose proof (Z.mod_pos_bound p 10 ltac:(lia)).
  pose proof (Z.mod_pos_bound q 10 ltac:(lia)).
  rewrite <- N2Z.inj_compare, !N2Z.inj_add, !Z2N.id by lia.
  apply Z.add_compare_mono_l.
Qed.

Lemma days_in_month_bounds (y m : Z) : 28 <= days_in_month y m <= 31.
Proof.
  unfold days_in_month. repeat (destruct (_ =? _); cbn [orb]);
    try destruct (is_leap _); lia.
Qed.

Lemma next_day_later (d : Date) :
  valid d -> valid (next_day d) /\ before d (next_day d).
Proof.
  unfold valid, before, next_day. intros (Hy & Hm & Hd).
  destruct (Z.ltb_spec (day d) (days_in_month (year d) (month d))) as [Hlt|Hge];
    [|destruct (Z.ltb_spec (month d) 12) as [Hm12|Hm12]];
    cbn [year month day];
    match goal with
    | |- context [days_in_month ?y ?m] => pose proof (days_in_month_bounds y m)
    end;
    lia.
Qed.

Lemma date_of_day_valid (n : nat) : valid (date_of_day n).
Proof.
  induction n as [|n IH].
  - unfold date_of_day, valid. cbn. lia.
  - unfold date_of_day in *. cbn [Nat.iter]. apply next_day_later, IH.
Qed.

Lemma before_trans (a b c : Date) : before a b -> before b c -> before a c.
Proof. unfold before. lia. Qed.

Lemma date_of_day_mono (n m : nat) :
  (n < m)%nat -> before (date_of_day n) (date_of_day m).
Proof.
  induction m as [|m IH]; [lia|]. intros Hlt.
  assert (Hstep : before (date_of_day m) (date_of_day (S m))).
  { unfold date_of_day. cbn [Nat.iter]. apply next_day_later, date_of_day_valid. }
  destruct (decide (n = m)) as [->|Hne]; [exact Hstep|].
  apply (before_trans _ (date_of_day m)); [apply IH; lia | exact Hstep].
Qed.

Lemma days_in_month_le (y m : Z) : days_in_month y m <= 31.
Proof. apply days_in_month_bounds. Qed.

(** The ISO text of one date against the SQLite text of another: the
    dates decide, and on the same date the "T" sorts after the space. *)
Lemma compare_date_texts (a b : Date) (rest rest' : string) :
  valid a -> valid b -> year a <= 9999 -> year b <= 9999 ->
  String.compare (date_text a +:+ "T" +:+ rest) (date_text b +:+ " " +:+ rest')
  = if decide (before a b) then Lt else Gt.
Proof.
  intros (Hya & Hma & Hda) (Hyb & Hmb & Hdb) Ha Hb.
  pose proof (days_in_month_le (year a) (month a)).
  pose proof (days_in_month_le (year b) (month b)).
  unfold date_text, pad4, pad3, pad2.
  repeat (change (String ?c ?x +:+ ?y) with (String c (x +:+ y))
          || change ("" +:+ ?y) with y).
  cbn [String.compare].
  rewrite !compare_decimal.
  change (Ascii.compare "-" "-") with Eq.
  change (Ascii.compare "T" " ") with Gt.
  unfold before.
  repeat match goal with
         | |- context [?x ?= ?y] => destruct (Z.compare_spec x y)
         end;
    destruct (decide _) as [Hbef|Hbef]; try reflexivity; exfalso;
    revert Hbef; Z.div_mod_to_equations; lia.
Qed.

Lemma utc_day_nonneg (ms : Z) : 0 <= ms -> 0 <= utc_day ms.
Proof. intros Hms. unfold utc_day, MS_PER_DAY. apply Z.div_pos; lia. Qed.

(** X10.  [createSession] stores the expiry as the text of
    [toISOString()], and the sweep and the read compare that text with
    the text of [datetime('now')].  For instants of the years 1970 to
    9999 the comparison is decided by the UTC calendar day alone:
    [expires_at < datetime('now')] holds exactly when the day of the
    expiry is before the current day, and [expires_at > datetime('now')]
    exactly when it is not.  So the sweep keeps a capture session whose
    expiry day is the current day, however long ago it expired. *)
Theorem expiry_text_comparison_is_by_utc_day (expires_at now : Z) :
  0 <= expires_at -> 0 <= now ->
  year (date_of_instant expires_at) <= 9999 ->
  year (date_of_instant now) <= 9999 ->
  text_lt (toISOString expires_at) (sqlite_datetime now)
  = expires_lt_now expires_at now /\
  text_lt (sqlite_datetime now) (toISOString expires_at)
  = expires_gt_now expires_at now /\
  (forall db cs,
     In cs (capture_sessions db) -> cs_expires_at cs = expires_at ->
     utc_day expires_at = utc_day now ->
     In cs (capture_sessions (cleanupExpired db now))).
Proof.
  intros He Hnow Hye Hyn.
  pose proof (utc_day_nonneg _ He) as Hde.
  pose proof (utc_day_nonneg _ Hnow) as Hdn.
  assert (Hcmp : String.compare (toISOString expires_at) (sqlite_datetime now)
                 = if utc_day expires_at <? utc_day now then Lt else Gt).
  { unfold toISOString, sqlite_datetime.
    rewrite compare_date_texts
      by (try apply date_of_day_valid; assumption).
    unfold date_of_instant in *.
    destruct (Z.ltb_spec (utc_day expires_at) (utc_day now)) as [Hlt|Hge];
      destruct (decide _) as [Hbef|Hbef]; try reflexivity; exfalso.
    - apply Hbef, date_of_day_mono. lia.
    - destruct (decide (utc_day expires_at = utc_day now)) as [Heq|Hne].
      + rewrite Heq in Hbef. unfold before in Hbef. lia.
      + assert (Hrev : before (date_of_day (Z.to_nat (utc_day now)))
                              (date_of_day (Z.to_nat (utc_day expires_at))))
          by (apply date_of_day_mono; lia).
        unfold before in *. lia. }
  split; [|split].
  - unfold text_lt, String.ltb, expires_lt_now. rewrite Hcmp.
    destruct (utc_day expires_at <? utc_day now); reflexivity.
  - unfold text_lt, String.ltb, expires_gt_now.
    rewrite String.compare_antisym, Hcmp.
    destruct (Z.ltb_spec (utc_day expires_at) (utc_day now)) as [Hlt|Hge]; cbn.
    + symmetry. apply Z.leb_gt. exact Hlt.
    + symmetry. apply Z.leb_le. exact Hge.
  - intros db cs Hin Hexp Hday. unfold cleanupExpired. cbn [capture_sessions].
    apply list_elem_of_In, list_elem_of_filter. split; [|apply list_elem_of_In, Hin].
    unfold expires_lt_now. rewrite Hexp, Hday. apply Z.ltb_irrefl.
Qed.

End ExpiryText.

Section GuardFacts.
Context {aead : Aead} {hasher : Bcrypt} {supply : SessionIds}.
Variable KEY : list byte.

(** X11.  A login with credentials the validator does not accept is
    answered AUTH_FAILED and leaves the sessions the store returns, the
    database and the registry exactly as they were, whatever cookie
    came with it; no row of the store is added or removed and no stored
    session is changed (the expiry of the session of the cookie is
    renewed, as at every response). *)
Theorem failed_login_changes_nothing
    (w : World) (cookie : option string) (username password : string) :
  (validateMOCredentials username password).2 = None ->
  let after := login w cookie username password in
  after.2 = AUTH_FAILED /\
  sessionStore after.1.1 = sessionStore w /\
  database after.1.1 = database w /\
  activeSessions after.1.1 = activeSessions w /\
  (forall sid, row_sess <$> storeRows after.1.1 !! sid = row_sess <$> storeRows w !! sid).
Proof.
  intros Hbad after. subst after. unfold login, load.
  destruct cookie as [sid|].
  - destruct (sessionStore w !! sid) as [s|] eqn:Hs.
    + unfold login_handler. rewrite Hbad. unfold finish, save. cbn [session sessionID].
      destruct (uninitialized s); cbn [fst snd]; repeat split.
      * rewrite sessionStore_insert. apply insert_id, Hs.
      * intros sid'. cbn [storeRows with_rows].
        destruct (decide (sid = sid')) as [<-|Hne].
        -- rewrite lookup_insert_eq. cbn.
           rewrite sessionStore_lookup in Hs.
           destruct (storeRows w !! sid) as [row|]; [|discriminate]. cbn in *.
           unfold returned in Hs.
           destruct (clock w <=? row_expired row); [|discriminate].
           congruence.
        -- rewrite lookup_insert_ne by exact Hne. reflexivity.
    + unfold generate, login_handler. rewrite Hbad. repeat split.
  - unfold generate, login_handler. rewrite Hbad. repeat split.
Qed.

(** X12.  A guarded request that comes without a cookie, or with a
    cookie that names no stored session, is answered AUTH_REQUIRED; the
    handler is not run and the session store, the database and the
    registry stay as they were (the empty session generated for the
    request is not stored). *)
Theorem unauthenticated_request_is_refused
    (w : World) (cookie : option string) (ev : Event) :
  (forall sid, cookie = Some sid -> sessionStore w !! sid = None) ->
  guarded_with cookie ev ->
  (serve KEY w ev).2 = Some AUTH_REQUIRED /\
  sessionStore (serve KEY w ev).1 = sessionStore w /\
  database (serve KEY w ev).1 = database w /\
  activeSessions (serve KEY w ev).1 = activeSessions w.
Proof.
  intros Hunknown Hev.
  destruct (guarded_with_route KEY ev _ Hev) as [handler Hroute].
  rewrite (serve_route KEY w ev _ _ Hroute).
  unfold guarded, load.
  destruct cookie as [sid|]; [rewrite (Hunknown sid eq_refl)|]; repeat split.
Qed.



End GuardFacts.

Section SessionLife.
Context {aead : Aead} {hasher : Bcrypt} {supply : SessionIds}.
Variable KEY : list byte.
Hypothesis uid_inj : Inj (=) (=) uid.

Lemma endSession_resolves (db : Db) (sessionId : string) :
  exists db', endSession db sessionId = (db', Resolved {| purged := true |}).
Proof. eexists. reflexivity. Qed.

(** The logout of a live session, seen from the session store. *)
Lemma logout_live_store (w : World) (sid : string) (s : Session) (mo : MoUser.t) :
  sessionStore w !! sid = Some s ->
  moUser s = Some mo ->
  idle_expired s (clock w) = false ->
  (logout w (Some sid)).2 = LoggedOut /\
  sessionStore (logout w (Some sid)).1.1 !! sid = None /\
  (uid_next w <= uid_next (logout w (Some sid)).1.1)%nat.
Proof.
  intros Hs Hmo Hidle.
  unfold logout, guarded, load. rewrite Hs.
  rewrite (requireAuth_live w sid s mo Hmo Hidle).
  destruct (rotation_due s (clock w)); unfold logout_handler;
    cbn [session sessionID mbind option_bind demoSessionId].
  - destruct (demoSessionId s) as [cap|]; [destruct (truthy_string (Some cap))|];
      try (destruct (endSession_resolves (database w) cap) as [db' Hend];
           cbn [database]; rewrite Hend);
      cbn; repeat split; try lia;
      rewrite sessionStore_lookup; cbn [storeRows with_rows with_active with_database];
      rewrite lookup_delete;
      (case_decide; [reflexivity | rewrite lookup_delete_eq; reflexivity]).
  - destruct (demoSessionId s) as [cap|]; [destruct (truthy_string (Some cap))|];
      try (destruct (endSession_resolves (database w) cap) as [db' Hend];
           cbn [database]; rewrite Hend);
      cbn; repeat split; try lia;
      rewrite sessionStore_lookup; cbn [storeRows with_rows with_active with_database];
      rewrite lookup_delete_eq; reflexivity.
Qed.

(** X15.  A successful logout is final: the session's identifier names
    no session afterwards, and whatever happens to the server later,
    every guarded request that presents it is answered AUTH_REQUIRED. *)
Theorem logout_is_final
    (w : World) (sid : string) (s : Session) (mo : MoUser.t) :
  issued w sid ->
  sessionStore w !! sid = Some s ->
  moUser s = Some mo ->
  idle_expired s (clock w) = false ->
  (serve KEY w (Logout (Some sid))).2 = Some LoggedOut /\
  forall evs ev',
    guarded_with (Some sid) ev' ->
    (serve KEY (run KEY (handle KEY w (Logout (Some sid))) evs) ev').2
    = Some AUTH_REQUIRED.
Proof.
  intros Hissued Hs Hmo Hidle.
  destruct (logout_live_store w sid s mo Hs Hmo Hidle) as (Hresp & Hgone & Hnext).
  unfold handle, serve.
  destruct (logout w (Some sid)) as [[w' req'] r]. cbn [fst snd] in *. subst r.
  split; [reflexivity|].
  intros evs ev' Hev'.
  apply (serve_unknown_cookie KEY _ _ sid); [|exact Hev'].
  refine (proj2 (retired_run KEY uid_inj _ evs sid _)).
  split; [apply (issued_mono w); assumption | exact Hgone].
Qed.

Lemma login_valid_exact (w : World) (user : Credential.t) (password : string) :
  supplied w ->
  In user MO_USERS ->
  bcrypt_compare password (Credential.passwordHash user) = true ->
  let new := uid (S (uid_next w)) in
  login w None (Credential.username user) password =
    ({| clock := clock w;
        storeRows :=
          <[new := {| row_expired := clock w + MAX_AGE;
                      row_sess :=
                        {| moUser := Some {| MoUser.username := Credential.username user;
                                             MoUser.role := Credential.role user;
                                             MoUser.sessionStart := clock w |};
                           demoSessionId := Some new;
                           lastActivity := Some (clock w);
                           lastRegenerated := Some (clock w) |} |}]> (storeRows w);
        uid_next := S (S (uid_next w));
        activeSessions := activeSessions w;
        database :=
          (createSession (database w) new (Credential.username user) (clock w)).1 |},
     {| sessionID := new;
        session := Some {| moUser := Some {| MoUser.username := Credential.username user;
                                             MoUser.role := Credential.role user;
                                             MoUser.sessionStart := clock w |};
                           demoSessionId := Some new;
                           lastActivity := Some (clock w);
                           lastRegenerated := Some (clock w) |} |},
     LoginSuccess (Credential.username user) (Credential.role user)).
Proof.
  intros Hsup Hin Hvalid new. subst new.
  destruct (supplied_unused uid_inj w (uid_next w) Hsup (Nat.le_refl _)) as [Hfree0 _].
  destruct (supplied_unused uid_inj w (S (uid_next w)) Hsup (Nat.le_succ_diag_r _))
    as [_ Hfree1].
  unfold login, load, generate, login_handler.
  rewrite (validate_known_user user password Hin Hvalid).
  rewrite session_regenerate_eq. cbn [sessionID session clock database uid_next].
  unfold createSession, insert_capture_session.
  rewrite Hfree1. cbn.
  rewrite (delete_id _ _ Hfree0). reflexivity.
Qed.

(** X16.  The session a login opens is accepted by the guard: GET
    /status under the cookie of a successful login answers with the
    user's name and role, and the login has created the capture session
    of that cookie for that user, expiring thirty minutes later. *)
Theorem login_opens_usable_session
    (w : World) (user : Credential.t) (password : string) :
  supplied w ->
  In user MO_USERS ->
  bcrypt_compare password (Credential.passwordHash user) = true ->
  let after := login w None (Credential.username user) password in
  let cookie := sessionID after.1.2 in
  (status after.1.1 (Some cookie)).2
  = StatusOk (Credential.username user) (Credential.role user) /\
  exists cs,
    In cs (capture_sessions (database after.1.1)) /\
    cs_session_id cs = cookie /\
    cs_mo_username cs = Credential.username user /\
    cs_expires_at cs = clock w + CAPTURE_TTL.
Proof.
  intros Hsup Hin Hvalid after cookie. subst cookie after.
  rewrite (login_valid_exact w user password Hsup Hin Hvalid).
  cbn [fst snd sessionID database]. split.
  - unfold status, guarded, load.
    match goal with
    | |- context [sessionStore ?w0 !! ?k] =>
        erewrite (sessionStore_fresh_row w0 k) by reflexivity
    end.
    match goal with
    | |- context [requireAuth ?w0 {| sessionID := ?i; session := Some ?s0 |}] =>
        rewrite (requireAuth_live w0 i s0 _ eq_refl)
    end.
    + destruct (rotation_due _ _); reflexivity.
    + unfold idle_expired. cbn [lastActivity clock]. apply andb_false_iff. right.
      rewrite Z.gtb_ltb. apply Z.ltb_ge. unfold MAX_IDLE. lia.
  - destruct (supplied_unused uid_inj w (S (uid_next w)) Hsup (Nat.le_succ_diag_r _))
      as [_ Hfree1].
    unfold createSession, insert_capture_session. rewrite Hfree1. cbn [fst capture_sessions].
    eexists. split; [apply in_or_app; right; left; reflexivity|].
    repeat split.
Qed.

End SessionLife.

(** ** The SMS service *)

Section SmsFacts.

Lemma has_dash_app (a b : string) : has_dash (a +:+ b) = has_dash a || has_dash b.
Proof.
  induction a as [|c a IH]; [reflexivity|].
  change (has_dash (String c (a +:+ b)) = has_dash (String c a) || has_dash b).
  cbn [has_dash]. rewrite IH, orb_assoc. reflexivity.
Qed.

Lemma after_last_dash_app (a b : string) :
  has_dash b = false -> after_last_dash (a +:+ "-" +:+ b) = b.
Proof.
  intros Hb. induction a as [|c a IH].
  - change (after_last_dash (String "-"%char b) = b). cbn [after_last_dash].
    rewrite Hb. reflexivity.
  - change (after_last_dash (String c (a +:+ "-" +:+ b)) = b). cbn [after_last_dash].
    rewrite has_dash_app. change ("-" +:+ b) with (String "-"%char b).
    cbn [has_dash]. rewrite Ascii.eqb_refl, orb_true_r. exact IH.
Qed.

Lemma pretty_N_go_has_dash (x : N) (s : string) :
  has_dash (pretty_N_go x s) = has_dash s.
Proof.
  revert s. induction (N.lt_wf_0 x) as [x _ IH]; intros s.
  destruct (N.eq_dec x 0%N) as [->|Hpos]; [reflexivity|].
  rewrite pretty_N_go_step by lia.
  rewrite IH by (apply N.div_lt; lia).
  cbn [has_dash]. unfold pretty_N_char.
  repeat case_match; reflexivity.
Qed.

Lemma pretty_nat_has_no_dash (n : nat) : has_dash (pretty n) = false.
Proof.
  unfold pretty, pretty_nat, pretty, pretty_N.
  case_decide; [reflexivity|]. apply pretty_N_go_has_dash.
Qed.

(** The counter can be read back from a delivery id. *)
Lemma deliveryId_counter (t t' : Z) (c c' : nat) :
  deliveryId t c = deliveryId t' c' -> c = c'.
Proof.
  unfold deliveryId. intros Heq.
  apply (f_equal after_last_dash) in Heq.
  rewrite <- (string_app_assoc "MO-" (pretty t)) in Heq.
  rewrite <- (string_app_assoc "MO-" (pretty t')) in Heq.
  rewrite !after_last_dash_app in Heq by apply pretty_nat_has_no_dash.
  exact (inj pretty _ _ Heq).
Qed.


(** X17.  [send] refuses a number that fails the pattern and leaves the
    service untouched; for a number that passes it queues exactly one
    new delivery with status queued under an id no earlier delivery
    has, so nothing queued before is overwritten, and [getStatus] of
    the returned id reports that delivery. *)
Theorem send_queues_under_fresh_id {Message : Type}
    (svc : SMSService) (now : Z) (to : string) (message : Message)
    (sessionId username : string) :
  queue_sound svc ->
  let id := deliveryId now (S (deliveryCounter svc)) in
  let after := send svc now to message sessionId username in
  (phoneRegex_test to = false ->
   after = (svc, inl Sms.InvalidPhoneNumberFormat)) /\
  (phoneRegex_test to = true ->
   after.2 = inr {| Sms.receipt_id := id; Sms.receipt_status := Sms.queued |} /\
   deliveryQueue svc !! id = None /\
   size (deliveryQueue after.1) = S (size (deliveryQueue svc)) /\
   (forall id' d, deliveryQueue svc !! id' = Some d ->
                  deliveryQueue after.1 !! id' = Some d) /\
   getStatus after.1 id
   = inr {| Sms.report_id := id; Sms.report_status := Sms.queued;
            Sms.report_timestamp := now; Sms.report_deliveredAt := None |} /\
   queue_sound after.1).
Proof.
  intros Hsound id after. subst after. unfold send. split.
  - intros ->. reflexivity.
  - intros ->. cbn [negb fst snd deliveryQueue]. fold id.
    assert (Hfresh : deliveryQueue svc !! id = None).
    { destruct (deliveryQueue svc !! id) as [d|] eqn:Hd; [|reflexivity].
      destruct (Hsound id d Hd) as (_ & t & c & Heq & Hc).
      apply deliveryId_counter in Heq. lia. }
    split; [reflexivity|]. split; [exact Hfresh|]. split; [|split; [|split]].
    + apply map_size_insert_None, Hfresh.
    + intros id' d Hd. rewrite lookup_insert_ne; [exact Hd|]. congruence.
    + unfold getStatus. cbn [deliveryQueue]. rewrite lookup_insert_eq. reflexivity.
    + intros id' d Hd. cbn [deliveryQueue deliveryCounter] in *.
      apply lookup_insert_Some in Hd as [[<- <-]|[_ Hd]].
      * split; [reflexivity|]. exists now, (S (deliveryCounter svc)). split; [reflexivity | lia].
      * destruct (Hsound id' d Hd) as (Hid & t & c & Heq & Hc).
        split; [exact Hid|]. exists t, c. split; [exact Heq | lia].
Qed.

Lemma substring_all (s : string) (m : nat) :
  (String.length s <= m)%nat -> String.substring 0 m s = s.
Proof.
  revert m. induction s as [|c s IH]; intros [|m] Hlen; cbn in *; try reflexivity; try lia.
  rewrite IH by lia. reflexivity.
Qed.

Lemma digits_ahead_all (n : nat) (s : string) :
  all_digits s = true -> digits_ahead n s = (n <=? String.length s)%nat.
Proof.
  revert s. induction n as [|n IH]; intros s Hs; [reflexivity|].
  destruct s as [|c s]; [reflexivity|].
  cbn [all_digits] in Hs. apply andb_prop in Hs as [Hc Hs].
  cbn [digits_ahead String.length]. rewrite Hc, (IH s Hs). reflexivity.
Qed.

Lemma mask_to_digits (s : string) :
  all_digits s = true ->
  mask_to s = stars (String.length s - 4)
              +:+ String.substring (String.length s - 4) 4 s.
Proof.
  induction s as [|c s IH]; [reflexivity|].
  cbn [all_digits]. intros Hs. apply andb_prop in Hs as [Hc Hs].
  cbn [mask_to]. rewrite Hc, (digits_ahead_all 4 s Hs), (IH Hs). cbn [andb].
  destruct (Nat.leb_spec 4 (String.length s)) as [Hlong|Hshort].
  - cbn [String.length].
    replace (S (String.length s) - 4)%nat with (S (String.length s - 4)) by lia.
    reflexivity.
  - cbn [String.length].
    replace (S (String.length s) - 4)%nat with 0%nat by lia.
    replace (String.length s - 4)%nat with 0%nat by lia.
    cbn [stars]. change ("" +:+ ?x) with x.
    rewrite substring_all by lia.
    change (String.substring 0 4 (String c s)) with (String c (String.substring 0 3 s)).
    rewrite substring_all by lia. reflexivity.
Qed.

(** X18.  For a number that passes the pattern, the text kept in the
    delivery record is the optional "+", then a star for every digit
    but the last four, then the last four digits; a number of at most
    four digits is therefore kept in clear. *)
Theorem mask_to_shows_last_four_digits (to : string) :
  phoneRegex_test to = true ->
  exists plus digits,
    to = plus +:+ digits /\ (plus = "" \/ plus = "+") /\
    all_digits digits = true /\
    (2 <= String.length digits <= 15)%nat /\
    mask_to to = plus +:+ stars (String.length digits - 4)
                 +:+ String.substring (String.length digits - 4) 4 digits.
Proof.
  unfold phoneRegex_test.
  assert (Hbody : forall d rest,
            is_nonzero_digit d && all_digits rest
            && (1 <=? String.length rest)%nat && (String.length rest <=? 14)%nat = true ->
            all_digits (String d rest) = true /\
            (2 <= String.length (String d rest) <= 15)%nat).
  { intros d rest Hok.
    apply andb_prop in Hok as [Hok Hmax]. apply andb_prop in Hok as [Hok Hmin].
    apply andb_prop in Hok as [Hd Hrest].
    apply Nat.leb_le in Hmax, Hmin. cbn [all_digits String.length].
    split; [|lia]. rewrite Hrest, andb_true_r.
    unfold is_nonzero_digit, is_digit in *.
    apply andb_prop in Hd as [Hlo Hhi]. rewrite Hhi, andb_true_r.
    apply N.leb_le in Hlo. apply N.leb_le. lia. }
  destruct to as [|c rest]; [discriminate|].
  destruct (Ascii.eqb_spec c "+"%char) as [->|Hplus].
  - destruct rest as [|d rest]; [discriminate|]. intros Hok.
    destruct (Hbody d rest Hok) as [Hdigits Hlen].
    exists "+", (String d rest). split; [reflexivity|]. split; [right; reflexivity|].
    split; [exact Hdigits|]. split; [exact Hlen|].
    assert (Hhead : mask_to (String "+"%char (String d rest))
                    = String "+"%char (mask_to (String d rest))) by reflexivity.
    rewrite Hhead, (mask_to_digits _ Hdigits). reflexivity.
  - intros Hok. destruct (Hbody c rest Hok) as [Hdigits Hlen].
    exists "", (String c rest). split; [reflexivity|]. split; [left; reflexivity|].
    split; [exact Hdigits|]. split; [exact Hlen|].
    rewrite (mask_to_digits _ Hdigits). reflexivity.
Qed.

End SmsFacts.

(** ** Message logging and the send route *)

Section MessagingFacts.
Context {aead : Aead}.
Variable KEY : list byte.
Variable code_units : string -> list N.

Lemma filter_no_angle (message : list N) (c : N) :
  In c (List.filter (fun c => negb ((c =? 60) || (c =? 62))%N) message) ->
  c <> 60%N /\ c <> 62%N.
Proof.
  intros Hc. apply filter_In in Hc as [_ Hc].
  apply negb_true_iff, orb_false_iff in Hc as [H60 H62].
  apply N.eqb_neq in H60, H62. split; assumption.
Qed.

Lemma filter_id_when_all {A : Type} (f : A -> bool) (l : list A) :
  (forall x, In x l -> f x = true) -> List.filter f l = l.
Proof.
  induction l as [|x l IH]; intros Hall; [reflexivity|].
  cbn. rewrite (Hall x) by (left; reflexivity).
  rewrite IH by (intros y Hy; apply Hall; right; exact Hy). reflexivity.
Qed.

(** X19.  The sanitised text POST /send builds from the request's
    message, which it logs and puts in front of the safety-code suffix
    of every SMS, never exceeds 1600 code units and holds no "<" and no
    ">"; a message that already is like that is kept as it is, so
    sanitising twice changes nothing more. *)
Theorem sanitizeMessage_is_bounded_and_clean (message : list N) :
  (length (sanitizeMessage message) <= 1600)%nat /\
  (forall c, In c (sanitizeMessage message) -> c <> 60%N /\ c <> 62%N) /\
  ((length message <= 1600)%nat ->
   (forall c, In c message -> c <> 60%N /\ c <> 62%N) ->
   sanitizeMessage message = message) /\
  sanitizeMessage (sanitizeMessage message) = sanitizeMessage message.
Proof.
  assert (Hclean : forall m c, In c (sanitizeMessage m) -> c <> 60%N /\ c <> 62%N).
  { intros m c Hc. unfold sanitizeMessage in Hc.
    apply (filter_no_angle m). apply list_elem_of_In.
    apply list_elem_of_In, elem_of_take in Hc as (i & Hi & _).
    apply list_elem_of_lookup. eauto. }
  assert (Hlen : forall m, (length (sanitizeMessage m) <= 1600)%nat).
  { intros m. unfold sanitizeMessage. rewrite length_take. lia. }
  assert (Hid : forall m, (length m <= 1600)%nat ->
                          (forall c, In c m -> c <> 60%N /\ c <> 62%N) ->
                          sanitizeMessage m = m).
  { intros m Hm Hc. unfold sanitizeMessage.
    rewrite filter_id_when_all.
    - apply take_ge. lia.
    - intros c Hin. destruct (Hc c Hin) as [H60 H62].
      apply negb_true_iff, orb_false_iff. split; apply N.eqb_neq; assumption. }
  split; [apply Hlen|]. split; [apply Hclean|]. split; [apply Hid|].
  apply Hid; [apply Hlen | apply Hclean].
Qed.

(** X20.  With foreign keys off, [logMessage] always resolves and
    appends exactly one row.  Its preview is the message itself when
    that has at most 50 code units, and its first 50 followed by three
    dots otherwise, 53 at most; its phone envelope decrypts to the
    logged number under a correct cipher. *)
Theorem logMessage_appends_one_row
    (db : Db) (l : MessageLogs) (sessionId moUsername phone : string)
    (message : list N) (status : string) (iv : list byte) (now : Z) :
  gcm_correct ->
  foreign_keys db = false ->
  exists row,
    logMessage KEY db l sessionId moUsername phone message status iv now
    = ({| message_logs := message_logs l ++ [row];
          message_logs_seq := message_logs_seq l + 1 |},
       Resolved {| logged_id := message_logs_seq l + 1 |}) /\
    ml_id row = message_logs_seq l + 1 /\
    ml_session_id row = sessionId /\ ml_status row = status /\
    decrypt KEY (ml_encrypted_phone row) = inr phone /\
    (length (ml_message_preview row) <= 53)%nat /\
    ((length message <= 50)%nat -> ml_message_preview row = message) /\
    ((50 < length message)%nat ->
     ml_message_preview row = (take 50 message ++ [46; 46; 46]%N)%list).
Proof.
  intros Hok Hfk. unfold logMessage, insert_message_log. rewrite Hfk. cbn [andb].
  eexists. split; [reflexivity|]. cbn [ml_id ml_session_id ml_status
                                        ml_encrypted_phone ml_message_preview].
  split; [reflexivity|]. split; [reflexivity|]. split; [reflexivity|].
  split; [apply decrypt_encrypt, Hok|].
  unfold message_preview. split; [|split].
  - rewrite length_app, length_take. destruct (50 <? length message)%nat; cbn [length]; lia.
  - intros Hshort. destruct (Nat.ltb_spec 50 (length message)) as [Hlong|_]; [lia|].
    rewrite app_nil_r. apply take_ge. lia.
  - intros Hlong. destruct (Nat.ltb_spec 50 (length message)) as [_|Hshort]; [|lia].
    reflexivity.
Qed.


(** Where the store can end up after one turn of the loop. *)
Lemma send_to_store (m : Messaging) (sessionId username : string) (recipient : Capture)
    (sanitized : list N) (iv_mark iv_log iv_catch : list byte) (now : Z) :
  store (send_to KEY code_units m sessionId username recipient sanitized
           (iv_mark, iv_log, iv_catch) now).1 = store m \/
  store (send_to KEY code_units m sessionId username recipient sanitized
           (iv_mark, iv_log, iv_catch) now).1
  = (markAsSent KEY (store m) sessionId (phoneNumber recipient) iv_mark).1.
Proof.
  unfold send_to, send, report_failed.
  destruct (phoneRegex_test (phoneNumber recipient)); cbn [negb].
  - right.
    destruct (markAsSent KEY (store m) sessionId (phoneNumber recipient) iv_mark)
      as [db' [done|e|e]]; cbn [fst snd store logs sms];
      repeat match goal with
             | |- context [logMessage ?k ?d ?l ?s ?u ?p ?msg ?st ?iv ?t] =>
                 destruct (logMessage k d l s u p msg st iv t) as [? [?|?|?]]
             end; reflexivity.
  - left.
    destruct (logMessage _ _ _ _ _ _ _ _ _ _) as [? [?|?|?]]; reflexivity.
Qed.

Lemma markAsSent_identity (db : Db) (sessionId phone : string) (iv : list byte) :
  (forall cd, In cd (captured_data db) ->
              cd_encrypted_phone cd <> encrypt KEY iv phone) ->
  (markAsSent KEY db sessionId phone iv).1 = db.
Proof.
  intros Hfresh.
  destruct (markAsSent_no_equal_envelope KEY db sessionId phone iv Hfresh) as [Hrows _].
  destruct db. unfold markAsSent, update_mark_sent in *. cbn in *.
  f_equal. exact Hrows.
Qed.

Lemma send_to_all_store (recipients : list Capture) (m : Messaging)
    (sessionId username : string) (sanitized : list N)
    (ivs : nat -> list byte * list byte * list byte) (k : nat) (now : Z) :
  (forall j cd phone, In cd (captured_data (store m)) ->
                      cd_encrypted_phone cd <> encrypt KEY (ivs j).1.1 phone) ->
  store (send_to_all KEY code_units m sessionId username recipients sanitized
           ivs k now).1 = store m.
Proof.
  revert m k. induction recipients as [|c rest IH]; intros m k Hfresh; [reflexivity|].
  cbn [send_to_all].
  assert (Hturn : store (send_to KEY code_units m sessionId username c sanitized
                           (ivs k) now).1 = store m).
  { pose proof (Hfresh k) as Hk. destruct (ivs k) as [[iv_mark iv_log] iv_catch].
    destruct (send_to_store m sessionId username c sanitized iv_mark iv_log iv_catch now)
      as [->| ->]; [reflexivity|].
    apply markAsSent_identity. intros cd Hcd. apply (Hk cd _ Hcd). }
  destruct (send_to KEY code_units m sessionId username c sanitized (ivs k) now)
    as [m1 [result|e|e]]; cbn [fst] in Hturn; [|exact Hturn|exact Hturn].
  assert (Hrest : store (send_to_all KEY code_units m1 sessionId username rest
                           sanitized ivs (S k) now).1 = store m1).
  { apply IH. rewrite Hturn. exact Hfresh. }
  destruct (send_to_all KEY code_units m1 sessionId username rest sanitized ivs (S k) now)
    as [m2 [results|e|e]]; cbn [fst] in *; congruence.
Qed.

(** X21.  POST /send never takes a record out of the next send: when
    the nonces it draws differ from those of the stored envelopes, the
    capture store after the handler is exactly the one before it,
    whatever was delivered, so [getSessionData] selects the same
    recipients again. *)
Theorem send_leaves_every_record_new
    (message : list N) (ivs : nat -> list byte * list byte * list byte)
    (m : Messaging) (now : Z) (sessionId username : string) :
  (forall j cd phone, In cd (captured_data (store m)) ->
                      cd_encrypted_phone cd <> encrypt KEY (ivs j).1.1 phone) ->
  let after := (send_handler KEY code_units message ivs m now sessionId username).1 in
  store after = store m /\
  forall reader later,
    getSessionData KEY (store after) sessionId reader later
    = getSessionData KEY (store m) sessionId reader later.
Proof.
  intros Hfresh after.
  assert (Hstore : store after = store m).
  { subst after. unfold send_handler.
    destruct (getSessionData KEY (store m) sessionId username now)
      as [[|c rest]|e|e]; try reflexivity.
    pose proof (send_to_all_store (c :: rest) m sessionId username
                  (sanitizeMessage message) ivs 0 now Hfresh) as Hall.
    destruct (send_to_all KEY code_units m sessionId username (c :: rest)
                (sanitizeMessage message) ivs 0 now) as [m' [results|e|e]];
      exact Hall. }
  split; [exact Hstore|]. intros reader later. rewrite Hstore. reflexivity.
Qed.

(** One turn of the loop with foreign keys off. *)
Lemma send_to_fk_off (m : Messaging) (sessionId username : string) (recipient : Capture)
    (sanitized : list N) (ivs : list byte * list byte * list byte) (now : Z) :
  foreign_keys (store m) = false ->
  let valid := phoneRegex_test (phoneNumber recipient) in
  let after := send_to KEY code_units m sessionId username recipient sanitized ivs now in
  exists result,
    after.2 = Resolved result /\
    result_sent result = valid /\
    result_phone result = mask_middle (phoneNumber recipient) /\
    foreign_keys (store after.1) = false /\
    deliveryCounter (sms after.1)
    = (deliveryCounter (sms m) + if valid then 1 else 0)%nat /\
    length (message_logs (logs after.1)) = S (length (message_logs (logs m))).
Proof.
  intros Hfk valid after. subst valid after.
  destruct ivs as [[iv_mark iv_log] iv_catch].
  unfold send_to, send, report_failed.
  destruct (phoneRegex_test (phoneNumber recipient)); cbn [negb].
  - unfold markAsSent, update_mark_sent, logMessage, insert_message_log.
    cbn [foreign_keys fst snd store logs sms]. rewrite Hfk. cbn [andb].
    eexists. cbn [fst snd store logs sms foreign_keys deliveryCounter message_logs].
    repeat split; try reflexivity; try exact Hfk; try lia.
    rewrite length_app. cbn [length]. lia.
  - unfold logMessage, insert_message_log. rewrite Hfk. cbn [andb].
    eexists. cbn [fst snd store logs sms foreign_keys deliveryCounter message_logs].
    repeat split; try reflexivity; try exact Hfk; try lia.
    rewrite length_app. cbn [length]. lia.
Qed.

Lemma send_to_all_fk_off (recipients : list Capture) (m : Messaging)
    (sessionId username : string) (sanitized : list N)
    (ivs : nat -> list byte * list byte * list byte) (k : nat) (now : Z) :
  foreign_keys (store m) = false ->
  let valid c := phoneRegex_test (phoneNumber c) in
  let after := send_to_all KEY code_units m sessionId username recipients sanitized
                 ivs k now in
  exists results,
    after.2 = Resolved results /\
    map result_sent results = map valid recipients /\
    map result_phone results = map (fun c => mask_middle (phoneNumber c)) recipients /\
    deliveryCounter (sms after.1)
    = (deliveryCounter (sms m) + length (List.filter valid recipients))%nat /\
    length (message_logs (logs after.1))
    = (length (message_logs (logs m)) + length recipients)%nat.
Proof.
  revert m k. induction recipients as [|c rest IH]; intros m k Hfk valid after;
    subst after.
  - exists []. cbn. repeat split; lia.
  - cbn [send_to_all].
    destruct (send_to_fk_off m sessionId username c sanitized (ivs k) now Hfk)
      as (result & Hres & Hsent & Hphone & Hfk1 & Hcount1 & Hlogs1).
    destruct (send_to KEY code_units m sessionId username c sanitized (ivs k) now)
      as [m1 r1]. cbn [fst snd] in *. subst r1.
    destruct (IH m1 (S k) Hfk1) as (results & Hrest & Hsents & Hphones & Hcount & Hlogs).
    destruct (send_to_all KEY code_units m1 sessionId username rest sanitized ivs (S k) now)
      as [m2 r2]. cbn [fst snd] in *. subst r2.
    exists (result :: results). cbn [map List.filter length].
    split; [reflexivity|].
    split; [f_equal; [exact Hsent | exact Hsents]|].
    split; [f_equal; [exact Hphone | exact Hphones]|].
    cbn [fst]. rewrite Hcount, Hcount1, Hlogs, Hlogs1. subst valid. cbv beta.
    destruct (phoneRegex_test (phoneNumber c)); cbn [length]; split; lia.
Qed.

(** X22.  With foreign keys off, POST /send answers for every selected
    recipient, in order: a recipient counts as sent exactly when the
    number passes the SMS pattern, sent and failed add up to the total,
    one delivery is queued per sent recipient and one log row is written
    per recipient; with no recipient it answers NO_RECIPIENTS and
    changes nothing. *)
Theorem send_reports_every_recipient
    (message : list N) (ivs : nat -> list byte * list byte * list byte)
    (m : Messaging) (now : Z) (sessionId username : string)
    (recipients : list Capture) :
  foreign_keys (store m) = false ->
  getSessionData KEY (store m) sessionId username now = Resolved recipients ->
  let valid c := phoneRegex_test (phoneNumber c) in
  let after := send_handler KEY code_units message ivs m now sessionId username in
  (recipients = [] -> after = (m, NO_RECIPIENTS)) /\
  (recipients <> [] ->
   exists results sent failed,
     after.2 = Sent results (length recipients) sent failed /\
     map result_sent results = map valid recipients /\
     sent = length (List.filter valid recipients) /\
     (sent + failed = length recipients)%nat /\
     deliveryCounter (sms after.1) = (deliveryCounter (sms m) + sent)%nat /\
     length (message_logs (logs after.1))
     = (length (message_logs (logs m)) + length recipients)%nat).
Proof.
  intros Hfk Hread valid after. subst after. unfold send_handler. rewrite Hread.
  split.
  - intros ->. reflexivity.
  - intros Hsome. destruct recipients as [|c rest]; [congruence|].
    destruct (send_to_all_fk_off (c :: rest) m sessionId username
                (sanitizeMessage message) ivs 0 now Hfk)
      as (results & Hres & Hsents & _ & Hcount & Hlogs).
    destruct (send_to_all KEY code_units m sessionId username (c :: rest)
                (sanitizeMessage message) ivs 0 now) as [m' r].
    cbn [fst snd] in *. subst r.
    assert (Hlen : length results = length (c :: rest)).
    { rewrite <- (length_map result_sent results), Hsents, length_map. reflexivity. }
    assert (Hsent : length (List.filter result_sent results)
                    = length (List.filter valid (c :: rest))).
    { clear - Hsents. revert Hsents. generalize (c :: rest) as cs.
      induction results as [|r results IH]; intros [|c0 cs] Hmap; try discriminate;
        [reflexivity|].
      cbn [map] in Hmap. injection Hmap as Hr Hmap.
      cbn [List.filter]. rewrite Hr. fold (valid c0).
      destruct (valid c0); cbn [length]; rewrite (IH cs Hmap); reflexivity. }
    assert (Hpart : (length (List.filter result_sent results)
                     + length (List.filter (fun r => negb (result_sent r)) results)
                     = length results)%nat).
    { clear. induction results as [|r results IH]; [reflexivity|].
      cbn [List.filter]. destruct (result_sent r); cbn [negb length]; lia. }
    eexists results, _, _. cbn [fst snd]. rewrite Hlen.
    split; [reflexivity|]. split; [exact Hsents|]. split; [exact Hsent|].
    split; [lia|]. split; [rewrite Hcount, Hsent; reflexivity | exact Hlogs].
Qed.

End MessagingFacts.

(** ** The additional facts on the small instance *)

Section DemoMore.
Import Demo.

Lemma fresh_nonce_gives_fresh_envelope_witness :
  encrypt Demo.KEY Demo.IV1 "+15551234567" <> encrypt Demo.KEY Demo.IV3 "+15551234567".
Proof.
  apply (fresh_nonce_gives_fresh_envelope Demo.KEY Demo.IV1 Demo.IV3).
  discriminate.
Defined.

Lemma decrypt_needs_three_parts_witness :
  (exists e, decrypt Demo.KEY "0101" = inl e) /\
  (exists e, decrypt Demo.KEY "0101:2a07" = inl e).
Proof.
  apply (decrypt_needs_three_parts Demo.KEY "0101" "2a07"); reflexivity.
Defined.

Lemma read_is_confined_to_owner_witness :
  getSessionData Demo.KEY Demo.db_one_capture "sid-0" "demo.admin" 2000 = Resolved [].
Proof.
  apply (read_is_confined_to_owner Demo.KEY Demo.db_one_capture "sid-0" "demo.admin" 2000).
  intros cs [<-|[]] _. discriminate.
Defined.

Lemma read_delivers_only_new_rows_of_owner_witness :
  exists row cs,
    In row (captured_data Demo.db_one_capture) /\
    In cs (capture_sessions Demo.db_one_capture) /\
    cd_id row = 1 /\ cd_created_at row = 1000 /\
    cd_session_id row = "sid-0" /\ cd_status row = StatusNew /\
    cs_session_id cs = "sid-0" /\ cs_mo_username cs = "demo.operator" /\
    expires_gt_now (cs_expires_at cs) 2000 = true.
Proof.
  apply (read_delivers_only_new_rows_of_owner Demo.KEY Demo.db_one_capture
           "sid-0" "demo.operator" 2000 [DemoSend.captured] DemoSend.captured).
  - reflexivity.
  - left. reflexivity.
Defined.

Lemma demo_unique_sessions : unique_sessions Demo.db_one_capture.
Proof. unfold unique_sessions. cbn. apply NoDup_singleton. Qed.

Lemma session_id_stays_unique_witness :
  createSession Demo.db_one_capture "sid-0" "demo.admin" 2000
  = (Demo.db_one_capture, Rejected (SqlFailure SQLITE_CONSTRAINT_UNIQUE)) /\
  unique_sessions (cleanupExpired Demo.db_one_capture 2000).
Proof.
  destruct (session_id_stays_unique Demo.KEY Demo.db_one_capture "sid-0" "demo.admin"
              "+15551234567" "ABC123" Demo.IV1 Demo.IV2 2000 demo_unique_sessions)
    as (Hdup & _ & _ & _ & _ & Hsweep).
  split; [|exact Hsweep].
  apply Hdup. eexists. split; [left; reflexivity | reflexivity].
Defined.

Lemma cleanupExpired_keeps_unexpired_witness :
  let cs := {| cs_id := 1; cs_session_id := "sid-0";
               cs_mo_username := "demo.operator"; cs_created_at := 1000;
               cs_expires_at := 1801000; cs_status := "active" |} in
  In cs (capture_sessions (cleanupExpired Demo.db_one_capture 1801000)) /\
  (forall cd, In cd (captured_data Demo.db_one_capture) ->
              cd_session_id cd = cs_session_id cs ->
              In cd (captured_data (cleanupExpired Demo.db_one_capture 1801000))).
Proof.
  intros cs.
  apply (cleanupExpired_keeps_unexpired Demo.db_one_capture cs 1801000).
  - exact demo_unique_sessions.
  - left. reflexivity.
  - cbn. lia.
Defined.

(** The calendar of the model gives the date JavaScript prints. *)
Lemma demo_toISOString :
  toISOString 1700000000000 = "2023-11-14T22:13:20.000Z" /\
  sqlite_datetime 1709210096789 = "2024-02-29 12:34:56".
Proof. split; vm_compute; reflexivity. Qed.

(** The capture session of the demo expires half an hour after
    midnight; an hour after midnight the sweep still keeps it. *)
Lemma expiry_text_comparison_is_by_utc_day_witness :
  toISOString 1801000 = "1970-01-01T00:30:01.000Z" /\
  sqlite_datetime 3600000 = "1970-01-01 01:00:00" /\
  text_lt (toISOString 1801000) (sqlite_datetime 3600000) = false /\
  In {| cs_id := 1; cs_session_id := "sid-0"; cs_mo_username := "demo.operator";
        cs_created_at := 1000; cs_expires_at := 1801000; cs_status := "active" |}
     (capture_sessions (cleanupExpired Demo.db_one_capture 3600000)).
Proof.
  destruct (expiry_text_comparison_is_by_utc_day 1801000 3600000)
    as (Hlt & _ & Hkept); try (vm_compute; discriminate).
  split; [reflexivity|]. split; [reflexivity|]. split.
  - rewrite Hlt. reflexivity.
  - apply (Hkept Demo.db_one_capture); [left; reflexivity | reflexivity | reflexivity].
Defined.

Lemma failed_login_changes_nothing_witness :
  let after := login (world_at 2000) (Some "sid-0") "demo.operator" "wrong password" in
  after.2 = AUTH_FAILED /\
  sessionStore after.1.1 = sessionStore (world_at 2000) /\
  database after.1.1 = database (world_at 2000) /\
  activeSessions after.1.1 = activeSessions (world_at 2000) /\
  (forall sid, row_sess <$> storeRows after.1.1 !! sid
               = row_sess <$> storeRows (world_at 2000) !! sid).
Proof.
  apply (failed_login_changes_nothing (world_at 2000) (Some "sid-0")
           "demo.operator" "wrong password").
  reflexivity.
Defined.

Lemma unauthenticated_request_is_refused_witness :
  (serve Demo.KEY (world_at 2000) (GetCurrent (Some "sid-7"))).2 = Some AUTH_REQUIRED /\
  sessionStore (serve Demo.KEY (world_at 2000) (GetCurrent (Some "sid-7"))).1
  = sessionStore (world_at 2000) /\
  database (serve Demo.KEY (world_at 2000) (GetCurrent (Some "sid-7"))).1
  = database (world_at 2000) /\
  activeSessions (serve Demo.KEY (world_at 2000) (GetCurrent (Some "sid-7"))).1
  = activeSessions (world_at 2000).
Proof.
  apply (unauthenticated_request_is_refused Demo.KEY (world_at 2000) (Some "sid-7")
           (GetCurrent (Some "sid-7"))).
  - intros sid [= <-]. reflexivity.
  - reflexivity.
Defined.



Lemma logout_is_final_witness :
  let w := world_at 2000 in
  (serve Demo.KEY w (Logout (Some "sid-0"))).2 = Some LoggedOut /\
  forall evs ev',
    guarded_with (Some "sid-0") ev' ->
    (serve Demo.KEY (run Demo.KEY (handle Demo.KEY w (Logout (Some "sid-0"))) evs) ev').2
    = Some AUTH_REQUIRED.
Proof.
  apply (logout_is_final Demo.KEY demo_uid_inj (world_at 2000) "sid-0" operator_session
           {| MoUser.username := "demo.operator"; MoUser.role := "operator";
              MoUser.sessionStart := 1000 |}).
  - exists 0%nat. split; [cbn; lia | reflexivity].
  - apply demo_store_world_at.
  - reflexivity.
  - reflexivity.
Defined.

Lemma login_opens_usable_session_witness :
  let after := login world_started None "demo.operator" "correct horse" in
  (status after.1.1 (Some (sessionID after.1.2))).2 = StatusOk "demo.operator" "operator" /\
  exists cs,
    In cs (capture_sessions (database after.1.1)) /\
    cs_session_id cs = sessionID after.1.2 /\
    cs_mo_username cs = "demo.operator" /\
    cs_expires_at cs = 1000 + CAPTURE_TTL.
Proof.
  apply (login_opens_usable_session demo_uid_inj world_started
           {| Credential.username := "demo.operator";
              Credential.passwordHash := "$2b$10$YourHashedPasswordHere";
              Credential.role := "operator";
              Credential.allowedSessions := 3 |}
           "correct horse").
  - apply demo_supplied_started.
  - right. left. reflexivity.
  - reflexivity.
Defined.

Lemma logout_purges_capture_store_witness :
  let after := logout (world_at 2000) (Some "sid-0") in
  after.2 = LoggedOut /\
  (forall cd, In cd (captured_data (database after.1.1)) -> cd_session_id cd <> "sid-0") /\
  (forall cs, In cs (capture_sessions (database after.1.1)) -> cs_session_id cs <> "sid-0") /\
  sessionStore after.1.1 !! "sid-0" = None.
Proof.
  apply (logout_purges_capture_store (world_at 2000) "sid-0" "sid-0"
           operator_session
           {| MoUser.username := "demo.operator"; MoUser.role := "operator";
              MoUser.sessionStart := 1000 |}).
  - apply demo_store_world_at.
  - reflexivity.
  - reflexivity.
  - discriminate.
  - reflexivity.
Defined.

Lemma registry_stays_empty_witness :
  activeSessions
    (run Demo.KEY world_started
       [Login None "demo.operator" "correct horse"; Tick 60000;
        GetStatus (Some "sid-1"); Logout (Some "sid-1")]) = ∅.
Proof.
  apply (registry_stays_empty Demo.KEY). reflexivity.
Defined.

Lemma checkConcurrentSessions_within_limits_witness :
  let req := {| sessionID := "sid-0"; session := Some operator_session |} in
  let after := checkConcurrentSessions (world_at 2000) req "10.0.0.1" "agent" in
  registry_sound (activeSessions after.1) /\
  within_limits (activeSessions after.1).
Proof.
  destruct (checkConcurrentSessions_within_limits (world_at 2000)
              {| sessionID := "sid-0"; session := Some operator_session |}
              operator_session
              {| MoUser.username := "demo.operator"; MoUser.role := "operator";
                 MoUser.sessionStart := 1000 |}
              "10.0.0.1" "agent" eq_refl eq_refl)
    as (Hsound & Hlimits & _).
  - intros k e Hk. cbn in Hk. rewrite lookup_empty in Hk. discriminate.
  - intros u Hu. unfold entries_of. cbn [activeSessions world_at].
    rewrite map_to_list_empty. cbn. lia.
  - split; assumption.
Defined.

Lemma demo_queue_sound_new : queue_sound SMSService_new.
Proof. intros id d Hd. cbn in Hd. rewrite lookup_empty in Hd. discriminate. Qed.

Lemma send_queues_under_fresh_id_witness :
  let after := send SMSService_new 2000 "+15551234567" DemoSend.message "sid-0"
                 "demo.operator" in
  after.2 = inr {| Sms.receipt_id := "MO-2000-1"; Sms.receipt_status := Sms.queued |} /\
  size (deliveryQueue after.1) = 1%nat /\
  queue_sound after.1.
Proof.
  destruct (send_queues_under_fresh_id SMSService_new 2000 "+15551234567"
              DemoSend.message "sid-0" "demo.operator" demo_queue_sound_new)
    as [_ Hvalid].
  destruct (Hvalid eq_refl) as (Hreceipt & _ & Hsize & _ & _ & Hsound).
  split; [exact Hreceipt|]. split; [exact Hsize | exact Hsound].
Defined.

Lemma mask_to_shows_last_four_digits_witness :
  exists plus digits,
    "+15551234567" = plus +:+ digits /\ (plus = "" \/ plus = "+") /\
    all_digits digits = true /\
    (2 <= String.length digits <= 15)%nat /\
    mask_to "+15551234567"
    = plus +:+ stars (String.length digits - 4)
      +:+ String.substring (String.length digits - 4) 4 digits.
Proof.
  apply (mask_to_shows_last_four_digits "+15551234567"). reflexivity.
Defined.

Lemma logMessage_appends_one_row_witness :
  exists row,
    logMessage Demo.KEY Demo.db_one_capture (logs DemoSend.messaging) "sid-0"
      "demo.operator" "+15551234567" DemoSend.message "sent" Demo.IV3 2000
    = ({| message_logs := [row]; message_logs_seq := 1 |},
       Resolved {| logged_id := 1 |}) /\
    decrypt Demo.KEY (ml_encrypted_phone row) = inr "+15551234567" /\
    ml_message_preview row = DemoSend.message.
Proof.
  destruct (logMessage_appends_one_row Demo.KEY Demo.db_one_capture
              (logs DemoSend.messaging) "sid-0" "demo.operator" "+15551234567"
              DemoSend.message "sent" Demo.IV3 2000 demo_gcm_correct eq_refl)
    as (row & Hlog & _ & _ & _ & Hphone & _ & Hshort & _).
  exists row. split; [exact Hlog|]. split; [exact Hphone|].
  apply Hshort. cbn. lia.
Defined.

Lemma demo_nonces_fresh (j : nat) (cd : CapturedDataRow) (phone : string) :
  In cd (captured_data (store DemoSend.messaging)) ->
  cd_encrypted_phone cd <> encrypt Demo.KEY (DemoSms.nonces j).1.1 phone.
Proof.
  intros [<-|[]] Heq.
  apply (encrypt_iv_inj Demo.KEY Demo.IV1 _ "+15551234567" phone) in Heq.
  discriminate.
Qed.

Lemma send_leaves_every_record_new_witness :
  store (send_handler Demo.KEY DemoSms.code_units DemoSend.message DemoSms.nonces
           DemoSend.messaging 2000 "sid-0" "demo.operator").1
  = Demo.db_one_capture.
Proof.
  apply (send_leaves_every_record_new Demo.KEY DemoSms.code_units DemoSend.message
           DemoSms.nonces DemoSend.messaging 2000 "sid-0" "demo.operator").
  exact demo_nonces_fresh.
Defined.

Lemma send_reports_every_recipient_witness :
  exists results sent failed,
    (send_handler Demo.KEY DemoSms.code_units DemoSend.message DemoSms.nonces
       DemoSend.messaging 2000 "sid-0" "demo.operator").2
    = Sent results 1 sent failed /\
    sent = 1%nat /\ (sent + failed = 1)%nat.
Proof.
  assert (Hread : getSessionData Demo.KEY (store DemoSend.messaging) "sid-0"
                    "demo.operator" 2000 = Resolved [DemoSend.captured])
    by (vm_compute; reflexivity).
  destruct (send_reports_every_recipient Demo.KEY DemoSms.code_units DemoSend.message
              DemoSms.nonces DemoSend.messaging 2000 "sid-0" "demo.operator"
              [DemoSend.captured] eq_refl Hread) as [_ Hsome].
  destruct (Hsome ltac:(discriminate))
    as (results & sent & failed & Hresp & _ & Hsent & Hsum & _).
  exists results, sent, failed. split; [exact Hresp|]. split; [exact Hsent | exact Hsum].
Defined.

End DemoMore.
